(** * Stone Soup plotter: a shallow embedding of [stonesoup/plotter.py]

    The module draws ground truths, measurements and tracks on a matplotlib
    axes ([Plotter]) and animates time series ([TimeBasedPlotter]).  The
    embedding keeps the structure of the Python code:

    - the axes are a log of the draw calls the methods issue, in order;
    - [handles_list] and [labels_list] are the two Python lists of the
      [Plotter] object;
    - methods are state transformers over the [Plotter] record that may
      raise a Python exception ([M]); what was mutated before the exception
      stays mutated, as in Python;
    - numpy and matplotlib entry points whose code is not part of the module
      ([np.linalg.pinv], [np.linalg.eig], [np.sqrt], ...) are the fields of
      the [Numpy] interface. *)

From Stdlib Require Import ZArith QArith Qround Lia.
From stdpp Require Import base option list strings gmap.

Local Open Scope string_scope.
Local Open Scope list_scope.
Local Open Scope Z_scope.

(** ** Python exceptions and results *)

Inductive Exn : Type :=
| AttributeError
| NotImplementedError
| IndexError
| ValueError
| TypeError.

Inductive Result (A : Type) : Type :=
| Ok (a : A)
| Raise (e : Exn).
Arguments Ok {A} a.
Arguments Raise {A} e.

Definition result_bind {A B} (r : Result A) (k : A → Result B) : Result B :=
  match r with
  | Ok a => k a
  | Raise e => Raise e
  end.

#[export] Instance Result_ret : MRet Result := λ A a, Ok a.
#[export] Instance Result_bind : MBind Result := λ A B k r, result_bind r k.

(** [[f(x) for x in l]]: the comprehension stops at the first exception. *)
Fixpoint comprehension {A B} (f : A → Result B) (l : list A) : Result (list B) :=
  match l with
  | [] => Ok []
  | x :: l' =>
      match f x with
      | Raise e => Raise e
      | Ok y =>
          match comprehension f l' with
          | Raise e => Raise e
          | Ok ys => Ok (y :: ys)
          end
      end
  end.

(** ** Stateful code: a state and exception monad *)

Definition M (S A : Type) : Type := S → S * Result A.

Definition ret {S A} (a : A) : M S A := λ s, (s, Ok a).
Definition raise {S A} (e : Exn) : M S A := λ s, (s, Raise e).
Definition bind {S A B} (m : M S A) (k : A → M S B) : M S B :=
  λ s, match m s with
       | (s', Ok a) => k a s'
       | (s', Raise e) => (s', Raise e)
       end.
Definition modify {S} (f : S → S) : M S unit := λ s, (f s, Ok tt).
Definition gets {S A} (f : S → A) : M S A := λ s, (s, Ok (f s)).
Definition lift {S A} (r : Result A) : M S A := λ s, (s, r).

Declare Scope py_scope.
Delimit Scope py_scope with py.
Notation "x <- m ;; k" := (bind m (λ x, k))
  (at level 100, m at next level, right associativity) : py_scope.
Notation "m ;; k" := (bind m (λ _, k))
  (at level 100, right associativity) : py_scope.
Local Open Scope py_scope.

(** [for x in l: body(x)] *)
Fixpoint for_each {S A} (body : A → M S unit) (l : list A) : M S unit :=
  match l with
  | [] => ret tt
  | x :: l' => body x ;; for_each body l'
  end.

(** A [for] loop that carries the local variables the body reassigns. *)
Fixpoint for_fold {S A B} (body : B → A → M S B) (b : B) (l : list A) : M S B :=
  match l with
  | [] => ret b
  | x :: l' => b' <- body b x ;; for_fold body b' l'
  end.

(** ** numpy and matplotlib primitives *)

Abbreviation Vector num := (list num).
Abbreviation Matrix num := (list (list num)).

(** The numeric entry points the module calls.  [num] is the scalar type
    (Python and numpy floats); [lit] embeds the numeric literals of the
    source text. *)
Class Numpy (num : Type) : Type := {
  lit : Q → num;
  num_add : num → num → num;
  num_mul : num → num → num;
  num_ltb : num → num → bool;
  np_sqrt : num → num;
  np_arctan2 : num → num → num;
  np_rad2deg : num → num;
  np_pinv : Matrix num → Matrix num;
  np_eig : Matrix num → Vector num * Matrix num
}.

(** Values of keyword arguments. *)
Inductive PyVal (num : Type) : Type :=
| VNone
| VStr (s : string)
| VNum (x : num).
Arguments VNone {num}.
Arguments VStr {num} s.
Arguments VNum {num} x.

(** ** The data model: states, detections, models, tracks *)

(** The classes the module tests with [isinstance]. *)
Inductive PyClass : Type :=
| ClsOther        (* not a State *)
| ClsState        (* State and its subclasses other than Detection *)
| ClsDetection    (* Detection and its subclasses other than Clutter *)
| ClsClutter.     (* Clutter, a subclass of Detection *)

Definition isinstance_State (c : PyClass) : bool :=
  match c with ClsOther => false | _ => true end.
Definition isinstance_Detection (c : PyClass) : bool :=
  match c with ClsDetection | ClsClutter => true | _ => false end.
Definition isinstance_Clutter (c : PyClass) : bool :=
  match c with ClsClutter => true | _ => false end.

Definition type_repr (c : PyClass) : string :=
  match c with
  | ClsOther => "<class 'object'>"
  | ClsState => "<class 'stonesoup.types.state.State'>"
  | ClsDetection => "<class 'stonesoup.types.detection.Detection'>"
  | ClsClutter => "<class 'stonesoup.types.detection.Clutter'>"
  end.

Inductive ModelKind : Type :=
| KLinear       (* isinstance(model, LinearModel) *)
| KNonLinear    (* isinstance(model, NonLinearModel), not linear *)
| KOther.

(** What [model.inverse_function(detection)] does: the two exceptions are
    those that [plot_measurements] expects from the call (line 140). *)
Inductive InverseFn (num : Type) : Type :=
| InvMissing                            (* no such attribute: AttributeError *)
| InvNotImplemented                     (* raises NotImplementedError *)
| Inv (f : Vector num → Vector num).
Arguments InvMissing {num}.
Arguments InvNotImplemented {num}.
Arguments Inv {num} f.

Record Model (num : Type) : Type := {
  model_kind : ModelKind;
  matrix : Matrix num;
  inverse_function : InverseFn num
}.
Arguments model_kind {num} _.
Arguments matrix {num} _.
Arguments inverse_function {num} _.

Record Particle (num : Type) : Type := {
  particle_state_vector : Vector num
}.
Arguments particle_state_vector {num} _.

(** An attribute an object may not have: [None] is the missing attribute. *)
Definition Attr (A : Type) : Type := option A.

Definition getattr {A} (a : Attr A) : Result A :=
  match a with
  | Some x => Ok x
  | None => Raise AttributeError
  end.

(** A state object.  [measurement_model] is [Some None] for a detection whose
    model is Python's [None]. *)
Record State (num : Type) : Type := {
  cls : PyClass;
  state_vector : Vector num;
  timestamp : Z;
  measurement_model : Attr (option (Model num));
  covar : Attr (Matrix num);
  particles : Attr (list (Particle num))
}.
Arguments cls {num} _.
Arguments state_vector {num} _.
Arguments timestamp {num} _.
Arguments measurement_model {num} _.
Arguments covar {num} _.
Arguments particles {num} _.

(** A track (or a ground truth path): its states in iteration order and the
    [ndim] property. *)
Record Track (num : Type) : Type := {
  states : list (State num);
  ndim : nat
}.
Arguments states {num} _.
Arguments ndim {num} _.

(** The argument of [plot_ground_truths] and [plot_tracks]: a set (listed in
    its iteration order) or a single path. *)
Inductive Paths (num : Type) : Type :=
| SetOf (l : list (Track num))
| Single (t : Track num).
Arguments SetOf {num} l.
Arguments Single {num} t.

(** [if not isinstance(x, set): x = {x}] *)
Definition as_set {num} (p : Paths num) : list (Track num) :=
  match p with
  | SetOf l => l
  | Single t => [t]
  end.

(** An item of the [measurements] argument of [plot_measurements]: a
    detection or a set of detections (listed in its iteration order). *)
Inductive MeasItem (num : Type) : Type :=
| Det (d : State num)
| DetSet (l : list (State num)).
Arguments Det {num} d.
Arguments DetSet {num} l.

(** ** Artists, legend handles and the axes *)

Abbreviation Kwargs num := (gmap string (PyVal num)).

(** [matplotlib.patches.Ellipse]; [width] and [height] are the arguments of
    these names, the total lengths of the two axes. *)
Record Ellipse (num : Type) : Type := {
  xy : num * num;
  width : num;
  height : num;
  angle : num;
  alpha : num;
  color : PyVal num
}.
Arguments xy {num} _.
Arguments width {num} _.
Arguments height {num} _.
Arguments angle {num} _.
Arguments alpha {num} _.
Arguments color {num} _.

Inductive Handle (num : Type) : Type :=
| Line2D (kwargs : Kwargs num)            (* Line2D([], [], **kwargs) *)
| EllipseHandle (e : Ellipse num).
Arguments Line2D {num} kwargs.
Arguments EllipseHandle {num} e.

Inductive AxCall (num : Type) : Type :=
| ax_plot (xs ys : list num) (kwargs : Kwargs num)
| ax_scatter (x y : num) (kwargs : Kwargs num)
| ax_add_artist (e : Ellipse num)
| ax_legend (handles : list (Handle num)) (labels : list string)
            (ellipse_handler : bool).
Arguments ax_plot {num} xs ys kwargs.
Arguments ax_scatter {num} x y kwargs.
Arguments ax_add_artist {num} e.
Arguments ax_legend {num} handles labels ellipse_handler.

(** The [Plotter] object, with the calls made on [self.ax] (oldest first) and
    the warnings issued so far. *)
Record Plotter (num : Type) : Type := {
  ax : list (AxCall num);
  handles_list : list (Handle num);
  labels_list : list string;
  warnings : list string
}.
Arguments ax {num} _.
Arguments handles_list {num} _.
Arguments labels_list {num} _.
Arguments warnings {num} _.

(** [Plotter.__init__] *)
Definition Plotter_init {num} : Plotter num :=
  {| ax := []; handles_list := []; labels_list := []; warnings := [] |}.

(** ** Array helpers *)

Section Arrays.
Context {num : Type} `{!Numpy num}.

(** [v[i]]; out of range is Python's IndexError. *)
Definition index {A} (v : list A) (i : nat) : Result A :=
  match v !! i with
  | Some x => Ok x
  | None => Raise IndexError
  end.

(** [np.array(rows)] of equally long vectors; numpy has no rectangular array
    for ragged rows and the model raises ValueError for them. *)
Definition np_array (rows : list (Vector num)) : Result (list (Vector num)) :=
  match rows with
  | [] => Ok []
  | r :: rs =>
      if forallb (λ r', Nat.eqb (length r') (length r)) rs
      then Ok rows else Raise ValueError
  end.

(** [data[:, k]].  The array built from an empty list is one-dimensional,
    and indexing it with two indices is an IndexError. *)
Definition column (k : nat) (data : list (Vector num)) : Result (list num) :=
  match data with
  | [] => Raise IndexError
  | _ => comprehension (λ r, index r k) data
  end.

(** [data[:1, k]] *)
Definition first_of_column (k : nat) (data : list (Vector num)) : Result (list num) :=
  match data with
  | [] => Raise IndexError
  | _ => comprehension (λ r, index r k) (take 1 data)
  end.

(** [data.size], the number of scalars. *)
Definition np_size (data : list (Vector num)) : nat :=
  foldr (λ r n, (length r + n)%nat) 0%nat data.

Definition dot (u v : Vector num) : num :=
  foldr num_add (lit 0) (zip_with num_mul u v).

(** [A @ v] for a matrix and a column vector; mismatched shapes are a
    ValueError. *)
Definition matvec (A : Matrix num) (v : Vector num) : Result (Vector num) :=
  if forallb (λ r, Nat.eqb (length r) (length v)) A
  then Ok (map (λ r, dot r v) A) else Raise ValueError.

Definition ncols (B : Matrix num) : nat :=
  match B with [] => 0%nat | r :: _ => length r end.

Definition col_of (j : nat) (B : Matrix num) : Vector num :=
  omap (M:=list) (λ r : list num, r !! j) B.

(** [B.T] *)
Definition transpose (B : Matrix num) : Matrix num :=
  map (λ j, col_of j B) (seq 0 (ncols B)).

(** [A @ B] *)
Definition matmul (A B : Matrix num) : Result (Matrix num) :=
  if forallb (λ r, Nat.eqb (length r) (length B)) A
     && forallb (λ r, Nat.eqb (length r) (ncols B)) B
  then Ok (map (λ ra, map (λ j, dot ra (col_of j B)) (seq 0 (ncols B))) A)
  else Raise ValueError.

(** [np.eye(n)] *)
Definition np_eye (n : nat) : Matrix num :=
  map (λ i, map (λ j, if Nat.eqb i j then lit 1 else lit 0) (seq 0 n)) (seq 0 n).

(** [np.argmax] and [np.argmin]: the first index of an extremal entry. *)
Fixpoint argmax_from (best_i : nat) (best : num) (i : nat) (l : list num) : nat :=
  match l with
  | [] => best_i
  | x :: l' =>
      if num_ltb best x then argmax_from i x (S i) l'
      else argmax_from best_i best (S i) l'
  end.

Definition np_argmax (l : list num) : Result nat :=
  match l with
  | [] => Raise ValueError
  | x :: l' => Ok (argmax_from 0 x 1 l')
  end.

Fixpoint argmin_from (best_i : nat) (best : num) (i : nat) (l : list num) : nat :=
  match l with
  | [] => best_i
  | x :: l' =>
      if num_ltb x best then argmin_from i x (S i) l'
      else argmin_from best_i best (S i) l'
  end.

Definition np_argmin (l : list num) : Result nat :=
  match l with
  | [] => Raise ValueError
  | x :: l' => Ok (argmin_from 0 x 1 l')
  end.

(** [M[i, j]] *)
Definition index2 (A : Matrix num) (i j : nat) : Result num :=
  match A !! i with
  | Some r => index r j
  | None => Raise IndexError
  end.

(** Python's [min] and [max] of an iterable: the first extremal item,
    ValueError when the iterable is empty. *)
Definition py_min (l : list num) : Result num :=
  match l with
  | [] => Raise ValueError
  | x :: l' => Ok (foldl (λ best y, if num_ltb y best then y else best) x l')
  end.

Definition py_max (l : list num) : Result num :=
  match l with
  | [] => Raise ValueError
  | x :: l' => Ok (foldl (λ best y, if num_ltb best y then y else best) x l')
  end.
End Arrays.

(** ** class Plotter *)

Section PlotterMethods.
Context {num : Type} `{!Numpy num}.

Abbreviation St := (Plotter num).

(** A call on [self.ax]. *)
Definition ax_call (c : AxCall num) : M St unit :=
  modify (λ p, {| ax := ax p ++ [c]; handles_list := handles_list p;
                  labels_list := labels_list p; warnings := warnings p |}).

(** [self.handles_list.append(h)] *)
Definition handles_append (h : Handle num) : M St unit :=
  modify (λ p, {| ax := ax p; handles_list := handles_list p ++ [h];
                  labels_list := labels_list p; warnings := warnings p |}).

(** [self.labels_list.append(l)] *)
Definition labels_append (l : string) : M St unit :=
  modify (λ p, {| ax := ax p; handles_list := handles_list p;
                  labels_list := labels_list p ++ [l]; warnings := warnings p |}).

(** [warnings.warn(msg)] *)
Definition warn (msg : string) : M St unit :=
  modify (λ p, {| ax := ax p; handles_list := handles_list p;
                  labels_list := labels_list p; warnings := warnings p ++ [msg] |}).

(** [self.ax.legend(handles=self.handles_list, labels=self.labels_list)],
    with the ellipse [handler_map] when [ellipse_handler] is set. *)
Definition render_legend (ellipse_handler : bool) : M St unit :=
  hs <- gets handles_list ;;
  ls <- gets labels_list ;;
  ax_call (ax_legend hs ls ellipse_handler).

(** [d.update(kwargs)]: the caller's entries win. *)
Definition dict_update (d kwargs : Kwargs num) : Kwargs num := kwargs ∪ d.

(** [d[k]] for a key the defaults always provide. *)
Definition getitem (d : Kwargs num) (k : string) : PyVal num :=
  default VNone (d !! k).

(** [self.ax.plot([s.state_vector[mapping[0]] for s in path],
                  [s.state_vector[mapping[1]] for s in path], **kwargs)] *)
Definition plot_path (mapping : nat * nat) (kwargs : Kwargs num)
    (path : Track num) : M St unit :=
  xs <- lift (comprehension (λ s, index (state_vector s) mapping.1) (states path)) ;;
  ys <- lift (comprehension (λ s, index (state_vector s) mapping.2) (states path)) ;;
  ax_call (ax_plot xs ys kwargs).

Definition truths_defaults : Kwargs num := {[ "linestyle" := VStr "--" ]}.

Definition plot_ground_truths (truths : Paths num) (mapping : nat * nat)
    (kwargs : Kwargs num) : M St unit :=
  let truths_kwargs := dict_update truths_defaults kwargs in
  let truths := as_set truths in
  for_each (plot_path mapping truths_kwargs) truths ;;
  let truths_handle :=
    Line2D {[ "linestyle" := getitem truths_kwargs "linestyle";
              "color" := VStr "black" ]} in
  let truths_label := "Ground Truth" in
  handles_append truths_handle ;;
  labels_append truths_label ;;
  render_legend false.

(** *** plot_measurements *)

Definition is_set (i : MeasItem num) : bool :=
  match i with DetSet _ => true | Det _ => false end.

(** [chain.from_iterable(measurements)]: the detections it yields and the
    TypeError that ends the iteration at the first item that is not
    iterable. *)
Fixpoint chain_from_iterable (items : list (MeasItem num)) : list (State num) * option Exn :=
  match items with
  | [] => ([], None)
  | DetSet l :: items' =>
      let '(rest, e) := chain_from_iterable items' in (l ++ rest, e)
  | Det _ :: _ => ([], Some TypeError)
  end.

Definition dets_of (items : list (MeasItem num)) : list (State num) :=
  flat_map (λ i, match i with Det d => [d] | DetSet l => l end) items.

(** [measurements_set], as the sequence of states the loop sees and the
    exception that ends it, if any. *)
Definition measurements_set (measurements : list (MeasItem num))
    : list (State num) * option Exn :=
  if existsb is_set measurements
  then chain_from_iterable measurements
  else (dets_of measurements, None).

Definition measurement_defaults : Kwargs num :=
  {[ "marker" := VStr "o"; "color" := VStr "b" ]}.

Definition clutter_style : Kwargs num :=
  {[ "color" := VStr "y"; "marker" := VStr "2" ]}.

Definition clutter_legend : Handle num * string :=
  (Line2D {[ "linestyle" := VStr ""; "marker" := VStr "2"; "color" := VStr "y" ]},
   "Clutter").

(** Lines 132-146: the state-space vector of a measurement under the
    resolved model, or the warning with which the measurement is skipped. *)
Definition invert_measurement (meas_model : option (Model num)) (state : State num)
    : Result (Vector num + string) :=
  match meas_model with
  | Some m =>
      match model_kind m with
      | KLinear =>
          let model_matrix := matrix m in
          let inv_model_matrix := np_pinv model_matrix in
          state_vec ← matvec inv_model_matrix (state_vector state);
          Ok (inl state_vec)
      | KNonLinear =>
          match inverse_function m with
          | Inv f => Ok (inl (f (state_vector state)))
          | InvMissing | InvNotImplemented =>
              Ok (inr "Nonlinear measurement model used with no inverse function available")
          end
      | KOther => Ok (inr "Measurement model type not specified for all detections")
      end
  | None => Ok (inr "Measurement model type not specified for all detections")
  end.

(** [state.measurement_model] *)
Definition attached_model (state : State num) : Result (option (Model num)) :=
  getattr (measurement_model state).

(** [ax.scatter] of the two rows [state_vec[mapping]] with [kwargs] *)
Definition scatter_mapped (state_vec : Vector num) (mapping : nat * nat)
    (kwargs : Kwargs num) : M St unit :=
  x <- lift (index state_vec mapping.1) ;;
  y <- lift (index state_vec mapping.2) ;;
  ax_call (ax_scatter x y kwargs).

(** Lines 128-130: the model of the detection, or the one of the call
    when the detection has none. *)
Definition resolve_model (attached measurement_model : option (Model num))
    : option (Model num) :=
  match attached with
  | None => measurement_model
  | Some m => Some m
  end.

(** The body of the loop of [plot_measurements]; [clutter] is the pair of
    locals [clutter_handle], [clutter_label]. *)
Definition measurement_body (mapping : nat * nat)
    (measurement_model : option (Model num)) (measurement_kwargs : Kwargs num)
    (clutter : option (Handle num * string)) (state : State num)
    : M St (option (Handle num * string)) :=
  attached <- lift (attached_model state) ;;
  let meas_model := resolve_model attached measurement_model in
  r <- lift (invert_measurement meas_model state) ;;
  match r with
  | inr msg => warn msg ;; ret clutter
  | inl state_vec =>
      if isinstance_Clutter (cls state) then
        scatter_mapped state_vec mapping clutter_style ;;
        ret (match clutter with
             | None => Some clutter_legend
             | Some c => Some c
             end)
      else if isinstance_Detection (cls state) then
        scatter_mapped state_vec mapping measurement_kwargs ;;
        ret clutter
      else
        warn ("Unknown type " +:+ type_repr (cls state)) ;;
        ret clutter
  end.

Definition plot_measurements (measurements : list (MeasItem num)) (mapping : nat * nat)
    (measurement_model : option (Model num)) (kwargs : Kwargs num) : M St unit :=
  let measurement_kwargs := dict_update measurement_defaults kwargs in
  (* Line2D([], [], linestyle='', **measurement_kwargs) *)
  (if decide (is_Some (measurement_kwargs !! "linestyle"))
   then raise TypeError else ret tt) ;;
  let measurements_handle := Line2D (<[ "linestyle" := VStr "" ]> measurement_kwargs) in
  let measurements_label := "Measurements" in
  let '(measurements_set, stop) := measurements_set measurements in
  clutter <- for_fold (measurement_body mapping measurement_model measurement_kwargs)
               None measurements_set ;;
  match stop with Some e => raise e | None => ret tt end ;;
  handles_append measurements_handle ;;
  labels_append measurements_label ;;
  match clutter with
  | Some (clutter_handle, clutter_label) =>
      handles_append clutter_handle ;;
      labels_append clutter_label
  | None => ret tt
  end ;;
  render_legend false.

(** *** plot_tracks *)

Definition tracks_defaults : Kwargs num :=
  {[ "linestyle" := VStr "-"; "marker" := VStr "."; "color" := VNone ]}.

(** [np.eye(ndim)[mapping, :]] *)
Definition position_mapping (n : nat) (mapping : nat * nat) : Result (Matrix num) :=
  r0 ← index (np_eye n) mapping.1;
  r1 ← index (np_eye n) mapping.2;
  Ok [r0; r1].

(** [HH @ P @ HH.T] *)
Definition projected_covar (HH P : Matrix num) : Result (Matrix num) :=
  HP ← matmul HH P;
  matmul HP (transpose HH).

(** Lines 226-234: the ellipse of one state. *)
Definition uncertainty_ellipse (HH : Matrix num) (tracks_kwargs : Kwargs num)
    (state : State num) : Result (Ellipse num) :=
  P ← getattr (covar state);
  S ← projected_covar HH P;
  let '(w, v) := np_eig S in
  max_ind ← np_argmax w;
  min_ind ← np_argmin w;
  v1 ← index2 v 1 max_ind;
  v0 ← index2 v 0 max_ind;
  let orient := np_arctan2 v1 v0 in
  x ← index (state_vector state) 0;
  y ← index (state_vector state) 2;
  w_max ← index w max_ind;
  w_min ← index w min_ind;
  Ok {| xy := (x, y);
        width := num_mul (lit 2) (np_sqrt w_max);
        height := num_mul (lit 2) (np_sqrt w_min);
        angle := np_rad2deg orient;
        alpha := lit (2 # 10);
        color := getitem tracks_kwargs "color" |}.

Definition plot_ellipses (mapping : nat * nat) (tracks_kwargs : Kwargs num)
    (track : Track num) : M St unit :=
  HH <- lift (position_mapping (ndim track) mapping) ;;
  for_each (λ state,
      ellipse <- lift (uncertainty_ellipse HH tracks_kwargs state) ;;
      ax_call (ax_add_artist ellipse))
    (states track).

Definition particle_style : Kwargs num :=
  {[ "linestyle" := VStr ""; "marker" := VStr ".";
     "markersize" := VNum (lit 1); "alpha" := VNum (lit (5 # 10)) ]}.

(** Lines 252-254: the particle cloud of one state. *)
Definition plot_particles (state : State num) : M St unit :=
  ps <- lift (getattr (particles state)) ;;
  data <- lift (np_array (map particle_state_vector ps)) ;;
  xs <- lift (column 0 data) ;;
  ys <- lift (column 2 data) ;;
  ax_call (ax_plot xs ys particle_style).

Definition plot_tracks (tracks : Paths num) (mapping : nat * nat)
    (uncertainty particle : bool) (kwargs : Kwargs num) : M St unit :=
  let tracks_kwargs := dict_update tracks_defaults kwargs in
  let tracks := as_set tracks in
  for_each (plot_path mapping tracks_kwargs) tracks ;;
  let track_handle :=
    Line2D {[ "linestyle" := getitem tracks_kwargs "linestyle";
              "marker" := getitem tracks_kwargs "marker";
              "color" := VStr "black" ]} in
  let track_label := "Track" in
  handles_append track_handle ;;
  labels_append track_label ;;
  if uncertainty then
    for_each (plot_ellipses mapping tracks_kwargs) tracks ;;
    let ellipse_handle :=
      EllipseHandle {| xy := (lit (5 # 10), lit (5 # 10));
                       width := lit (5 # 10); height := lit (5 # 10);
                       angle := lit 0; alpha := lit (2 # 10);
                       color := getitem tracks_kwargs "color" |} in
    let ellipse_label := "Uncertainty" in
    handles_append ellipse_handle ;;
    labels_append ellipse_label ;;
    render_legend true
  else if particle then
    for_each (λ track, for_each plot_particles (states track)) tracks ;;
    let particle_handle :=
      Line2D {[ "linestyle" := VStr ""; "color" := VStr "black";
                "marker" := VStr "."; "markersize" := VNum (lit 1) ]} in
    let particle_label := "Particles" in
    handles_append particle_handle ;;
    labels_append particle_label ;;
    render_legend false
  else
    render_legend false.
End PlotterMethods.

(** ** class TimeBasedPlotter *)

(** A [TimeBasedPlotter] object after [__init__]; [plotting_data] is [None]
    for Python's [None]. *)
Record TimeBasedPlotter (num : Type) : Type := {
  plotting_data : option (list (State num));
  legend_key : string;
  plotting_keyword_arguments : Kwargs num
}.
Arguments plotting_data {num} _.
Arguments legend_key {num} _.
Arguments plotting_keyword_arguments {num} _.

(** A line of the animation figure, with the data [set_data] replaces. *)
Record Line (num : Type) : Type := {
  xdata : list num;
  ydata : list num;
  line_kwargs : Kwargs num
}.
Arguments xdata {num} _.
Arguments ydata {num} _.
Arguments line_kwargs {num} _.

(** The pyplot figure [run_animation] builds.  [fig_lines] holds the line
    objects that [the_lines] refers to. *)
Record Figure (num : Type) : Type := {
  fig_lines : list (Line num);
  fig_xlim : option (num * num);
  fig_ylim : option (num * num);
  fig_legend : option (list string)
}.
Arguments fig_lines {num} _.
Arguments fig_xlim {num} _.
Arguments fig_ylim {num} _.
Arguments fig_legend {num} _.

(** The [FuncAnimation] object [run_animation] returns. *)
Record Animation (num : Type) : Type := {
  frames : list Z;
  fargs : list (list (State num));
  interval : Z
}.
Arguments frames {num} _.
Arguments fargs {num} _.
Arguments interval {num} _.

Section TimeBasedPlotterMethods.
Context {num : Type} `{!Numpy num}.

(** [State(vector, timestamp=t)] *)
Definition State_init (vector : Vector num) (t : Z) : State num :=
  {| cls := ClsState; state_vector := vector; timestamp := t;
     measurement_model := None; covar := None; particles := None |}.

(** [State(a_detection.measurement_model.inverse_function(a_detection),
           timestamp=a_detection.timestamp)] *)
Definition invert_detection (a_detection : State num) : Result (State num) :=
  attached ← attached_model a_detection;
  match attached with
  | None => Raise AttributeError            (* None has no inverse_function *)
  | Some m =>
      match inverse_function m with
      | InvMissing => Raise AttributeError
      | InvNotImplemented => Raise NotImplementedError
      | Inv f => Ok (State_init (f (state_vector a_detection)) (timestamp a_detection))
      end
  end.

Definition prepare_data (data_source : list (State num))
    : Result (option (list (State num))) :=
  if forallb (λ list_item, isinstance_State (cls list_item)) data_source then
    if forallb (λ list_item, isinstance_Detection (cls list_item)) data_source then
      match comprehension invert_detection data_source with
      | Ok output => Ok (Some output)
      | Raise AttributeError => Ok None
      | Raise e => Raise e
      end
    else Ok (Some data_source)
  else Raise NotImplementedError.

(** [TimeBasedPlotter.__init__], with the keyword arguments already split
    by [get_plotting_keywords]. *)
Definition TimeBasedPlotter_init (data : list (State num)) (key : string)
    (plotting_keywords : Kwargs num) : Result (TimeBasedPlotter num) :=
  output ← prepare_data data;
  Ok {| plotting_data := output; legend_key := key;
        plotting_keyword_arguments := plotting_keywords |}.

(** *** update_animation *)

(** [lines[i]] *)
Definition get_line (i : nat) : M (list (Line num)) (Line num) :=
  λ lines, (lines, index lines i).

(** [line.set_data(xs, ys)] on the line object at position [i]. *)
Definition set_data (i : nat) (line : Line num) (xs ys : list num)
    : M (list (Line num)) unit :=
  modify (λ lines,
    <[ i := {| xdata := xs; ydata := ys; line_kwargs := line_kwargs line |} ]> lines).

(** [[s for s in data_source if s.timestamp <= t]] *)
Definition visible (t : Z) (data_source : list (State num)) : list (State num) :=
  filter (λ a_state, timestamp a_state ≤ t) data_source.

(** The body of the loop of [update_animation]. *)
Definition update_line (t : Z) (entry : nat * option (list (State num)))
    : M (list (Line num)) unit :=
  let '(i, data_source) := entry in
  match data_source with
  | None => ret tt
  | Some data_source =>
      the_data <- lift (np_array (map state_vector (visible t data_source))) ;;
      if Nat.ltb 0 (np_size the_data) then
        line <- get_line i ;;
        xs <- lift (column 0 the_data) ;;
        ys <- lift (column 2 the_data) ;;
        set_data i line xs ys
      else ret tt
  end.

(** [enumerate(l)] *)
Definition enumerate {A} (l : list A) : list (nat * A) :=
  zip (seq 0 (length l)) l.

(** The state is the list [lines], whose line objects are mutated in
    place; the function returns that list. *)
Definition update_animation (t : Z) (data_list : list (option (list (State num))))
    : M (list (Line num)) (list (Line num)) :=
  for_each (update_line t) (enumerate data_list) ;;
  gets id.

(** *** run_animation *)

(** [plt.plot(xs, ys, **kwargs)[0]], appended to [the_lines]. *)
Definition plt_plot (xs ys : list num) (kwargs : Kwargs num) : M (Figure num) unit :=
  modify (λ f,
    {| fig_lines := fig_lines f ++ [{| xdata := xs; ydata := ys; line_kwargs := kwargs |}];
       fig_xlim := fig_xlim f; fig_ylim := fig_ylim f; fig_legend := fig_legend f |}).

Definition plt_xlim (lo hi : num) : M (Figure num) unit :=
  modify (λ f, {| fig_lines := fig_lines f; fig_xlim := Some (lo, hi);
                  fig_ylim := fig_ylim f; fig_legend := fig_legend f |}).

Definition plt_ylim (lo hi : num) : M (Figure num) unit :=
  modify (λ f, {| fig_lines := fig_lines f; fig_xlim := fig_xlim f;
                  fig_ylim := Some (lo, hi); fig_legend := fig_legend f |}).

Definition plt_legend (keys : list string) : M (Figure num) unit :=
  modify (λ f, {| fig_lines := fig_lines f; fig_xlim := fig_xlim f;
                  fig_ylim := fig_ylim f; fig_legend := Some keys |}).

(** [plt.figure()] *)
Definition plt_figure : Figure num :=
  {| fig_lines := []; fig_xlim := None; fig_ylim := None; fig_legend := None |}.

(** The body of the first loop; [acc] is the pair of locals
    [plotting_data], [legends_key]. *)
Definition create_line (acc : list (list (State num)) * list string)
    (a_plot_object : TimeBasedPlotter num)
    : M (Figure num) (list (list (State num)) * list string) :=
  match plotting_data a_plot_object with
  | Some data_source =>
      the_data <- lift (np_array (map state_vector data_source)) ;;
      xs <- lift (first_of_column 0 the_data) ;;
      ys <- lift (first_of_column 2 the_data) ;;
      plt_plot xs ys (plotting_keyword_arguments a_plot_object) ;;
      ret (acc.1 ++ [data_source], acc.2 ++ [legend_key a_plot_object])
  | None => ret acc
  end.

(** [state.state_vector[k] for line in data for state in line.plotting_data],
    consumed to its end. *)
Fixpoint all_components (k : nat) (data : list (TimeBasedPlotter num))
    : Result (list num) :=
  match data with
  | [] => Ok []
  | line :: data' =>
      match plotting_data line with
      | None => Raise TypeError              (* None is not iterable *)
      | Some data_source =>
          xs ← comprehension (λ state, index (state_vector state) k) data_source;
          rest ← all_components k data';
          Ok (xs ++ rest)
      end
  end.

(** [min(...)] and [max(...)] of that generator. *)
Definition min_component (k : nat) (data : list (TimeBasedPlotter num)) : Result num :=
  xs ← all_components k data; py_min xs.
Definition max_component (k : nat) (data : list (TimeBasedPlotter num)) : Result num :=
  xs ← all_components k data; py_max xs.

(** Lines 376-380. *)
Definition axis_limits (data : list (TimeBasedPlotter num)) : M (Figure num) unit :=
  x_lo <- lift (min_component 0 data) ;;
  x_hi <- lift (max_component 0 data) ;;
  plt_xlim x_lo x_hi ;;
  y_lo <- lift (min_component 2 data) ;;
  y_hi <- lift (max_component 2 data) ;;
  plt_ylim y_lo y_hi.

Definition run_animation (times_to_plot : list Z) (data : list (TimeBasedPlotter num))
    : M (Figure num) (Animation num) :=
  acc <- for_fold create_line ([], []) data ;;
  let '(plotting_data, legends_key) := acc in
  axis_limits data ;;
  plt_legend legends_key ;;
  let interval_time := 50 in
  ret {| frames := times_to_plot; fargs := plotting_data; interval := interval_time |}.

(** The frames the animation plays once it is shown. *)
Definition play (line_ani : Animation num) : M (list (Line num)) unit :=
  for_each (λ t, update_animation t (Some <$> fargs line_ani) ;; ret tt)
           (frames line_ani).
End TimeBasedPlotterMethods.

(** ** The remaining methods *)

(** The names of the properties the class declares (lines 316-318), the
    keys of [self._properties]. *)
Definition TimeBasedPlotter_properties : gset string :=
  {[ "plotting_data"; "legend_key"; "plotting_keyword_arguments" ]}.

(** One iteration of the loop of [get_plotting_keywords]; [acc] is the pair
    [class_keywords], [plotting_keywords]. *)
Definition split_keyword {V} (properties : gset string) (key : string) (value : V)
    (acc : gmap string V * gmap string V) : gmap string V * gmap string V :=
  if decide (key ∈ properties)
  then (<[ key := value ]> acc.1, acc.2)
  else (acc.1, <[ key := value ]> acc.2).

(** [get_plotting_keywords(kwargs)], for the property names [properties]:
    the pair [class_keywords], [plotting_keywords]. *)
Definition get_plotting_keywords {V} (properties : gset string) (kwargs : gmap string V)
    : gmap string V * gmap string V :=
  map_fold (split_keyword properties) (∅, ∅) kwargs.

(** The legend glyph [Ellipse((0.5, 0.5), 0.5, 0.5, color=color, **kwargs)]
    of [ellipse_legend]. *)
Record EllipseGlyph (num : Type) : Type := {
  glyph_color : PyVal num;
  glyph_kwargs : Kwargs num
}.
Arguments glyph_color {num} _.
Arguments glyph_kwargs {num} _.

Section EllipseLegend.
Context {num : Type} `{!Numpy num}.

Definition ellipse_defaults : Kwargs num := {[ "alpha" := VNum (lit (2 # 10)) ]}.

(** [Ellipse((0.5, 0.5), 0.5, 0.5, color=color, **ellipse_kwargs)]: a
    [color] among the keyword arguments is a second value for the
    argument, a TypeError. *)
Definition legend_glyph (ellipse_kwargs : Kwargs num) (color : PyVal num)
    : Result (EllipseGlyph num) :=
  if decide (is_Some (ellipse_kwargs !! "color")) then Raise TypeError
  else Ok {| glyph_color := color; glyph_kwargs := ellipse_kwargs |}.

(** [ellipse_legend(ax, label_list, color_list, **kwargs)].  [handles] and
    [labels] are what [ax.get_legend_handles_labels()] returns, of any
    artist type; the result is the pair of lists handed to the legend
    box, where the entries of the axes are on the left of the sum and the
    new glyphs on the right. *)
Definition ellipse_legend {Artist} (handles : list Artist) (labels : list string)
    (label_list : list string) (color_list : list (PyVal num)) (kwargs : Kwargs num)
    : Result (list (Artist + EllipseGlyph num) * list string) :=
  let ellipse_kwargs := dict_update ellipse_defaults kwargs in
  glyphs ← comprehension (legend_glyph ellipse_kwargs) color_list;
  Ok ((inl <$> handles) ++ (inr <$> glyphs), labels ++ label_list).
End EllipseLegend.

(** ** A rational instance of the numeric interface

    Rationals stand in for floats to run the model on examples.  The
    black-box entries are exact on the inputs the examples use: square roots
    of perfect squares, angles of axis-aligned vectors (with 22/7 for pi),
    eigen-decompositions of diagonal matrices, pseudo-inverses of matrices
    with orthonormal rows. *)

Definition Q_ltb (x y : Q) : bool := negb (Qle_bool y x).

Definition Q_sqrt (x : Q) : Q := inject_Z (Z.sqrt (Qfloor x)).

Definition Q_arctan2 (y x : Q) : Q :=
  if Qeq_bool y 0 then (if Q_ltb x 0 then 22 # 7 else 0)
  else if Q_ltb 0 y then 11 # 7 else Qopp (11 # 7).

Definition Q_rad2deg (r : Q) : Q := Qred (r * (1260 # 22)).

Definition Q_diag (A : Matrix Q) : Vector Q :=
  imap (λ i r, default 0%Q (r !! i)) A.

Definition Q_identity (n : nat) : Matrix Q :=
  map (λ i, map (λ j, if Nat.eqb i j then 1%Q else 0%Q) (seq 0 n)) (seq 0 n).

#[export] Instance Q_numpy : Numpy Q := {|
  lit := id;
  num_add := Qplus;
  num_mul := Qmult;
  num_ltb := Q_ltb;
  np_sqrt := Q_sqrt;
  np_arctan2 := Q_arctan2;
  np_rad2deg := Q_rad2deg;
  np_pinv := transpose;
  np_eig := λ A, (Q_diag A, Q_identity (length A))
|}.

(** ** Sequences of plotting calls *)

(** A call of one of the three plotting methods, with its arguments. *)
Inductive PlotCall (num : Type) : Type :=
| call_ground_truths (truths : Paths num) (mapping : nat * nat) (kwargs : Kwargs num)
| call_measurements (measurements : list (MeasItem num)) (mapping : nat * nat)
    (measurement_model : option (Model num)) (kwargs : Kwargs num)
| call_tracks (tracks : Paths num) (mapping : nat * nat) (uncertainty particle : bool)
    (kwargs : Kwargs num).
Arguments call_ground_truths {num} truths mapping kwargs.
Arguments call_measurements {num} measurements mapping measurement_model kwargs.
Arguments call_tracks {num} tracks mapping uncertainty particle kwargs.

Definition run_call {num} `{!Numpy num} (c : PlotCall num) : M (Plotter num) unit :=
  match c with
  | call_ground_truths truths mapping kwargs =>
      plot_ground_truths truths mapping kwargs
  | call_measurements measurements mapping measurement_model kwargs =>
      plot_measurements measurements mapping measurement_model kwargs
  | call_tracks tracks mapping uncertainty particle kwargs =>
      plot_tracks tracks mapping uncertainty particle kwargs
  end.

(** A script that makes the calls one after the other. *)
Definition run_calls {num} `{!Numpy num} (cs : list (PlotCall num))
    : M (Plotter num) unit :=
  for_each run_call cs.

(** ** Relations used to state the properties *)

(** A relation between the state before and after that every step of a
    computation maintains, whether or not the step raises. *)
Definition preserves {S A} (R : relation S) (m : M S A) : Prop :=
  ∀ s, R s (m s).1.

(** The legend lists of [p'] extend those of [p]. *)
Definition legend_extends {num} (p p' : Plotter num) : Prop :=
  handles_list p `prefix_of` handles_list p' ∧
  labels_list p `prefix_of` labels_list p'.

(** Both legend lists are as they were. *)
Definition legend_kept {num} (p p' : Plotter num) : Prop :=
  handles_list p' = handles_list p ∧ labels_list p' = labels_list p.

(** [p] after further calls on the axes and further warnings. *)
Definition extend_plot {num} (p : Plotter num) (calls : list (AxCall num))
    (msgs : list string) : Plotter num :=
  {| ax := ax p ++ calls; handles_list := handles_list p;
     labels_list := labels_list p; warnings := warnings p ++ msgs |}.

(** The calls made on the axes of [p'] since it was [p]. *)
Definition new_calls {num} (p p' : Plotter num) : list (AxCall num) :=
  drop (length (ax p)) (ax p').

(** The ellipses among a list of calls, in order. *)
Definition ellipses_of {num} (calls : list (AxCall num)) : list (Ellipse num) :=
  omap (λ c, match c with ax_add_artist e => Some e | _ => None end) calls.

(** The line plots among a list of calls, in order. *)
Definition line_plots_of {num} (calls : list (AxCall num))
    : list (list num * list num * Kwargs num) :=
  omap (λ c, match c with ax_plot xs ys kw => Some (xs, ys, kw) | _ => None end) calls.

(** Every state of every track, with its track, in iteration order. *)
Definition track_states {num} (tracks : list (Track num)) : list (Track num * State num) :=
  flat_map (λ t, map (pair t) (states t)) tracks.

(** The order laws of [<] on scalars that are not NaN. *)
Class NumpyOrder (num : Type) `{!Numpy num} : Prop := {
  num_ltb_asym : ∀ x y : num, num_ltb x y = true → num_ltb y x = false;
  num_ltb_negtrans : ∀ x y z : num,
    num_ltb x y = false → num_ltb y z = false → num_ltb x z = false
}.

(** [e] is the uncertainty ellipse of [state] of [track]: its axes are the
    eigenvalues of the covariance projected through [mapping], the larger
    one for the width, and its angle is that of the eigenvector of the
    larger one. *)
Definition ellipse_matches {num} `{!Numpy num} (mapping : nat * nat)
    (track : Track num) (state : State num) (e : Ellipse num) : Prop :=
  ∃ HH P S w v max_ind min_ind w_max w_min v0 v1,
    position_mapping (ndim track) mapping = Ok HH ∧
    covar state = Some P ∧
    projected_covar HH P = Ok S ∧
    np_eig S = (w, v) ∧
    w !! max_ind = Some w_max ∧ (∀ x, x ∈ w → num_ltb w_max x = false) ∧
    w !! min_ind = Some w_min ∧ (∀ x, x ∈ w → num_ltb x w_min = false) ∧
    index2 v 0 max_ind = Ok v0 ∧ index2 v 1 max_ind = Ok v1 ∧
    angle e = np_rad2deg (np_arctan2 v1 v0) ∧
    width e = num_mul (lit 2) (np_sqrt w_max) ∧
    height e = num_mul (lit 2) (np_sqrt w_min).

(** The state-space vector of a measurement that [plot_measurements] draws,
    tagged with whether it is drawn as clutter; [None] for a measurement that
    is skipped or on which the call raises. *)
Definition drawn {num} `{!Numpy num} (measurement_model : option (Model num))
    (state : State num) : option (bool * Vector num) :=
  match attached_model state with
  | Ok attached =>
      match invert_measurement (resolve_model attached measurement_model) state with
      | Ok (inl state_vec) =>
          if isinstance_Detection (cls state)
          then Some (isinstance_Clutter (cls state), state_vec)
          else None
      | _ => None
      end
  | Raise _ => None
  end.

(** [c] is the scatter call of the point [(clutter, v)] of [drawn]. *)
Definition scatter_of {num} (mapping : nat * nat) (clutter_kw detection_kw : Kwargs num)
    (pt : bool * Vector num) (c : AxCall num) : Prop :=
  ∃ x y, pt.2 !! mapping.1 = Some x ∧ pt.2 !! mapping.2 = Some y ∧
         c = ax_scatter x y (if pt.1 then clutter_kw else detection_kw).

(** [c] is the line drawn through the mapped coordinates of [path]. *)
Definition line_of {num} (mapping : nat * nat) (kw : Kwargs num)
    (path : Track num) (c : AxCall num) : Prop :=
  ∃ xs ys, c = ax_plot xs ys kw ∧
    Forall2 (λ st x, state_vector st !! mapping.1 = Some x) (states path) xs ∧
    Forall2 (λ st y, state_vector st !! mapping.2 = Some y) (states path) ys.

(** [e] is the ellipse that [plot_tracks] computes for a state of a track. *)
Definition ellipse_drawn {num} `{!Numpy num} (mapping : nat * nat) (kw : Kwargs num)
    (ts : Track num * State num) (e : Ellipse num) : Prop :=
  ∃ HH, position_mapping (ndim ts.1) mapping = Ok HH ∧
        uncertainty_ellipse HH kw ts.2 = Ok e.

(** [c] is the particle cloud that [plot_tracks] draws for a state. *)
Definition cloud_of {num} `{!Numpy num} (ts : Track num * State num)
    (c : AxCall num) : Prop :=
  ∃ ps xs ys,
    particles ts.2 = Some ps ∧
    column 0 (particle_state_vector <$> ps) = Ok xs ∧
    column 2 (particle_state_vector <$> ps) = Ok ys ∧
    c = ax_plot xs ys particle_style.

(** At least one clutter point is drawn for the measurements [sts]. *)
Definition clutter_plotted {num} `{!Numpy num} (measurement_model : option (Model num))
    (sts : list (State num)) : bool :=
  existsb fst (omap (drawn measurement_model) sts).

(** [c] is the scatter call of the measurement [st]: at the mapped rows of
    its state-space vector, in the clutter style for clutter and in the
    detection style otherwise. *)
Definition point_of {num} `{!Numpy num} (mapping : nat * nat)
    (measurement_model : option (Model num)) (clutter_kw detection_kw : Kwargs num)
    (st : State num) (c : AxCall num) : Prop :=
  ∃ v x y,
    drawn measurement_model st = Some (isinstance_Clutter (cls st), v) ∧
    v !! mapping.1 = Some x ∧ v !! mapping.2 = Some y ∧
    c = ax_scatter x y
          (if isinstance_Clutter (cls st) then clutter_kw else detection_kw).

(** The ellipse [e] is centred at components 0 and 2 of the state vector. *)
Definition centred_at_0_2 {num} (st : State num) (e : Ellipse num) : Prop :=
  state_vector st !! 0%nat = Some (xy e).1 ∧ state_vector st !! 2%nat = Some (xy e).2.

(** The call [c] plots components 0 and 2 of the particles of [st]. *)
Definition cloud_at_0_2 {num} (st : State num) (c : AxCall num) : Prop :=
  ∃ ps xs ys kw,
    particles st = Some ps ∧ c = ax_plot xs ys kw ∧
    Forall2 (λ pt x, particle_state_vector pt !! 0%nat = Some x) ps xs ∧
    Forall2 (λ pt y, particle_state_vector pt !! 2%nat = Some y) ps ys.

(** What one iteration of the loop of [update_animation] does to [lines]. *)
Definition line_step {num} `{!Numpy num} (t : Z) (i : nat)
    (entry : option (list (State num))) (lines lines1 : list (Line num)) : Prop :=
  match entry with
  | None => lines1 = lines
  | Some data_source =>
      let the_data := state_vector <$> visible t data_source in
      if Nat.ltb 0 (np_size the_data) then
        ∃ line xs ys,
          lines !! i = Some line ∧
          column 0 the_data = Ok xs ∧ column 2 the_data = Ok ys ∧
          lines1 = <[ i := {| xdata := xs; ydata := ys;
                              line_kwargs := line_kwargs line |} ]> lines
      else lines1 = lines
  end.

(** What the whole loop does to the line at the position of an entry. *)
Definition line_result {num} `{!Numpy num} (t : Z) (entry : option (list (State num)))
    (old new : option (Line num)) : Prop :=
  match entry with
  | None => new = old
  | Some data_source =>
      let the_data := state_vector <$> visible t data_source in
      if Nat.ltb 0 (np_size the_data) then
        ∃ line xs ys,
          old = Some line ∧
          column 0 the_data = Ok xs ∧ column 2 the_data = Ok ys ∧
          new = Some {| xdata := xs; ydata := ys; line_kwargs := line_kwargs line |}
      else new = old
  end.

(** The axis limits of [f'] are those of [f]. *)
Definition limits_kept {num} (f f' : Figure num) : Prop :=
  fig_xlim f' = fig_xlim f ∧ fig_ylim f' = fig_ylim f.

(** ** Predicates of the further properties *)

(** Every state of [path] has the two components that [mapping] selects. *)
Definition path_mapped {num} (mapping : nat * nat) (path : Track num) : Prop :=
  Forall (λ st, is_Some (state_vector st !! mapping.1) ∧
                is_Some (state_vector st !! mapping.2)) (states path).

Definition is_legend {num} (c : AxCall num) : bool :=
  match c with ax_legend _ _ _ => true | _ => false end.

(** From [p] to [p'] artists were drawn and nothing else happened: no
    legend was rendered, no warning issued, the legend lists are as they
    were. *)
Definition draws_only {num} (p p' : Plotter num) : Prop :=
  ∃ calls, p' = extend_plot p calls [] ∧ Forall (λ c, is_legend c = false) calls.

(** The difference between the numbers of legend handles and legend labels
    is the same in [p'] as in [p]. *)
Definition legend_aligned {num} (p p' : Plotter num) : Prop :=
  (Z.of_nat (length (handles_list p')) - Z.of_nat (length (labels_list p')) =
   Z.of_nat (length (handles_list p)) - Z.of_nat (length (labels_list p)))%Z.

(** The detections of the items of [measurements], sets flattened. *)
Definition has_own_model {num} (st : State num) : Prop :=
  ∃ m, measurement_model st = Some (Some m).

(** A series [run_animation] can draw: stored data with at least one state,
    whose state vectors have one length, with a component 2. *)
Definition animatable {num} (o : TimeBasedPlotter num) : Prop :=
  ∃ st rest,
    plotting_data o = Some (st :: rest) ∧
    (2 < length (state_vector st))%nat ∧
    Forall (λ s, length (state_vector s) = length (state_vector st)) rest.

(** The line [run_animation] creates for a series: the first state only,
    with the plotting keywords of the series. *)
Definition initial_line {num} (o : TimeBasedPlotter num) (line : Line num) : Prop :=
  ∃ st rest x y,
    plotting_data o = Some (st :: rest) ∧
    state_vector st !! 0%nat = Some x ∧ state_vector st !! 2%nat = Some y ∧
    line = {| xdata := [x]; ydata := [y];
              line_kwargs := plotting_keyword_arguments o |}.

(** The states of all the series. *)
Definition all_states {num} (data : list (TimeBasedPlotter num)) : list (State num) :=
  concat (omap plotting_data data).

(** [lo] and [hi] are the least and the largest component [k] of [sts]. *)
Definition component_range {num} `{!Numpy num} (k : nat) (sts : list (State num))
    (lo hi : num) : Prop :=
  (∃ st, st ∈ sts ∧ state_vector st !! k = Some lo) ∧
  (∃ st, st ∈ sts ∧ state_vector st !! k = Some hi) ∧
  ∀ st x, st ∈ sts → state_vector st !! k = Some x →
          num_ltb x lo = false ∧ num_ltb hi x = false.

(** The condition under which a frame at time [t] goes through for the
    series [entry] whose line is [old] ([None] when the list of lines is too
    short): the state vectors of the states to show have one length, and
    where there is something to show the line exists and the vectors have a
    component 2. *)
Definition frame_ready {num} `{!Numpy num} (t : Z) (entry : option (list (State num)))
    (old : option (Line num)) : Prop :=
  match entry with
  | None => True
  | Some data_source =>
      match visible t data_source with
      | [] => True
      | st :: rest =>
          Forall (λ s, length (state_vector s) = length (state_vector st)) rest ∧
          ((0 < length (state_vector st))%nat →
           is_Some old ∧ (2 < length (state_vector st))%nat)
      end
  end.

(** The line of series [o] in the frame at time [t]: components 0 and 2 of
    the states up to [t], and of the first state alone when there is none
    yet. *)
Definition frame_line {num} `{!Numpy num} (t : Z) (o : TimeBasedPlotter num)
    (line : Line num) : Prop :=
  ∃ st rest,
    plotting_data o = Some (st :: rest) ∧
    let shown := match visible t (st :: rest) with [] => [st] | v => v end in
    Forall2 (λ s x, state_vector s !! 0%nat = Some x) shown (xdata line) ∧
    Forall2 (λ s y, state_vector s !! 2%nat = Some y) shown (ydata line) ∧
    line_kwargs line = plotting_keyword_arguments o.

(** The states the line of a series shows after the frames at the times
    [shown], in the order they were shown: the states up to the time of the
    last frame that had any to show, and the first state alone when no
    frame had. *)
Definition shown_states {num} `{!Numpy num} (shown : list Z) (st : State num)
    (rest : list (State num)) : list (State num) :=
  foldl (λ cur t, match visible t (st :: rest) with [] => cur | v => v end)
        [st] shown.

(** The line of series [o] after the frames at the times [shown]. *)
Definition played_line {num} `{!Numpy num} (shown : list Z) (o : TimeBasedPlotter num)
    (line : Line num) : Prop :=
  ∃ st rest,
    plotting_data o = Some (st :: rest) ∧
    Forall2 (λ s x, state_vector s !! 0%nat = Some x)
            (shown_states shown st rest) (xdata line) ∧
    Forall2 (λ s y, state_vector s !! 2%nat = Some y)
            (shown_states shown st rest) (ydata line) ∧
    line_kwargs line = plotting_keyword_arguments o.

(** ** Example data over the rational instance *)

Module Demo.
Definition covar4 : Matrix Q :=
  [[4; 0; 0; 0]; [0; 1; 0; 0]; [0; 0; 9; 0]; [0; 0; 0; 1]]%Q.

(** A Gaussian state. *)
Definition gaussian (v : Vector Q) (t : Z) : State Q :=
  {| cls := ClsState; state_vector := v; timestamp := t;
     measurement_model := None; covar := Some covar4; particles := None |}.

Definition track : Track Q :=
  {| states := [gaussian [1; 2; 3; 4]%Q 0; gaussian [5; 6; 7; 8]%Q 1]; ndim := 4 |}.

Definition mapping : nat * nat := (0%nat, 2%nat).

(** A particle state. *)
Definition cloud (v : Vector Q) (t : Z) : State Q :=
  {| cls := ClsState; state_vector := v; timestamp := t;
     measurement_model := None; covar := None;
     particles := Some [ {| particle_state_vector := [1; 2; 3; 4]%Q |};
                         {| particle_state_vector := [5; 6; 7; 8]%Q |} ] |}.

Definition particle_track : Track Q :=
  {| states := [cloud [3; 4; 5; 6]%Q 0]; ndim := 4 |}.

(** The measurement model that observes components 0 and 2. *)
Definition position_model : Model Q :=
  {| model_kind := KLinear;
     matrix := [[1; 0; 0; 0]; [0; 0; 1; 0]]%Q;
     inverse_function := InvMissing |}.

(** A bearing-only model: nonlinear, without [inverse_function]. *)
Definition bearing_model : Model Q :=
  {| model_kind := KNonLinear; matrix := []; inverse_function := InvMissing |}.

(** A nonlinear model whose [inverse_function] raises
    NotImplementedError. *)
Definition abstract_model : Model Q :=
  {| model_kind := KNonLinear; matrix := []; inverse_function := InvNotImplemented |}.

(** A reversible nonlinear model. *)
Definition reversible_model : Model Q :=
  {| model_kind := KNonLinear; matrix := [];
     inverse_function := Inv (λ v, match v with
                                   | [a; b] => [a; 0; b; 0]
                                   | _ => v
                                   end)%Q |}.

Definition detection (c : PyClass) (m : option (Model Q)) (v : Vector Q) (t : Z)
    : State Q :=
  {| cls := c; state_vector := v; timestamp := t;
     measurement_model := Some m; covar := None; particles := None |}.

Definition measurements : list (MeasItem Q) :=
  [ Det (detection ClsDetection (Some position_model) [1; 2]%Q 0);
    Det (detection ClsClutter None [3; 4]%Q 0);
    Det (detection ClsDetection (Some bearing_model) [5]%Q 1);
    Det (detection ClsClutter (Some reversible_model) [6; 7]%Q 1) ].

Definition no_kwargs : Kwargs Q := ∅.

Definition overrides : Kwargs Q :=
  {[ "color" := VStr "r"; "marker" := VStr "x" ]}.

(** Data series for the animation. *)
Definition series : TimeBasedPlotter Q :=
  {| plotting_data := Some [gaussian [1; 2; 3; 4]%Q 0; gaussian [5; 6; 7; 8]%Q 1;
                            gaussian [9; 8; 7; 6]%Q 2];
     legend_key := "track"; plotting_keyword_arguments := no_kwargs |}.

Definition empty_series : TimeBasedPlotter Q :=
  {| plotting_data := Some []; legend_key := "empty";
     plotting_keyword_arguments := no_kwargs |}.

Definition null_series : TimeBasedPlotter Q :=
  {| plotting_data := None; legend_key := "measurements";
     plotting_keyword_arguments := no_kwargs |}.

Definition line0 : Line Q :=
  {| xdata := [1]%Q; ydata := [3]%Q; line_kwargs := no_kwargs |}.


(** A list that mixes a set of detections and a bare detection. *)
Definition mixed_measurements : list (MeasItem Q) :=
  [ DetSet [detection ClsDetection (Some position_model) [1; 2]%Q 0];
    Det (detection ClsClutter (Some position_model) [3; 4]%Q 0) ].

Definition modelled_measurements : list (MeasItem Q) :=
  [ DetSet [detection ClsDetection (Some position_model) [1; 2]%Q 0;
            detection ClsClutter (Some reversible_model) [6; 7]%Q 1];
    DetSet [detection ClsDetection (Some bearing_model) [5]%Q 1] ].

(** The plotter after a first [plot_tracks] call with uncertainty. *)
Definition plotter1 : Plotter Q :=
  (plot_tracks (SetOf [track; track]) mapping true false no_kwargs Plotter_init).1.
End Demo.

(** * Properties *)

(** ** Reasoning about monadic code *)

Section MonadFacts.
Context {S : Type}.

Lemma bind_ok {A B} (m : M S A) (k : A → M S B) s s2 b :
  bind m k s = (s2, Ok b) →
  ∃ a s1, m s = (s1, Ok a) ∧ k a s1 = (s2, Ok b).
Proof.
  unfold bind. destruct (m s) as [s1 [a|e]]; intros H; [eauto | discriminate].
Qed.

Lemma bind_raise {A B} (m : M S A) (k : A → M S B) s s1 e :
  m s = (s1, Raise e) → bind m k s = (s1, Raise e).
Proof. unfold bind. by intros ->. Qed.

Lemma bind_step {A B} (m : M S A) (k : A → M S B) s s1 a :
  m s = (s1, Ok a) → bind m k s = k a s1.
Proof. unfold bind. by intros ->. Qed.

Lemma lift_ok {A} (r : Result A) (s s1 : S) a :
  lift r s = (s1, Ok a) → r = Ok a ∧ s1 = s.
Proof. unfold lift. by intros [= -> ->]. Qed.


Section Preserves.
Context (R : relation S) `{!PreOrder R}.

Lemma preserves_ret {A} (a : A) : preserves R (ret a).
Proof. intros s. reflexivity. Qed.

Lemma preserves_raise {A} e : preserves R (raise (A:=A) e).
Proof. intros s. reflexivity. Qed.

Lemma preserves_lift {A} (r : Result A) : preserves R (lift r).
Proof. intros s. reflexivity. Qed.

Lemma preserves_gets {A} (f : S → A) : preserves R (gets f).
Proof. intros s. reflexivity. Qed.

Lemma preserves_modify (f : S → S) : (∀ s, R s (f s)) → preserves R (modify f).
Proof. intros H s. apply H. Qed.

Lemma preserves_bind {A B} (m : M S A) (k : A → M S B) :
  preserves R m → (∀ a, preserves R (k a)) → preserves R (bind m k).
Proof.
  intros Hm Hk s. unfold bind. specialize (Hm s).
  destruct (m s) as [s1 [a|e]]; simpl in *; [|done].
  etrans; [exact Hm | apply Hk].
Qed.

Lemma preserves_for_each {A} (body : A → M S unit) l :
  (∀ x, preserves R (body x)) → preserves R (for_each body l).
Proof.
  intros Hb. induction l as [|x l IH]; simpl.
  - apply preserves_ret.
  - apply preserves_bind; auto.
Qed.

Lemma preserves_for_fold {A B} (body : B → A → M S B) l b :
  (∀ b x, preserves R (body b x)) → preserves R (for_fold body b l).
Proof.
  intros Hb. revert b. induction l as [|x l IH]; intros b; simpl.
  - apply preserves_ret.
  - apply preserves_bind; auto.
Qed.
End Preserves.
End MonadFacts.

Ltac preserves_step :=
  lazymatch goal with
  | |- preserves _ (bind _ _) => (apply preserves_bind; try tc_solve); [ | intros ?]
  | |- preserves _ (for_each _ _) => (apply preserves_for_each; try tc_solve); intros ?
  | |- preserves _ (for_fold _ _ _) => (apply preserves_for_fold; try tc_solve); intros ? ?
  | |- preserves _ (ret _) => apply preserves_ret; try tc_solve
  | |- preserves _ (raise _) => apply preserves_raise; try tc_solve
  | |- preserves _ (lift _) => apply preserves_lift; try tc_solve
  | |- preserves _ (gets _) => apply preserves_gets; try tc_solve
  | |- preserves _ (match ?x with _ => _ end) => destruct x
  end.

(** Inverts the successful runs among the hypotheses into their steps. *)
Ltac run_inv :=
  repeat match goal with
  | H : bind _ _ _ = (_, Ok _) |- _ =>
      let H1 := fresh "Hstep" in
      apply bind_ok in H as (? & ? & H1 & H)
  | H : lift _ _ = (_, Ok _) |- _ => apply lift_ok in H as [H ->]
  | H : ret _ _ = (_, _) |- _ => unfold ret in H; simplify_eq
  | H : raise _ _ = (_, _) |- _ => unfold raise in H; simplify_eq
  | H : gets _ _ = (_, _) |- _ => unfold gets in H; simplify_eq
  | H : modify _ _ = (_, _) |- _ => unfold modify in H; simplify_eq
  | H : ax_call _ _ = (_, _) |- _ => unfold ax_call in H
  | H : warn _ _ = (_, _) |- _ => unfold warn in H
  | H : handles_append _ _ = (_, _) |- _ => unfold handles_append in H
  | H : labels_append _ _ = (_, _) |- _ => unfold labels_append in H
  | H : render_legend _ _ = (_, _) |- _ => unfold render_legend in H
  | u : unit |- _ => destruct u
  end.

(** ** The legend registry (C9) *)

Section Legend.
Context {num : Type} `{!Numpy num}.

Local Abbreviation kept := (legend_kept (num:=num)).
Local Abbreviation extends := (legend_extends (num:=num)).

#[export] Instance legend_extends_preorder : PreOrder (legend_extends (num:=num)).
Proof.
  split.
  - intros p. split; reflexivity.
  - intros p1 p2 p3 [? ?] [? ?]. split; etrans; eauto.
Qed.

#[export] Instance legend_kept_preorder : PreOrder (legend_kept (num:=num)).
Proof.
  split.
  - intros p. by split.
  - intros p1 p2 p3 [? ?] [? ?]. split; congruence.
Qed.


Lemma ax_call_kept c : preserves kept (ax_call c).
Proof. intros p. by split. Qed.

Lemma warn_kept msg : preserves kept (warn msg).
Proof. intros p. by split. Qed.




Lemma plot_path_kept mapping kw path : preserves kept (plot_path mapping kw path).
Proof. unfold plot_path. repeat preserves_step. apply ax_call_kept. Qed.

Lemma scatter_mapped_kept v mapping kw : preserves kept (scatter_mapped v mapping kw).
Proof. unfold scatter_mapped. repeat preserves_step. apply ax_call_kept. Qed.

Lemma measurement_body_kept mapping model kw c state :
  preserves kept (measurement_body mapping model kw c state).
Proof.
  unfold measurement_body.
  repeat (preserves_step || apply warn_kept || apply scatter_mapped_kept).
Qed.

Lemma plot_ellipses_kept mapping kw track : preserves kept (plot_ellipses mapping kw track).
Proof. unfold plot_ellipses. repeat (preserves_step || apply ax_call_kept). Qed.

Lemma plot_particles_kept state : preserves kept (plot_particles state).
Proof. unfold plot_particles. repeat (preserves_step || apply ax_call_kept). Qed.

Lemma render_legend_kept b : preserves kept (render_legend b).
Proof. unfold render_legend. repeat (preserves_step || apply ax_call_kept). Qed.





End Legend.

(** ** What the loops of the plotting methods draw *)

Section Drawing.
Context {num : Type} `{!Numpy num}.
Implicit Types (p s : Plotter num) (kw : Kwargs num).

Lemma index_ok {A} (v : list A) i x : index v i = Ok x → v !! i = Some x.
Proof. unfold index. by case_match; intros [= <-]. Qed.

Lemma extend_plot_nil p : extend_plot p [] [] = p.
Proof. destruct p. unfold extend_plot. simpl. by rewrite !app_nil_r. Qed.

Lemma extend_plot_extend p cs ws cs' ws' :
  extend_plot (extend_plot p cs ws) cs' ws' = extend_plot p (cs ++ cs') (ws ++ ws').
Proof. unfold extend_plot. simpl. by rewrite !app_assoc. Qed.

Lemma new_calls_extend p cs ws : new_calls p (extend_plot p cs ws) = cs.
Proof. unfold new_calls. simpl. by rewrite drop_app_length. Qed.

(** A loop whose body draws one artist per item. *)
Lemma for_each_emits1 {A} (R : A → AxCall num → Prop)
    (body : A → M (Plotter num) unit) l p p' :
  (∀ x s s', body x s = (s', Ok tt) → ∃ c, s' = extend_plot s [c] [] ∧ R x c) →
  for_each body l p = (p', Ok tt) →
  ∃ cs, p' = extend_plot p cs [] ∧ Forall2 R l cs.
Proof.
  intros Hbody. revert p. induction l as [|x l IH]; intros p Hrun; simpl in Hrun.
  - run_inv. exists []. split; [by rewrite extend_plot_nil | constructor].
  - run_inv.
    match goal with H : body _ _ = _ |- _ => apply Hbody in H as (c & -> & HR) end.
    apply IH in Hrun as (cs & -> & Hall).
    exists (c :: cs). split; [by rewrite extend_plot_extend | by constructor].
Qed.

Lemma plot_path_ok mapping kw path s s' :
  plot_path mapping kw path s = (s', Ok tt) →
  ∃ xs ys,
    s' = extend_plot s [ax_plot xs ys kw] [] ∧
    comprehension (λ st, index (state_vector st) mapping.1) (states path) = Ok xs ∧
    comprehension (λ st, index (state_vector st) mapping.2) (states path) = Ok ys.
Proof.
  unfold plot_path. intros H. run_inv.
  eexists _, _. split; [|split]; [|eassumption..].
  unfold extend_plot. by rewrite app_nil_r.
Qed.

Lemma plot_ellipses_ok mapping kw track s s' :
  plot_ellipses mapping kw track s = (s', Ok tt) →
  ∃ HH ells,
    position_mapping (ndim track) mapping = Ok HH ∧
    s' = extend_plot s (ax_add_artist <$> ells) [] ∧
    Forall2 (λ st e, uncertainty_ellipse HH kw st = Ok e) (states track) ells.
Proof.
  unfold plot_ellipses. intros H. run_inv.
  match goal with
  | Hpos : position_mapping _ _ = Ok ?M, H : for_each _ _ _ = _ |- _ =>
      exists M;
      apply (for_each_emits1 (λ st c, ∃ e, c = ax_add_artist e ∧
               uncertainty_ellipse M kw st = Ok e)) in H as (cs & -> & Hall)
  end.
  - match goal with |- ∃ ells, _ ∧ _ = extend_plot _ (_ <$> ells) _ ∧ Forall2 ?R _ ells =>
      assert (∃ ells, cs = ax_add_artist <$> ells ∧ Forall2 R (states track) ells)
        as (ells & -> & Hells)
    end.
    { induction Hall as [|st c sts cs (e & -> & He) _ (ells & -> & IH)].
      - exists []. split; [done | constructor].
      - exists (e :: ells). split; [done | by constructor]. }
    by exists ells.
  - intros st s1 s2 Hst. run_inv. eexists. split; [|eauto].
    unfold extend_plot. by rewrite app_nil_r.
Qed.

Lemma comprehension_ok {A B} (f : A → Result B) l ys :
  comprehension f l = Ok ys → Forall2 (λ x y, f x = Ok y) l ys.
Proof.
  revert ys. induction l as [|x l IH]; intros ys; simpl.
  - intros [= <-]. constructor.
  - destruct (f x) as [y|] eqn:Hx; [|done].
    destruct (comprehension f l) as [ys'|]; [|done].
    intros [= <-]. constructor; auto.
Qed.

Lemma comprehension_index_ok {A} (g : A → list num) i l ys :
  comprehension (λ x, index (g x) i) l = Ok ys →
  Forall2 (λ x y, g x !! i = Some y) l ys.
Proof.
  intros H. apply comprehension_ok in H.
  eapply Forall2_impl; [exact H|]. intros x y. apply index_ok.
Qed.

(** The first loop of [plot_ground_truths] and [plot_tracks]. *)
Lemma paths_loop_ok mapping kw paths s s' :
  for_each (plot_path mapping kw) paths s = (s', Ok tt) →
  ∃ lines, s' = extend_plot s lines [] ∧ Forall2 (line_of mapping kw) paths lines.
Proof.
  apply for_each_emits1. intros path s1 s2 H.
  apply plot_path_ok in H as (xs & ys & -> & Hx & Hy).
  apply comprehension_index_ok in Hx, Hy.
  eexists. split; [done|]. by exists xs, ys.
Qed.

(** The loop over the tracks that draws the ellipses. *)
Lemma ellipses_loop_ok mapping kw tracks s s' :
  for_each (plot_ellipses mapping kw) tracks s = (s', Ok tt) →
  ∃ ells,
    s' = extend_plot s (ax_add_artist <$> ells) [] ∧
    Forall2 (ellipse_drawn mapping kw) (track_states tracks) ells.
Proof.
  revert s. induction tracks as [|t tracks IH]; intros s Hrun; simpl in Hrun.
  - run_inv. exists []. split; [by rewrite extend_plot_nil | constructor].
  - run_inv.
    match goal with H : plot_ellipses _ _ _ _ = _ |- _ =>
      apply plot_ellipses_ok in H as (HH & ells1 & HHH & -> & Hall1) end.
    apply IH in Hrun as (ells2 & -> & Hall2).
    exists (ells1 ++ ells2). split.
    + by rewrite extend_plot_extend, fmap_app.
    + unfold track_states. simpl. apply Forall2_app; [|exact Hall2].
      apply Forall2_fmap_l. eapply Forall2_impl; [exact Hall1|].
      intros st e He. by exists HH.
Qed.

Lemma np_array_ok (rows data : list (Vector num)) :
  np_array rows = Ok data → data = rows.
Proof.
  unfold np_array. destruct rows as [|r rs]; [by intros [= <-]|].
  case_match; [by intros [= <-] | done].
Qed.

(** The loops that draw the particle clouds. *)
Lemma particles_loop_ok tracks s s' :
  for_each (λ track, for_each plot_particles (states track)) tracks s = (s', Ok tt) →
  ∃ clouds,
    s' = extend_plot s clouds [] ∧
    Forall2 cloud_of (track_states tracks) clouds.
Proof.
  revert s. induction tracks as [|t tracks IH]; intros s Hrun; simpl in Hrun.
  - run_inv. exists []. split; [by rewrite extend_plot_nil | constructor].
  - run_inv.
    match goal with H : for_each plot_particles _ _ = _ |- _ =>
      apply (for_each_emits1 (λ st c, ∃ ps xs ys,
        particles st = Some ps ∧
        column 0 (particle_state_vector <$> ps) = Ok xs ∧
        column 2 (particle_state_vector <$> ps) = Ok ys ∧
        c = ax_plot xs ys particle_style)) in H as (cs1 & -> & Hall1) end.
    + apply IH in Hrun as (cs2 & -> & Hall2).
      exists (cs1 ++ cs2). split; [by rewrite extend_plot_extend|].
      unfold track_states. simpl. apply Forall2_app; [|exact Hall2].
      by apply Forall2_fmap_l.
    + clear. intros st s1 s2 H. unfold plot_particles in H. run_inv.
      match goal with H : np_array _ = Ok _ |- _ => apply np_array_ok in H as -> end.
      destruct (particles st) as [ps|] eqn:Hps; [|done].
      simpl in *. simplify_eq.
      eexists. split; [|eauto 10].
      unfold extend_plot. by rewrite app_nil_r.
Qed.

(** One iteration of the loop of [plot_measurements]. *)
Lemma measurement_body_ok mapping fb kw c st s s' c' :
  measurement_body mapping fb kw c st s = (s', Ok c') →
  match drawn fb st with
  | Some pt =>
      ∃ call, scatter_of mapping clutter_style kw pt call ∧
              s' = extend_plot s [call] [] ∧
              c' = (if pt.1 then Some (default clutter_legend c) else c)
  | None => ∃ msg, s' = extend_plot s [] [msg] ∧ c' = c
  end.
Proof.
  unfold measurement_body, drawn, scatter_mapped. intros H. run_inv.
  match goal with H : attached_model _ = _ |- _ => rewrite H end.
  match goal with H : invert_measurement _ _ = _ |- _ => rewrite H end.
  match goal with x : (Vector num + string)%type |- _ => destruct x as [v|msg] end.
  - destruct (cls st) eqn:Hcls; simpl in *; run_inv;
      repeat match goal with H : index _ _ = Ok _ |- _ => apply index_ok in H end.
    + eexists. split; [|done]. unfold extend_plot. by rewrite app_nil_r.
    + eexists. split; [|done]. unfold extend_plot. by rewrite app_nil_r.
    + eexists. split; [by eexists _, _|]. split; [|done].
      unfold extend_plot. by rewrite app_nil_r.
    + eexists. split; [by eexists _, _|]. split; [|by destruct c].
      unfold extend_plot. by rewrite app_nil_r.
  - run_inv. eexists. split; [|done]. unfold extend_plot. by rewrite app_nil_r.
Qed.

(** The loop of [plot_measurements]: the points it scatters are those of
    the measurements that [drawn] keeps, the others are skipped with a
    warning each. *)
Lemma measurements_loop_ok mapping fb kw sts c s s' c' :
  for_fold (measurement_body mapping fb kw) c sts s = (s', Ok c') →
  ∃ calls msgs,
    s' = extend_plot s calls msgs ∧
    Forall2 (scatter_of mapping clutter_style kw) (omap (drawn fb) sts) calls ∧
    (length calls + length msgs = length sts)%nat ∧
    c' = (if existsb fst (omap (drawn fb) sts)
          then Some (default clutter_legend c) else c).
Proof.
  revert c s. induction sts as [|st sts IH]; intros c s Hrun; simpl in Hrun.
  - run_inv. exists [], []. by rewrite extend_plot_nil.
  - run_inv.
    match goal with H : measurement_body _ _ _ _ _ _ = _ |- _ =>
      apply measurement_body_ok in H end.
    apply IH in Hrun as (calls & msgs & -> & Hall & Hlen & ->).
    simpl. destruct (drawn fb st) as [[b v]|].
    + destruct Hstep as (call & Hcall & -> & ->).
      exists (call :: calls), msgs. rewrite extend_plot_extend. simpl.
      split_and!; [done | by constructor | lia |].
      destruct b; simpl; [by destruct (existsb _ _), c | done].
    + destruct Hstep as (msg & -> & ->).
      exists calls, (msg :: msgs). rewrite extend_plot_extend. simpl.
      split_and!; [done | done | lia | done].
Qed.

(** What a successful evaluation of lines 226-234 went through. *)
Lemma uncertainty_ellipse_ok HH kw st e :
  uncertainty_ellipse HH kw st = Ok e →
  ∃ P S w v max_ind min_ind v1 v0 x y w_max w_min,
    covar st = Some P ∧ projected_covar HH P = Ok S ∧ np_eig S = (w, v) ∧
    np_argmax w = Ok max_ind ∧ np_argmin w = Ok min_ind ∧
    index2 v 1 max_ind = Ok v1 ∧ index2 v 0 max_ind = Ok v0 ∧
    state_vector st !! 0%nat = Some x ∧ state_vector st !! 2%nat = Some y ∧
    w !! max_ind = Some w_max ∧ w !! min_ind = Some w_min ∧
    e = {| xy := (x, y);
           width := num_mul (lit 2) (np_sqrt w_max);
           height := num_mul (lit 2) (np_sqrt w_min);
           angle := np_rad2deg (np_arctan2 v1 v0);
           alpha := lit (2 # 10);
           color := getitem kw "color" |}.
Proof.
  intros He. unfold uncertainty_ellipse in He.
  destruct (covar st) as [P|] eqn:HP; simpl in He; [|done].
  unfold mbind, Result_bind in He. simpl in He.
  destruct (projected_covar HH P) as [S|] eqn:HS; simpl in He; [|done].
  destruct (np_eig S) as [w v] eqn:Heig.
  destruct (np_argmax w) as [max_ind|] eqn:Hamax; simpl in He; [|done].
  destruct (np_argmin w) as [min_ind|] eqn:Hamin; simpl in He; [|done].
  destruct (index2 v 1 max_ind) as [v1|] eqn:Hv1; simpl in He; [|done].
  destruct (index2 v 0 max_ind) as [v0|] eqn:Hv0; simpl in He; [|done].
  destruct (index (state_vector st) 0) as [x|] eqn:Hx; simpl in He; [|done].
  destruct (index (state_vector st) 2) as [y|] eqn:Hy; simpl in He; [|done].
  destruct (index w max_ind) as [w_max|] eqn:Hwmax; simpl in He; [|done].
  destruct (index w min_ind) as [w_min|] eqn:Hwmin; simpl in He; [|done].
  injection He as <-.
  apply index_ok in Hwmax, Hwmin, Hx, Hy.
  exists P, S, w, v, max_ind, min_ind, v1, v0, x, y, w_max, w_min.
  by split_and!.
Qed.

(** *** The three methods on a run without exception *)


Lemma plot_measurements_ok ms mapping fb kwargs p p' :
  plot_measurements ms mapping fb kwargs p = (p', Ok tt) →
  let kw := dict_update measurement_defaults kwargs in
  ∃ sts calls msgs h,
    measurements_set ms = (sts, None) ∧
    Forall2 (scatter_of mapping clutter_style kw) (omap (drawn fb) sts) calls ∧
    (length calls + length msgs = length sts)%nat ∧
    handles_list p' = handles_list p ++
      h :: (if existsb fst (omap (drawn fb) sts) then [clutter_legend.1] else []) ∧
    labels_list p' = labels_list p ++
      "Measurements" :: (if existsb fst (omap (drawn fb) sts) then ["Clutter"] else []) ∧
    ax p' = ax p ++ calls ++ [ax_legend (handles_list p') (labels_list p') false] ∧
    warnings p' = warnings p ++ msgs.
Proof.
  intros H. simpl. unfold plot_measurements in H.
  set (kw := dict_update measurement_defaults kwargs) in *.
  destruct (measurements_set ms) as [sts stop] eqn:Hset.
  run_inv. case_decide; run_inv.
  destruct stop; run_inv.
  match goal with H : for_fold _ _ _ _ = _ |- _ =>
    apply measurements_loop_ok in H as (calls & msgs & -> & Hall & Hlen & ->) end.
  exists sts, calls, msgs. eexists.
  split_and!; [done | done | done | ..];
    destruct (existsb fst (omap (drawn fb) sts)); simpl in *; run_inv; simpl;
    rewrite <- ?app_assoc; done.
Qed.

Lemma plot_tracks_ok tracks mapping u pt kwargs p p' :
  plot_tracks tracks mapping u pt kwargs p = (p', Ok tt) →
  let kw := dict_update tracks_defaults kwargs in
  ∃ lines arts hs ls,
    Forall2 (line_of mapping kw) (as_set tracks) lines ∧
    handles_list p' = handles_list p ++ hs ∧
    labels_list p' = labels_list p ++ ls ∧
    length hs = length ls ∧
    ax p' = ax p ++ lines ++ arts ++ [ax_legend (handles_list p') (labels_list p') u] ∧
    warnings p' = warnings p ∧
    (if u then
       ls = ["Track"; "Uncertainty"] ∧
       ∃ ells, arts = ax_add_artist <$> ells ∧
               Forall2 (ellipse_drawn mapping kw) (track_states (as_set tracks)) ells
     else if pt then
       ls = ["Track"; "Particles"] ∧ Forall2 cloud_of (track_states (as_set tracks)) arts
     else ls = ["Track"] ∧ arts = []).
Proof.
  intros H. simpl. unfold plot_tracks in H.
  set (kw := dict_update tracks_defaults kwargs) in *. run_inv.
  match goal with H : for_each (plot_path _ _) _ _ = _ |- _ =>
    apply paths_loop_ok in H as (lines & -> & Hlines) end.
  exists lines.
  destruct u; [|destruct pt]; run_inv.
  - match goal with H : for_each _ _ _ = _ |- _ =>
      apply ellipses_loop_ok in H as (ells & -> & Hells) end.
    exists (ax_add_artist <$> ells). eexists [_; _], [_; _]. simpl.
    rewrite !app_nil_r, <- !app_assoc. simpl. split_and!; try done. eauto.
  - match goal with H : for_each _ _ _ = _ |- _ =>
      apply particles_loop_ok in H as (clouds & -> & Hclouds) end.
    exists clouds. eexists [_; _], [_; _]. simpl.
    rewrite !app_nil_r, <- !app_assoc. simpl. split_and!; done.
  - exists []. eexists [_], [_]. simpl.
    rewrite !app_nil_r, <- !app_assoc. simpl. split_and!; done.
Qed.
End Drawing.

(** ** The legend registry is append-only *)

Section LegendRegistry.
Context {num : Type} `{!Numpy num}.

End LegendRegistry.

(** ** Reasoning about pure fallible code *)

Lemma result_bind_ok {A B} (r : Result A) (k : A → Result B) b :
  result_bind r k = Ok b → ∃ a, r = Ok a ∧ k a = Ok b.
Proof. destruct r as [a|e]; simpl; [eauto | done]. Qed.

Ltac result_inv :=
  repeat match goal with
  | H : mbind _ _ = Ok _ |- _ => unfold mbind, Result_bind in H
  | H : result_bind _ _ = Ok _ |- _ =>
      let H1 := fresh "Hval" in
      apply result_bind_ok in H as (? & H1 & H)
  | H : (let '(_, _) := ?x in _) = Ok _ |- _ => destruct x eqn:?
  | H : Ok _ = Ok _ |- _ => injection H as H
  end.

(** ** Uncertainty ellipses *)

Section ArgExtrema.
Context {num : Type} `{!Numpy num} `{!NumpyOrder num}.

Lemma num_ltb_irrefl (x : num) : num_ltb x x = false.
Proof.
  destruct (num_ltb x x) eqn:H; [|done].
  pose proof (num_ltb_asym _ _ H). congruence.
Qed.

Lemma argmax_from_spec l : ∀ pre best_i best,
  pre !! best_i = Some best →
  (∀ x, x ∈ pre → num_ltb best x = false) →
  ∃ m, (pre ++ l) !! argmax_from best_i best (length pre) l = Some m ∧
       ∀ x, x ∈ pre ++ l → num_ltb m x = false.
Proof.
  induction l as [|x l IH]; intros pre best_i best Hbest Hmax; simpl.
  - exists best. rewrite app_nil_r. eauto.
  - replace (pre ++ x :: l) with ((pre ++ [x]) ++ l) by by rewrite <- app_assoc.
    replace (Datatypes.S (length pre)) with (length (pre ++ [x]))
      by (rewrite length_app; simpl; lia).
    destruct (num_ltb best x) eqn:Hlt.
    + apply IH.
      * by rewrite lookup_app_r, Nat.sub_diag.
      * intros y [Hy | ->%list_elem_of_singleton]%elem_of_app.
        -- eapply num_ltb_negtrans; [by apply num_ltb_asym | by apply Hmax].
        -- apply num_ltb_irrefl.
    + apply IH.
      * apply lookup_app_l_Some, Hbest.
      * intros y [Hy | ->%list_elem_of_singleton]%elem_of_app; auto.
Qed.

Lemma argmin_from_spec l : ∀ pre best_i best,
  pre !! best_i = Some best →
  (∀ x, x ∈ pre → num_ltb x best = false) →
  ∃ m, (pre ++ l) !! argmin_from best_i best (length pre) l = Some m ∧
       ∀ x, x ∈ pre ++ l → num_ltb x m = false.
Proof.
  induction l as [|x l IH]; intros pre best_i best Hbest Hmin; simpl.
  - exists best. rewrite app_nil_r. eauto.
  - replace (pre ++ x :: l) with ((pre ++ [x]) ++ l) by by rewrite <- app_assoc.
    replace (Datatypes.S (length pre)) with (length (pre ++ [x]))
      by (rewrite length_app; simpl; lia).
    destruct (num_ltb x best) eqn:Hlt.
    + apply IH.
      * by rewrite lookup_app_r, Nat.sub_diag.
      * intros y [Hy | ->%list_elem_of_singleton]%elem_of_app.
        -- eapply num_ltb_negtrans; [by apply Hmin | by apply num_ltb_asym].
        -- apply num_ltb_irrefl.
    + apply IH.
      * apply lookup_app_l_Some, Hbest.
      * intros y [Hy | ->%list_elem_of_singleton]%elem_of_app; auto.
Qed.

(** [np.argmax] returns the index of an entry that no entry exceeds. *)
Lemma np_argmax_spec (w : list num) i :
  np_argmax w = Ok i →
  ∃ m, w !! i = Some m ∧ ∀ x, x ∈ w → num_ltb m x = false.
Proof.
  destruct w as [|x w]; [done|]. intros [= <-].
  apply (argmax_from_spec w [x] 0%nat x); [done|].
  intros y ->%list_elem_of_singleton. apply num_ltb_irrefl.
Qed.

(** [np.argmin] returns the index of an entry that exceeds no entry. *)
Lemma np_argmin_spec (w : list num) i :
  np_argmin w = Ok i →
  ∃ m, w !! i = Some m ∧ ∀ x, x ∈ w → num_ltb x m = false.
Proof.
  destruct w as [|x w]; [done|]. intros [= <-].
  apply (argmin_from_spec w [x] 0%nat x); [done|].
  intros y ->%list_elem_of_singleton. apply num_ltb_irrefl.
Qed.

Lemma ellipse_drawn_matches mapping kw ts e :
  ellipse_drawn mapping kw ts e → ellipse_matches mapping ts.1 ts.2 e.
Proof.
  intros (HH & HHH & He).
  apply uncertainty_ellipse_ok in He
    as (P & S & w & v & max_ind & min_ind & v1 & v0 & x & y & w_max & w_min &
        HP & HS & Heig & Hamax & Hamin & Hv1 & Hv0 & _ & _ & Hwmax & Hwmin & ->).
  apply np_argmax_spec in Hamax as (m & Hm & Hmax_spec).
  apply np_argmin_spec in Hamin as (m' & Hm' & Hmin_spec).
  pose proof (eq_trans (eq_sym Hm) Hwmax) as [= ->].
  pose proof (eq_trans (eq_sym Hm') Hwmin) as [= ->].
  exists HH, P, S, w, v, max_ind, min_ind, w_max, w_min, v0, v1.
  by split_and!.
Qed.
End ArgExtrema.

(** ** Positions of ellipses and particle clouds *)

Section Positions.
Context {num : Type} `{!Numpy num}.

Lemma Forall2_functional {A B} (R : A → B → Prop) l l1 l2 :
  (∀ x y1 y2, R x y1 → R x y2 → y1 = y2) →
  Forall2 R l l1 → Forall2 R l l2 → l1 = l2.
Proof.
  intros Hfun H1. revert l2.
  induction H1 as [|x y l l1 Hxy _ IH]; intros l2 H2; inversion H2; subst.
  - done.
  - f_equal; eauto.
Qed.

Lemma line_plots_of_lines mapping (kw : Kwargs num) paths lines :
  Forall2 (line_of mapping kw) paths lines →
  length (line_plots_of lines) = length paths.
Proof.
  induction 1 as [|path c ? ? (xs & ys & -> & _)]; simpl; [done | by f_equal].
Qed.

Lemma ellipses_of_plots {A} (R : A → AxCall num → Prop) l calls :
  (∀ x c, R x c → ∃ xs ys kw, c = ax_plot xs ys kw) →
  Forall2 R l calls → ellipses_of calls = [].
Proof.
  intros HR. induction 1 as [|x c ? ? Hc]; simpl; [done|].
  by destruct (HR _ _ Hc) as (xs & ys & kw & ->).
Qed.

Lemma ellipses_of_lines mapping (kw : Kwargs num) paths lines :
  Forall2 (line_of mapping kw) paths lines → ellipses_of lines = [].
Proof.
  apply ellipses_of_plots. intros x c (xs & ys & -> & _). eauto.
Qed.

Lemma ellipses_of_artists (ells : list (Ellipse num)) :
  ellipses_of (ax_add_artist <$> ells) = ells.
Proof. induction ells as [|e ells IH]; simpl; [done | by f_equal]. Qed.

Lemma line_plots_of_artists (ells : list (Ellipse num)) :
  line_plots_of (ax_add_artist <$> ells) = [].
Proof. induction ells; simpl; done. Qed.

Lemma ellipse_drawn_centred mapping kw ts e :
  ellipse_drawn mapping kw ts e → centred_at_0_2 ts.2 e.
Proof.
  intros (HH & _ & He).
  apply uncertainty_ellipse_ok in He
    as (P & S & w & v & max_ind & min_ind & v1 & v0 & x & y & w_max & w_min &
        _ & _ & _ & _ & _ & _ & _ & Hx & Hy & _ & _ & ->).
  by split.
Qed.

Lemma column_ok k (data : list (Vector num)) xs :
  column k data = Ok xs → Forall2 (λ v x, v !! k = Some x) data xs.
Proof.
  unfold column. destruct data; [done|]. apply comprehension_index_ok.
Qed.

Lemma cloud_of_at_0_2 ts c : cloud_of ts c → cloud_at_0_2 ts.2 c.
Proof.
  intros (ps & xs & ys & Hps & Hx & Hy & ->).
  exists ps, xs, ys, particle_style. split_and!; [done | done | |].
  - apply column_ok in Hx. by apply Forall2_fmap_l in Hx.
  - apply column_ok in Hy. by apply Forall2_fmap_l in Hy.
Qed.

Lemma cloud_of_functional ts (c1 c2 : AxCall num) :
  cloud_of ts c1 → cloud_of ts c2 → c1 = c2.
Proof.
  intros (ps & xs & ys & Hps & Hx & Hy & ->) (ps' & xs' & ys' & Hps' & Hx' & Hy' & ->).
  congruence.
Qed.

(** C5 (amended).  In [plot_tracks], every uncertainty ellipse is centred
    at components 0 and 2 of its state's vector and every particle cloud
    is plotted at components 0 and 2 of the particles' vectors.  The
    centres and the clouds do not depend on the mapping: a call with
    another mapping draws ellipses with the same centres and the same
    clouds.  The mapping is honored by the track lines, which go through
    the mapped components, and by the ellipses' axes and angle, which come
    from the covariance projected through the mapping. *)
Theorem ellipse_and_particle_positions tracks mapping uncertainty particle kwargs
    (p p' : Plotter num) :
  plot_tracks tracks mapping uncertainty particle kwargs p = (p', Ok tt) →
  (uncertainty = true →
     Forall2 (λ ts e, centred_at_0_2 ts.2 e)
       (track_states (as_set tracks)) (ellipses_of (new_calls p p')) ∧
     Forall2 (ellipse_drawn mapping (dict_update tracks_defaults kwargs))
       (track_states (as_set tracks)) (ellipses_of (new_calls p p')) ∧
     Forall2 (line_of mapping (dict_update tracks_defaults kwargs))
       (as_set tracks) (take (length (as_set tracks)) (new_calls p p'))) ∧
  (uncertainty = false → particle = true →
     ∃ lines clouds legend,
       new_calls p p' = lines ++ clouds ++ [legend] ∧
       Forall2 (line_of mapping (dict_update tracks_defaults kwargs))
         (as_set tracks) lines ∧
       Forall2 (λ ts c, cloud_at_0_2 ts.2 c) (track_states (as_set tracks)) clouds) ∧
  (∀ mapping2 p2,
     plot_tracks tracks mapping2 uncertainty particle kwargs p = (p2, Ok tt) →
     xy <$> ellipses_of (new_calls p p2) = xy <$> ellipses_of (new_calls p p') ∧
     drop (length (as_set tracks)) (line_plots_of (new_calls p p2)) =
     drop (length (as_set tracks)) (line_plots_of (new_calls p p'))).
Proof.
  intros Hrun.
  apply plot_tracks_ok in Hrun
    as (lines & arts & hs & ls & Hlines & _ & _ & _ & Hax & _ & Hcase).
  assert (new_calls p p' = lines ++ arts ++
            [ax_legend (handles_list p') (labels_list p') uncertainty]) as Hnew.
  { unfold new_calls. by rewrite Hax, drop_app_length. }
  split_and!.
  - intros ->. destruct Hcase as (_ & ells & -> & Hells).
    rewrite Hnew. unfold ellipses_of. rewrite !omap_app.
    fold (ellipses_of lines). fold (ellipses_of (ax_add_artist <$> ells)).
    rewrite (ellipses_of_lines _ _ _ _ Hlines), ellipses_of_artists. simpl.
    rewrite app_nil_r. split_and!.
    + eapply Forall2_impl; [exact Hells|]. intros ts e. apply ellipse_drawn_centred.
    + done.
    + rewrite (Forall2_length _ _ _ Hlines), take_app_length. done.
  - intros -> ->. destruct Hcase as (_ & Hclouds).
    eexists lines, arts, _. split_and!; [exact Hnew | exact Hlines |].
    eapply Forall2_impl; [exact Hclouds|]. intros ts c. apply cloud_of_at_0_2.
  - intros mapping2 p2 Hrun2.
    apply plot_tracks_ok in Hrun2
      as (lines2 & arts2 & hs2 & ls2 & Hlines2 & _ & _ & _ & Hax2 & _ & Hcase2).
    assert (new_calls p p2 = lines2 ++ arts2 ++
              [ax_legend (handles_list p2) (labels_list p2) uncertainty]) as Hnew2.
    { unfold new_calls. by rewrite Hax2, drop_app_length. }
    rewrite Hnew, Hnew2.
    unfold ellipses_of, line_plots_of. rewrite !omap_app.
    fold (ellipses_of lines) (ellipses_of lines2) (ellipses_of arts) (ellipses_of arts2).
    fold (line_plots_of lines) (line_plots_of lines2)
         (line_plots_of arts) (line_plots_of arts2).
    rewrite (ellipses_of_lines _ _ _ _ Hlines), (ellipses_of_lines _ _ _ _ Hlines2).
    simpl. rewrite !app_nil_r.
    rewrite !drop_app_le
      by (erewrite line_plots_of_lines by eassumption; done).
    rewrite !drop_ge by (erewrite line_plots_of_lines by eassumption; done).
    simpl.
    destruct uncertainty; [|destruct particle].
    + destruct Hcase as (_ & ells & -> & Hells).
      destruct Hcase2 as (_ & ells2 & -> & Hells2).
      rewrite !ellipses_of_artists, !line_plots_of_artists. split; [|done].
      apply (Forall2_functional
               (λ (ts : Track num * State num) (c : num * num),
                  state_vector ts.2 !! 0%nat = Some c.1 ∧
                  state_vector ts.2 !! 2%nat = Some c.2)
               (track_states (as_set tracks))).
      * intros ts [x1 y1] [x2 y2] [Hx1 Hy1] [Hx2 Hy2]. simpl in *. congruence.
      * apply Forall2_fmap_r. eapply Forall2_impl; [exact Hells2|].
        intros ts e He. by apply ellipse_drawn_centred in He.
      * apply Forall2_fmap_r. eapply Forall2_impl; [exact Hells|].
        intros ts e He. by apply ellipse_drawn_centred in He.
    + destruct Hcase as (_ & Hclouds). destruct Hcase2 as (_ & Hclouds2).
      assert (arts2 = arts) as ->.
      { eapply Forall2_functional; [apply cloud_of_functional | done | done]. }
      done.
    + destruct Hcase as (_ & ->). destruct Hcase2 as (_ & ->). done.
Qed.
End Positions.


Section Ellipses.
Context {num : Type} `{!Numpy num} `{!NumpyOrder num}.

(** C1 (amended).  A [plot_tracks] call with [uncertainty=True] that
    returns has drawn exactly one ellipse per state per track, in iteration
    order.  The ellipse of a state has for angle the angle (in degrees)
    from the x-axis of the eigenvector of the larger eigenvalue of the
    state's covariance projected through the mapping, and for width and
    height twice the square root of the larger and of the smaller
    eigenvalue.  The call appends exactly one "Track" and one
    "Uncertainty" entry to the legend, whatever the number of tracks: the
    legend holds one more of each than before the call. *)
Theorem plot_tracks_uncertainty tracks mapping particle kwargs (p p' : Plotter num) :
  plot_tracks tracks mapping true particle kwargs p = (p', Ok tt) →
  Forall2 (λ ts e, ellipse_matches mapping ts.1 ts.2 e)
    (track_states (as_set tracks)) (ellipses_of (new_calls p p')) ∧
  labels_list p' = labels_list p ++ ["Track"; "Uncertainty"] ∧
  length (handles_list p') = (length (handles_list p) + 2)%nat ∧
  length (filter (λ l, l = "Track") (labels_list p')) =
    Datatypes.S (length (filter (λ l, l = "Track") (labels_list p))) ∧
  length (filter (λ l, l = "Uncertainty") (labels_list p')) =
    Datatypes.S (length (filter (λ l, l = "Uncertainty") (labels_list p))).
Proof.
  intros Hrun.
  apply plot_tracks_ok in Hrun
    as (lines & arts & hs & ls & Hlines & Hh & Hl & Hlen & Hax & _ & -> & ells & -> & Hells).
  split_and!.
  - unfold new_calls. rewrite Hax, drop_app_length.
    unfold ellipses_of. rewrite !omap_app. fold (ellipses_of lines).
    fold (ellipses_of (ax_add_artist <$> ells)).
    rewrite (ellipses_of_lines _ _ _ _ Hlines), ellipses_of_artists. simpl.
    rewrite app_nil_r.
    eapply Forall2_impl; [exact Hells|].
    intros ts e. apply ellipse_drawn_matches.
  - done.
  - rewrite Hh, length_app, Hlen. done.
  - rewrite Hl, filter_app, length_app.
    replace (filter (λ l, l = "Track") ["Track"; "Uncertainty"]) with ["Track"]
      by (by vm_compute).
    simpl. lia.
  - rewrite Hl, filter_app, length_app.
    replace (filter (λ l, l = "Uncertainty") ["Track"; "Uncertainty"])
      with ["Uncertainty"] by (by vm_compute).
    simpl. lia.
Qed.
End Ellipses.

(** The order of the rationals obeys the laws of [NumpyOrder]. *)
Lemma Q_ltb_false (x y : Q) : Q_ltb x y = false ↔ (y <= x)%Q.
Proof.
  unfold Q_ltb. rewrite negb_false_iff. apply Qle_bool_iff.
Qed.

#[export] Instance Q_numpy_order : NumpyOrder Q.
Proof.
  split; simpl.
  - intros x y Hxy. apply Q_ltb_false.
    destruct (Qlt_le_dec x y) as [Hlt|Hle]; [by apply Qlt_le_weak|].
    apply Q_ltb_false in Hle. congruence.
  - intros x y z Hxy Hyz. apply Q_ltb_false. apply Q_ltb_false in Hxy, Hyz.
    by eapply Qle_trans.
Qed.

(** The theorem applies to two tracks of two states each: four ellipses. *)
Lemma plot_tracks_uncertainty_witness :
  Forall2 (λ ts e, ellipse_matches Demo.mapping ts.1 ts.2 e)
    (track_states [Demo.track; Demo.track])
    (ellipses_of (new_calls Plotter_init Demo.plotter1)) ∧
  labels_list Demo.plotter1 = labels_list (Plotter_init (num:=Q)) ++ ["Track"; "Uncertainty"].
Proof.
  assert (plot_tracks (SetOf [Demo.track; Demo.track]) Demo.mapping true false
            Demo.no_kwargs Plotter_init = (Demo.plotter1, Ok tt)) as Hrun
    by (vm_compute; reflexivity).
  destruct (plot_tracks_uncertainty _ _ _ _ _ _ Hrun) as (Hells & Hlabels & _).
  split; assumption.
Defined.

(** C1, as stated, fails on a plotter that already drew tracks: after a
    second call the legend holds two "Track" and two "Uncertainty"
    entries. *)
Lemma second_plot_tracks_legend :
  let r := plot_tracks (Single Demo.track) Demo.mapping true false Demo.no_kwargs Demo.plotter1 in
  r.2 = Ok tt ∧
  labels_list r.1 = ["Track"; "Uncertainty"; "Track"; "Uncertainty"] ∧
  length (filter (λ l, l = "Track") (labels_list r.1)) ≠ 1%nat ∧
  length (filter (λ l, l = "Uncertainty") (labels_list r.1)) ≠ 1%nat.
Proof. vm_compute. split_and!; [reflexivity | reflexivity | lia | lia]. Qed.

(** ** plot_measurements *)

Section Measurements.
Context {num : Type} `{!Numpy num}.

Lemma drawn_tag fb (st : State num) b v :
  drawn fb st = Some (b, v) → b = isinstance_Clutter (cls st).
Proof.
  unfold drawn. repeat case_match; try done. by intros [= <- <-].
Qed.

Lemma points_of_drawn mapping fb (ckw dkw : Kwargs num) sts calls :
  Forall2 (scatter_of mapping ckw dkw) (omap (drawn fb) sts) calls →
  Forall2 (point_of mapping fb ckw dkw)
    (filter (λ st, is_Some (drawn fb st)) sts) calls.
Proof.
  revert calls. induction sts as [|st sts IH]; intros calls Hall; simpl in *.
  - inversion Hall. constructor.
  - rewrite filter_cons. destruct (drawn fb st) as [[b v]|] eqn:Hd.
    + rewrite decide_True by eauto.
      inversion Hall as [|? c ? calls' (x & y & Hx & Hy & ->) Hrest]; subst.
      constructor; [|by apply IH].
      pose proof (drawn_tag _ _ _ _ Hd) as ->.
      exists v, x, y. by rewrite Hd.
    + rewrite decide_False by (by intros [? ?]). by apply IH.
Qed.

Lemma clutter_plotted_iff fb (sts : list (State num)) :
  clutter_plotted fb sts = true ↔
  ∃ st v, st ∈ sts ∧ isinstance_Clutter (cls st) = true ∧ drawn fb st = Some (true, v).
Proof.
  unfold clutter_plotted. induction sts as [|st sts IH]; simpl.
  - split; [done|]. intros (st & v & []%elem_of_nil & _).
  - destruct (drawn fb st) as [[b v]|] eqn:Hd; simpl.
    + rewrite orb_true_iff, IH. split.
      * intros [-> | (st' & v' & Hin & Hc & Hd')].
        -- exists st, v. split_and!; [left | | done].
           by rewrite <- (drawn_tag _ _ _ _ Hd).
        -- exists st', v'. split_and!; [by right | done | done].
      * intros (st' & v' & [-> | Hin]%elem_of_cons & Hc & Hd').
        -- left. congruence.
        -- right. eauto.
    + rewrite IH. split.
      * intros (st' & v' & Hin & Hc & Hd'). exists st', v'.
        split_and!; [by right | done | done].
      * intros (st' & v' & [-> | Hin]%elem_of_cons & Hc & Hd'); [congruence | eauto].
Qed.

(** C8.  The points a [plot_measurements] call scatters are those of the
    measurements it does not skip, in order.  The point of a clutter
    measurement always has the fixed style ([color='y'], [marker='2']),
    whatever the style overrides of the caller; the point of any other
    detection has the default style updated with the overrides. *)
Theorem clutter_style_not_overridable ms mapping fb kwargs (p p' : Plotter num) :
  plot_measurements ms mapping fb kwargs p = (p', Ok tt) →
  let measurement_kwargs := dict_update measurement_defaults kwargs in
  clutter_style (num:=num) = {[ "color" := VStr "y"; "marker" := VStr "2" ]} ∧
  (∀ k v, kwargs !! k = Some v → measurement_kwargs !! k = Some v) ∧
  (∀ k, kwargs !! k = None → measurement_kwargs !! k = measurement_defaults !! k) ∧
  ∃ sts calls legend,
    measurements_set ms = (sts, None) ∧
    new_calls p p' = calls ++ [legend] ∧
    Forall2 (point_of mapping fb clutter_style measurement_kwargs)
      (filter (λ st, is_Some (drawn fb st)) sts) calls.
Proof.
  intros Hrun kw.
  apply plot_measurements_ok in Hrun
    as (sts & calls & msgs & h & Hset & Hall & _ & _ & _ & Hax & _).
  split_and!.
  - done.
  - intros k v Hk. subst kw. unfold dict_update.
    by apply lookup_union_Some_l.
  - intros k Hk. subst kw. unfold dict_update. by apply lookup_union_r.
  - exists sts, calls. eexists. split_and!; [done | |].
    + unfold new_calls. by rewrite Hax, drop_app_length.
    + by apply points_of_drawn.
Qed.

(** C4.  A [plot_measurements] call that returns has appended exactly one
    "Measurements" entry to the legend, then one "Clutter" entry if and
    only if it drew at least one clutter point, and has rendered the
    legend from the complete lists as its last action.  A call that
    raises does so before the loop is over and appends nothing.  With an
    empty list (and no [linestyle] override, which the handle refuses) the
    call returns, draws nothing and still appends the "Measurements"
    entry. *)
Theorem measurements_legend_entries ms mapping fb kwargs (p : Plotter num) :
  (∀ p',
     plot_measurements ms mapping fb kwargs p = (p', Ok tt) →
     ∃ sts h,
       measurements_set ms = (sts, None) ∧
       handles_list p' = handles_list p ++
         h :: (if clutter_plotted fb sts then [clutter_legend.1] else []) ∧
       labels_list p' = labels_list p ++
         "Measurements" :: (if clutter_plotted fb sts then ["Clutter"] else []) ∧
       (clutter_plotted fb sts = true ↔
        ∃ st v, st ∈ sts ∧ isinstance_Clutter (cls st) = true ∧
                drawn fb st = Some (true, v)) ∧
       last (ax p') = Some (ax_legend (handles_list p') (labels_list p') false)) ∧
  (∀ p' e,
     plot_measurements ms mapping fb kwargs p = (p', Raise e) →
     handles_list p' = handles_list p ∧ labels_list p' = labels_list p) ∧
  (kwargs !! "linestyle" = None →
   ∃ h, plot_measurements [] mapping fb kwargs p =
        ({| ax := ax p ++ [ax_legend (handles_list p ++ [h])
                             (labels_list p ++ ["Measurements"]) false];
            handles_list := handles_list p ++ [h];
            labels_list := labels_list p ++ ["Measurements"];
            warnings := warnings p |}, Ok tt)).
Proof.
  split_and!.
  - intros p' Hrun.
    apply plot_measurements_ok in Hrun
      as (sts & calls & msgs & h & Hset & _ & _ & Hh & Hl & Hax & _).
    exists sts, h. split_and!; [done | done | done | apply clutter_plotted_iff |].
    by rewrite Hax, app_assoc, last_snoc.
  - intros p' e. unfold plot_measurements.
    destruct (measurements_set ms) as [sts stop].
    unfold bind at 1. case_decide; [by intros [= <- _]|].
    cbn [ret]. unfold bind at 1.
    pose proof (preserves_for_fold legend_kept
                  (measurement_body mapping fb (dict_update measurement_defaults kwargs))
                  sts None (measurement_body_kept _ _ _) p) as Hkept.
    destruct (for_fold _ None sts p) as [s1 [c|e1]]; simpl in Hkept.
    + destruct stop as [e2|].
      * unfold bind, raise. by intros [= <- _].
      * destruct c as [[ch cl]|]; by intros [=].
    + by intros [= <- _].
  - intros Hno. eexists. unfold plot_measurements. simpl.
    rewrite decide_False; [reflexivity|].
    intros [v Hv]. unfold dict_update in Hv.
    apply lookup_union_Some_raw in Hv as [Hv | [_ Hv]]; [congruence|].
    by vm_compute in Hv.
Qed.

(** C3.  For a measurement of the loop of [plot_measurements], the model
    is the one attached to the measurement and otherwise the fallback
    argument.  If that model is linear, the point scattered for the
    measurement is at the mapped rows of the pseudo-inverse of the model
    matrix applied to the measurement vector.  If it is nonlinear with no
    inverse function available, or if there is no model at all, the
    measurement is skipped: a warning is issued, nothing is drawn, and the
    loop goes on with the remaining measurements. *)
Theorem measurement_model_resolution mapping measurement_model kw c st rest attached
    (p : Plotter num) :
  attached_model st = Ok attached →
  let meas_model :=
    match attached with Some m => Some m | None => measurement_model end in
  let loop := for_fold (measurement_body mapping measurement_model kw) in
  (∀ m v x y,
     meas_model = Some m → model_kind m = KLinear →
     isinstance_Detection (cls st) = true →
     matvec (np_pinv (matrix m)) (state_vector st) = Ok v →
     v !! mapping.1 = Some x → v !! mapping.2 = Some y →
     loop c (st :: rest) p =
     loop (if isinstance_Clutter (cls st) then Some (default clutter_legend c) else c)
       rest
       {| ax := ax p ++ [ax_scatter x y (if isinstance_Clutter (cls st)
                                         then clutter_style else kw)];
          handles_list := handles_list p; labels_list := labels_list p;
          warnings := warnings p |}) ∧
  ((meas_model = None ∨
    ∃ m, meas_model = Some m ∧ model_kind m = KNonLinear ∧
         (inverse_function m = InvMissing ∨ inverse_function m = InvNotImplemented)) →
   ∃ msg,
     loop c (st :: rest) p =
     loop c rest
       {| ax := ax p; handles_list := handles_list p; labels_list := labels_list p;
          warnings := warnings p ++ [msg] |}).
Proof.
  intros Hatt meas_model loop. split.
  - intros m v x y Hm Hk Hdet Hv Hx Hy. subst loop. simpl.
    erewrite bind_step; [reflexivity|].
    unfold measurement_body, bind, lift.
    rewrite Hatt.
    replace (resolve_model attached measurement_model) with (Some m)
      by (by destruct attached).
    unfold invert_measurement. rewrite Hk.
    unfold mbind, Result_bind. rewrite Hv. simpl.
    unfold scatter_mapped, bind, lift, index. rewrite Hx, Hy.
    destruct (cls st); try done; simpl; by destruct c.
  - intros Hskip. subst loop. simpl.
    assert (∃ msg, invert_measurement (resolve_model attached measurement_model) st
                   = Ok (inr msg)) as [msg Hmsg].
    { replace (resolve_model attached measurement_model) with meas_model
        by (by destruct attached).
      destruct Hskip as [-> | (m & -> & Hk & Hinv)]; simpl; [eauto|].
      rewrite Hk. destruct Hinv as [-> | ->]; eauto. }
    exists msg. erewrite bind_step; [reflexivity|].
    unfold measurement_body, bind, lift.
    by rewrite Hatt, Hmsg.
Qed.
End Measurements.

(** The theorems on [plot_measurements] apply to a list with a detection
    under a linear model, clutter without any model, a detection under a
    model with no inverse, and clutter under a reversible model. *)
Lemma clutter_style_not_overridable_witness :
  ∃ sts calls legend,
    measurements_set Demo.measurements = (sts, None) ∧
    new_calls Plotter_init
      (plot_measurements Demo.measurements Demo.mapping None Demo.overrides
         Plotter_init).1 = calls ++ [legend] ∧
    Forall2 (point_of Demo.mapping None clutter_style
               (dict_update measurement_defaults Demo.overrides))
      (filter (λ st, is_Some (drawn None st)) sts) calls.
Proof.
  refine (proj2 (proj2 (proj2
    (clutter_style_not_overridable Demo.measurements Demo.mapping None Demo.overrides
       Plotter_init _ _)))).
  vm_compute. reflexivity.
Defined.

Lemma measurements_legend_entries_witness :
  ∃ sts h,
    measurements_set Demo.measurements = (sts, None) ∧
    handles_list (plot_measurements Demo.measurements Demo.mapping
                    (Some Demo.position_model) Demo.no_kwargs Plotter_init).1 =
      [] ++ h :: (if clutter_plotted (Some Demo.position_model) sts
                  then [clutter_legend.1] else []) ∧
    labels_list (plot_measurements Demo.measurements Demo.mapping
                   (Some Demo.position_model) Demo.no_kwargs Plotter_init).1 =
      [] ++ "Measurements" :: (if clutter_plotted (Some Demo.position_model) sts
                               then ["Clutter"] else []).
Proof.
  assert (plot_measurements Demo.measurements Demo.mapping (Some Demo.position_model)
            Demo.no_kwargs Plotter_init =
          ((plot_measurements Demo.measurements Demo.mapping (Some Demo.position_model)
              Demo.no_kwargs Plotter_init).1, Ok tt)) as Hrun
    by (vm_compute; reflexivity).
  destruct (proj1 (measurements_legend_entries _ _ _ _ _) _ Hrun)
    as (sts & h & Hset & Hh & Hl & _).
  exists sts, h. split_and!; assumption.
Defined.

Lemma measurement_model_resolution_witness :
  let st := Demo.detection ClsDetection (Some Demo.bearing_model) [5%Q] 1 in
  ∃ msg,
    for_fold (measurement_body Demo.mapping (Some Demo.position_model) Demo.no_kwargs) None [st]
      Plotter_init =
    for_fold (measurement_body Demo.mapping (Some Demo.position_model) Demo.no_kwargs) None []
      {| ax := []; handles_list := []; labels_list := [];
         warnings := [] ++ [msg] |}.
Proof.
  intros st.
  refine (proj2 (measurement_model_resolution Demo.mapping (Some Demo.position_model) Demo.no_kwargs
                   None st [] (Some Demo.bearing_model) Plotter_init _) _).
  - reflexivity.
  - right. exists Demo.bearing_model. split_and!; [reflexivity | reflexivity |].
    left. reflexivity.
Defined.

(** The theorem on positions applies to the two example tracks. *)
Lemma ellipse_and_particle_positions_witness :
  Forall2 (λ ts e, centred_at_0_2 ts.2 e)
    (track_states [Demo.track; Demo.track])
    (ellipses_of (new_calls Plotter_init Demo.plotter1)).
Proof.
  refine (proj1 (proj1 (ellipse_and_particle_positions (SetOf [Demo.track; Demo.track])
                   Demo.mapping true false Demo.no_kwargs Plotter_init Demo.plotter1 _)
            eq_refl)).
  vm_compute. reflexivity.
Defined.

(** C5, as stated, fails in its remark that only the track lines honor the
    mapping: the mapping also enters the ellipses, through the projection
    of the covariance.  With the mapping [(0, 2)] the ellipses of the
    example track are 6 wide, with [(1, 3)] they are 2 wide, at the same
    centres. *)
Lemma mapping_selects_ellipse_axes :
  let drawn02 := ellipses_of (ax (plot_tracks (Single Demo.track) (0, 2)%nat true false
                                    Demo.no_kwargs Plotter_init).1) in
  let drawn13 := ellipses_of (ax (plot_tracks (Single Demo.track) (1, 3)%nat true false
                                    Demo.no_kwargs Plotter_init).1) in
  width <$> drawn02 = [6; 6]%Q ∧
  width <$> drawn13 = [2; 2]%Q ∧
  width <$> drawn02 ≠ width <$> drawn13 ∧
  xy <$> drawn02 = [(1, 3); (5, 7)]%Q ∧
  xy <$> drawn13 = [(1, 3); (5, 7)]%Q.
Proof. vm_compute. split_and!; done. Qed.

(** Particle clouds: components 0 and 2 of the particles, whatever the
    mapping. *)
Example particle_cloud_components :
  line_plots_of (ax (plot_tracks (Single Demo.particle_track) (1, 3)%nat false true
                       Demo.no_kwargs Plotter_init).1)
  = [([4], [6], dict_update tracks_defaults Demo.no_kwargs);
     ([1; 5], [3; 7], particle_style)]%Q.
Proof. vm_compute. done. Qed.

(** ** TimeBasedPlotter.prepare_data *)

Section PrepareData.
Context {num : Type}.
Implicit Types (data_source : list (State num)).

Lemma prepare_data_invertible data_source output :
  Forall (λ s, isinstance_Detection (cls s) = true) data_source →
  comprehension invert_detection data_source = Ok output →
  prepare_data data_source = Ok (Some output) ∧
  timestamp <$> output = timestamp <$> data_source ∧
  Forall (λ s, cls s = ClsState) output.
Proof.
  intros Hall Hinv. split_and!.
  - unfold prepare_data.
    rewrite (proj2 (forallb_forall _ _)), (proj2 (forallb_forall _ _)).
    + by rewrite Hinv.
    + intros s Hs. eapply Forall_forall in Hall; [|by apply list_elem_of_In]. done.
    + intros s Hs. eapply Forall_forall in Hall; [|by apply list_elem_of_In].
      by destruct (cls s).
  - clear Hall. revert output Hinv.
    induction data_source as [|d l IH]; intros output; simpl.
    + by intros [= <-].
    + destruct (invert_detection d) as [s|] eqn:Hd; [|done].
      destruct (comprehension invert_detection l) as [out|]; [|done].
      intros [= <-]. simpl. f_equal; [|by apply IH].
      unfold invert_detection, attached_model, mbind, Result_bind in Hd.
      destruct (measurement_model d) as [[m|]|]; simpl in Hd; try done.
      destruct (inverse_function m); try done. by injection Hd as <-.
  - clear Hall. revert output Hinv.
    induction data_source as [|d l IH]; intros output; simpl.
    + intros [= <-]. constructor.
    + destruct (invert_detection d) as [s|] eqn:Hd; [|done].
      destruct (comprehension invert_detection l) as [out|]; [|done].
      intros [= <-]. constructor; [|by apply IH].
      unfold invert_detection, attached_model, mbind, Result_bind in Hd.
      destruct (measurement_model d) as [[m|]|]; simpl in Hd; try done.
      destruct (inverse_function m); try done. by injection Hd as <-.
Qed.

Lemma prepare_data_no_inverse_attribute data_source :
  Forall (λ s, isinstance_Detection (cls s) = true) data_source →
  comprehension invert_detection data_source = Raise AttributeError →
  prepare_data data_source = Ok None.
Proof.
  intros Hall Hinv. unfold prepare_data.
  rewrite (proj2 (forallb_forall _ _)), (proj2 (forallb_forall _ _)).
  - by rewrite Hinv.
  - intros s Hs. eapply Forall_forall in Hall; [|by apply list_elem_of_In]. done.
  - intros s Hs. eapply Forall_forall in Hall; [|by apply list_elem_of_In].
    by destruct (cls s).
Qed.

Lemma prepare_data_passthrough data_source :
  Forall (λ s, isinstance_State (cls s) = true) data_source →
  Exists (λ s, isinstance_Detection (cls s) = false) data_source →
  prepare_data data_source = Ok (Some data_source).
Proof.
  intros Hall Hex. unfold prepare_data.
  rewrite (proj2 (forallb_forall _ _)).
  - destruct (forallb _ data_source) eqn:Hdet; [|done].
    apply Exists_exists in Hex as (s & Hs & Hf).
    rewrite forallb_forall in Hdet.
    specialize (Hdet s (proj1 (list_elem_of_In _ _) Hs)). congruence.
  - intros s Hs. eapply Forall_forall in Hall; [|by apply list_elem_of_In]. done.
Qed.

Lemma prepare_data_not_a_state data_source :
  Exists (λ s, isinstance_State (cls s) = false) data_source →
  prepare_data data_source = Raise NotImplementedError.
Proof.
  intros Hex. unfold prepare_data.
  destruct (forallb _ data_source) eqn:Hst; [|done].
  apply Exists_exists in Hex as (s & Hs & Hf).
  rewrite forallb_forall in Hst.
  specialize (Hst s (proj1 (list_elem_of_In _ _) Hs)). congruence.
Qed.

(** An inverse function that raises NotImplementedError is not caught by
    [prepare_data]. *)
Lemma prepare_data_not_implemented (d : State num) m rest :
  isinstance_Detection (cls d) = true →
  measurement_model d = Some (Some m) →
  inverse_function m = InvNotImplemented →
  Forall (λ s, isinstance_Detection (cls s) = true) rest →
  prepare_data (d :: rest) = Raise NotImplementedError.
Proof.
  intros Hd Hm Hinv Hall. unfold prepare_data.
  rewrite (proj2 (forallb_forall _ _)), (proj2 (forallb_forall _ _)).
  - simpl. unfold invert_detection, attached_model. rewrite Hm. simpl.
    by rewrite Hinv.
  - intros s [<- | Hs]; [done|].
    eapply Forall_forall in Hall; [|by apply list_elem_of_In]. done.
  - intros s [<- | Hs]; [by destruct (cls d)|].
    eapply Forall_forall in Hall; [|by apply list_elem_of_In].
    by destruct (cls s).
Qed.
End PrepareData.

(** C2.  A detection whose model has an [inverse_function] that raises
    NotImplementedError lacks the inverse capability, as [plot_measurements]
    treats it: there it is skipped with the warning that no inverse function
    is available.  [prepare_data] catches AttributeError only: on the same
    detection it raises NotImplementedError and the construction of the
    [TimeBasedPlotter] fails, where the claim has the series become null. *)
Theorem prepare_data_inverse_not_implemented :
  let d := Demo.detection ClsDetection (Some Demo.abstract_model) [5%Q] 1 in
  prepare_data [d] = Raise NotImplementedError ∧
  TimeBasedPlotter_init [d] "detections" Demo.no_kwargs = Raise NotImplementedError ∧
  prepare_data [Demo.detection ClsDetection (Some Demo.bearing_model) [5%Q] 1] = Ok None ∧
  plot_measurements [Det d] Demo.mapping None Demo.no_kwargs Plotter_init =
    ({| ax := [ax_legend [Line2D (<[ "linestyle" := VStr "" ]> measurement_defaults)]
                 ["Measurements"] false];
        handles_list := [Line2D (<[ "linestyle" := VStr "" ]> measurement_defaults)];
        labels_list := ["Measurements"];
        warnings :=
          ["Nonlinear measurement model used with no inverse function available"] |},
     Ok tt).
Proof. vm_compute. done. Qed.

(** ** TimeBasedPlotter.update_animation *)

Section UpdateAnimation.
Context {num : Type} `{!Numpy num}.
Implicit Types (lines : list (Line num)) (data : list (Vector num)).

Lemma np_size_pos data : (0 < np_size data)%nat ↔ Exists (λ v, v ≠ []) data.
Proof.
  induction data as [|v data IH]; simpl.
  - split; [lia | by intros ?%Exists_nil].
  - rewrite Exists_cons. destruct v as [|x v]; simpl.
    + rewrite IH. split; [by right | by intros [[]|]].
    + split; [by left | lia].
Qed.

Lemma update_line_ok t i entry lines lines1 :
  update_line t (i, entry) lines = (lines1, Ok tt) → line_step t i entry lines lines1.
Proof.
  unfold update_line, line_step. destruct entry as [data_source|]; [|by intros [= <-]].
  intros H. run_inv.
  match goal with H : np_array _ = Ok _ |- _ => apply np_array_ok in H as -> end.
  simpl. destruct (Nat.ltb 0 _); [|by run_inv].
  run_inv. unfold get_line in *. simplify_eq.
  match goal with H : index _ _ = Ok _ |- _ => apply index_ok in H end.
  unfold set_data in *. run_inv. eauto 10.
Qed.

Lemma line_step_length t i entry lines lines1 :
  line_step t i entry lines lines1 → length lines1 = length lines.
Proof.
  unfold line_step. destruct entry; [|by intros ->]. simpl.
  destruct (Nat.ltb 0 _); [|by intros ->].
  intros (line & xs & ys & _ & _ & _ & ->). apply length_insert.
Qed.

Lemma line_step_other t i entry lines lines1 j :
  line_step t i entry lines lines1 → j ≠ i → lines1 !! j = lines !! j.
Proof.
  unfold line_step. destruct entry; [|by intros ->]. simpl.
  destruct (Nat.ltb 0 _); [|by intros ->].
  intros (line & xs & ys & _ & _ & _ & ->) Hne. by apply list_lookup_insert_ne.
Qed.

Lemma update_lines_ok t data_list : ∀ k lines lines',
  for_each (update_line t) (zip (seq k (length data_list)) data_list) lines
    = (lines', Ok tt) →
  length lines' = length lines ∧
  (∀ j, (j < k ∨ k + length data_list ≤ j)%nat → lines' !! j = lines !! j) ∧
  (∀ j entry, data_list !! j = Some entry →
     line_result t entry (lines !! (k + j)%nat) (lines' !! (k + j)%nat)).
Proof.
  induction data_list as [|entry rest IH]; intros k lines lines' Hrun;
    cbn [for_each zip_with seq length] in Hrun.
  - run_inv. split_and!; [done | done |]. intros j entry. by rewrite lookup_nil.
  - run_inv.
    match goal with H : update_line _ _ _ = _ |- _ =>
      apply update_line_ok in H; rename H into Hstep end.
    apply IH in Hrun as (Hlen & Hbefore & Hrest).
    pose proof (line_step_length _ _ _ _ _ Hstep) as Hlen1.
    split_and!.
    + congruence.
    + intros j Hj. simpl in Hj. rewrite Hbefore by lia.
      eapply line_step_other; [done | lia].
    + intros [|j] e He; simpl in He.
      * injection He as <-. rewrite Nat.add_0_r, Hbefore by lia.
        clear -Hstep. unfold line_step, line_result in *.
        destruct entry; [|by subst]. simpl in *.
        destruct (Nat.ltb 0 _); [|by subst].
        destruct Hstep as (line & xs & ys & Hline & Hx & Hy & ->).
        exists line, xs, ys. split_and!; try done.
        apply list_lookup_insert_eq. by eapply lookup_lt_Some.
      * specialize (Hrest j e He).
        replace (k + Datatypes.S j)%nat with (Datatypes.S k + j)%nat by lia.
        rewrite <- (line_step_other _ _ _ _ _ (Datatypes.S k + j)%nat Hstep) by lia.
        done.
Qed.

(** C6.  A frame of the animation that completes keeps the number of
    lines, returns the list of lines, and treats the series at each
    position [i] of [data_list] as follows.  A null series leaves its line
    as it is.  A series with no state at or before the frame timestamp
    leaves its line as it is.  Otherwise the line's data become the first
    and the third component of the state vectors of exactly the states
    with timestamp at or before the frame timestamp, in the order of the
    series. *)
Theorem update_animation_frame t data_list lines lines' r :
  update_animation t data_list lines = (lines', Ok r) →
  r = lines' ∧ length lines' = length lines ∧
  (∀ i, (length data_list ≤ i)%nat → lines' !! i = lines !! i) ∧
  (∀ i, data_list !! i = Some None → lines' !! i = lines !! i) ∧
  (∀ i data_source,
     data_list !! i = Some (Some data_source) →
     let shown := filter (λ a_state, timestamp a_state ≤ t) data_source in
     (shown = [] → lines' !! i = lines !! i) ∧
     (Exists (λ a_state, state_vector a_state ≠ []) shown →
      ∃ line xs ys,
        lines !! i = Some line ∧
        Forall2 (λ a_state x, state_vector a_state !! 0%nat = Some x) shown xs ∧
        Forall2 (λ a_state y, state_vector a_state !! 2%nat = Some y) shown ys ∧
        lines' !! i = Some {| xdata := xs; ydata := ys;
                              line_kwargs := line_kwargs line |})).
Proof.
  intros Hrun. unfold update_animation, enumerate in Hrun. run_inv.
  match goal with H : for_each _ _ _ = _ |- _ =>
    apply update_lines_ok in H as (Hlen & Hout & Hin) end.
  split_and!; [done | done | | |].
  - intros i Hi. apply Hout. lia.
  - intros i Hi. apply (Hin i None Hi).
  - intros i data_source Hi shown. specialize (Hin i _ Hi).
    unfold line_result in Hin. simpl in Hin.
    fold (visible t data_source) in shown. split.
    + intros Hshown. subst shown. rewrite Hshown in Hin. done.
    + intros Hex.
      assert (0 < np_size (state_vector <$> shown))%nat as Hsize.
      { apply np_size_pos. apply Exists_fmap. done. }
      apply Nat.ltb_lt in Hsize. subst shown. rewrite Hsize in Hin.
      destruct Hin as (line & xs & ys & Hline & Hx & Hy & Hnew).
      exists line, xs, ys. split_and!; [done | | | done].
      * apply column_ok in Hx. by apply Forall2_fmap_l in Hx.
      * apply column_ok in Hy. by apply Forall2_fmap_l in Hy.
Qed.
End UpdateAnimation.

(** The frame at time 1 shows the first two of the three states of the
    example series. *)
Lemma update_animation_frame_witness :
  ∃ line xs ys,
    [Demo.line0] !! 0%nat = Some line ∧
    Forall2 (λ a_state x, state_vector a_state !! 0%nat = Some x)
      (filter (λ a_state, timestamp a_state ≤ 1) (default [] (plotting_data Demo.series)))
      xs ∧
    Forall2 (λ a_state y, state_vector a_state !! 2%nat = Some y)
      (filter (λ a_state, timestamp a_state ≤ 1) (default [] (plotting_data Demo.series)))
      ys ∧
    (update_animation 1 [plotting_data Demo.series] [Demo.line0]).1 !! 0%nat =
      Some {| xdata := xs; ydata := ys; line_kwargs := line_kwargs line |}.
Proof.
  assert (update_animation 1 [plotting_data Demo.series] [Demo.line0] =
          ((update_animation 1 [plotting_data Demo.series] [Demo.line0]).1,
           Ok (update_animation 1 [plotting_data Demo.series] [Demo.line0]).1)) as Hrun
    by (vm_compute; reflexivity).
  destruct (update_animation_frame _ _ _ _ _ Hrun) as (_ & _ & _ & _ & Hseries).
  refine (proj2 (Hseries 0%nat _ eq_refl) _).
  vm_compute. apply Exists_cons_hd. discriminate.
Defined.

Example update_animation_example :
  update_animation 1 [plotting_data Demo.series; None] [Demo.line0; Demo.line0] =
  ([ {| xdata := [1; 5]%Q; ydata := [3; 7]%Q; line_kwargs := Demo.no_kwargs |};
     Demo.line0 ],
   Ok [ {| xdata := [1; 5]%Q; ydata := [3; 7]%Q; line_kwargs := Demo.no_kwargs |};
        Demo.line0 ]).
Proof. vm_compute. reflexivity. Qed.

(** ** TimeBasedPlotter.run_animation *)

Section RunAnimation.
Context {num : Type} `{!Numpy num}.
Implicit Types (data : list (TimeBasedPlotter num)) (fig : Figure num).

#[local] Instance limits_kept_preorder : PreOrder (limits_kept (num:=num)).
Proof.
  split.
  - intros f. by split.
  - intros f1 f2 f3 [? ?] [? ?]. split; congruence.
Qed.

Lemma create_line_limits acc o :
  preserves (limits_kept (num:=num)) (create_line acc o).
Proof.
  unfold create_line. repeat preserves_step.
  unfold plt_plot. apply preserves_modify. intros f. by split.
Qed.

Lemma create_lines_limits acc data :
  preserves (limits_kept (num:=num)) (for_fold create_line acc data).
Proof. apply preserves_for_fold; [tc_solve|]. intros. apply create_line_limits. Qed.

Lemma comprehension_index_raise {A} (g : A → list num) k l e :
  comprehension (λ x, index (g x) k) l = Raise e → e = IndexError.
Proof.
  induction l as [|x l IH]; simpl; [done|]. unfold index at 1.
  destruct (g x !! k); [|by intros [= <-]].
  destruct (comprehension _ l); [done|]. intros [= <-]. by apply IH.
Qed.

Lemma first_of_column_raise k (rows : list (Vector num)) e :
  first_of_column k rows = Raise e → e = IndexError.
Proof.
  unfold first_of_column. destruct rows as [|r rows]; [by intros [= <-]|].
  apply (comprehension_index_raise id).
Qed.

Lemma np_array_raise (rows : list (Vector num)) e :
  np_array rows = Raise e → e = ValueError.
Proof.
  unfold np_array. destruct rows; [done|]. case_match; [done | by intros [= <-]].
Qed.

(** The first loop of [run_animation] raises nothing but the failures of
    building and indexing the array. *)
Lemma create_line_raises acc o fig fig1 e :
  create_line acc o fig = (fig1, Raise e) → e = IndexError ∨ e = ValueError.
Proof.
  unfold create_line. destruct (plotting_data o) as [ds|]; [|done].
  unfold bind, lift.
  destruct (np_array _) as [the_data|e1] eqn:Harr.
  - destruct (first_of_column 0 the_data) as [xs|e2] eqn:Hx.
    + destruct (first_of_column 2 the_data) as [ys|e3] eqn:Hy; [done|].
      intros [= <- <-]. left. by eapply first_of_column_raise.
    + intros [= <- <-]. left. by eapply first_of_column_raise.
  - intros [= <- <-]. right. by eapply np_array_raise.
Qed.

Lemma create_line_empty acc o fig :
  plotting_data o = Some [] → create_line acc o fig = (fig, Raise IndexError).
Proof. intros Ho. unfold create_line. by rewrite Ho. Qed.

Lemma create_lines_empty_series data : ∀ acc fig,
  Exists (λ o, plotting_data o = Some []) data →
  ∃ fig' e, for_fold create_line acc data fig = (fig', Raise e) ∧
            (e = IndexError ∨ e = ValueError).
Proof.
  induction data as [|o data IH]; intros acc fig Hex; [by apply Exists_nil in Hex|].
  simpl. unfold bind at 1.
  destruct (create_line acc o fig) as [fig1 [acc1|e]] eqn:Hline.
  - apply Exists_cons in Hex as [Ho | Hex]; [|by apply IH].
    rewrite (create_line_empty _ _ _ Ho) in Hline. done.
  - exists fig1, e. split; [done|]. by eapply create_line_raises.
Qed.

(** C7.  [run_animation] does not validate its input.  With an empty
    collection of series it raises the ValueError of [min] on an empty
    sequence, in the computation of the axis limits.  With a series of
    zero states in the collection it raises in the initial plotting,
    before any axis limit is set: IndexError for the empty array of that
    series (or the failure of an earlier series, an IndexError or a
    ValueError of the same array code). *)
Theorem run_animation_empty_input times data fig :
  (data = [] → run_animation times data fig = (fig, Raise ValueError)) ∧
  (∀ o rest, data = o :: rest → plotting_data o = Some [] →
     run_animation times data fig = (fig, Raise IndexError)) ∧
  (Exists (λ o, plotting_data o = Some []) data →
   ∃ fig' e,
     run_animation times data fig = (fig', Raise e) ∧
     (e = IndexError ∨ e = ValueError) ∧
     limits_kept fig fig').
Proof.
  split_and!.
  - intros ->. reflexivity.
  - intros o rest -> Ho. unfold run_animation. simpl. unfold bind.
    by rewrite (create_line_empty _ _ _ Ho).
  - intros Hex.
    destruct (create_lines_empty_series data ([], []) fig Hex) as (fig' & e & Hrun & He).
    exists fig', e. split_and!; [|done|].
    + unfold run_animation. by apply bind_raise.
    + pose proof (create_lines_limits ([], []) data fig) as Hlim.
      by rewrite Hrun in Hlim.
Qed.

Lemma comprehension_fmap {A B C} (f : B → Result C) (g : A → B) l :
  comprehension f (g <$> l) = comprehension (λ x, f (g x)) l.
Proof.
  induction l as [|x l IH]; [done|].
  change (g <$> x :: l) with (g x :: (g <$> l)). cbn [comprehension].
  by rewrite IH.
Qed.

Lemma comprehension_total {A B} (f : A → Result B) l :
  Forall (λ x, ∃ y, f x = Ok y) l → ∃ ys, comprehension f l = Ok ys.
Proof.
  induction 1 as [|x l [y Hy] _ [ys IH]]; simpl; [eauto|].
  rewrite Hy, IH. eauto.
Qed.

(** In a rectangular array, an index that is valid in the first row is
    valid in every row. *)
Lemma rectangular_column k (rows the_data : list (Vector num)) xs :
  np_array rows = Ok the_data →
  first_of_column k the_data = Ok xs →
  ∃ ys, comprehension (λ r, index r k) rows = Ok ys.
Proof.
  intros Harr Hfirst. pose proof (np_array_ok _ _ Harr) as ->.
  destruct rows as [|r rows]; [done|].
  simpl in Harr. destruct (forallb _ rows) eqn:Hrect; [|done].
  unfold first_of_column in Hfirst. simpl in Hfirst.
  destruct (index r k) as [x|] eqn:Hx; [|done].
  apply index_ok, lookup_lt_Some in Hx.
  apply comprehension_total. constructor.
  - unfold index. destruct (r !! k) eqn:Hr; [eauto|].
    apply lookup_ge_None in Hr. lia.
  - apply Forall_forall. intros r' Hr'.
    rewrite forallb_forall in Hrect.
    specialize (Hrect r' (proj1 (list_elem_of_In _ _) Hr')).
    apply Nat.eqb_eq in Hrect.
    unfold index. destruct (r' !! k) eqn:Hk; [eauto|].
    apply lookup_ge_None in Hk. lia.
Qed.

(** After the first loop has gone through, the generator of the axis
    limits reaches the null series and fails on it. *)
Lemma all_components_null data : ∀ acc fig fig1 acc1,
  for_fold create_line acc data fig = (fig1, Ok acc1) →
  Exists (λ o, plotting_data o = None) data →
  all_components 0 data = Raise TypeError.
Proof.
  induction data as [|o data IH]; intros acc fig fig1 acc1 Hrun Hex;
    [by apply Exists_nil in Hex|].
  cbn [for_fold] in Hrun. run_inv. simpl.
  destruct (plotting_data o) as [ds|] eqn:Ho; [|done].
  apply Exists_cons in Hex as [Hnull | Hex]; [congruence|].
  match goal with H : create_line _ _ _ = _ |- _ =>
    unfold create_line in H; rewrite Ho in H end.
  run_inv.
  match goal with
  | Harr : np_array _ = Ok ?d, Hfirst : first_of_column 0 ?d = Ok _ |- _ =>
      destruct (rectangular_column _ _ _ _ Harr Hfirst) as [xs Hxs]
  end.
  rewrite comprehension_fmap in Hxs. rewrite Hxs.
  unfold mbind, Result_bind. simpl.
  by erewrite IH.
Qed.

Lemma length_omap_le {A B} (f : A → option B) (l : list A) :
  (length (omap f l) ≤ length l)%nat.
Proof.
  induction l as [|x l IH]; simpl; [done|].
  destruct (f x); simpl; unfold omap in *; lia.
Qed.

Lemma create_lines_count data : ∀ acc fig fig1 acc1,
  for_fold create_line acc data fig = (fig1, Ok acc1) →
  acc1.1 = acc.1 ++ omap plotting_data data ∧
  length (fig_lines fig1) =
    (length (fig_lines fig) + length (omap plotting_data data))%nat.
Proof.
  induction data as [|o data IH]; intros acc fig fig1 acc1 Hrun;
    cbn [for_fold] in Hrun; run_inv.
  - simpl. rewrite app_nil_r. split; [done | lia].
  - match goal with H : create_line _ _ _ = _ |- _ =>
      unfold create_line in H end.
    simpl. destruct (plotting_data o) as [ds|] eqn:Ho; simpl.
    + run_inv. unfold plt_plot in *. run_inv.
      apply IH in Hrun as [-> ->]. simpl.
      split; [by rewrite <- app_assoc | rewrite length_app; simpl; unfold omap; lia].
    + run_inv. by apply IH in Hrun.
Qed.
End RunAnimation.

(** The collection of the example series and an empty series: the initial
    plotting of the empty series raises. *)
Lemma run_animation_empty_input_witness :
  ∃ fig' e,
    run_animation [0; 1] [Demo.series; Demo.empty_series] plt_figure = (fig', Raise e) ∧
    (e = IndexError ∨ e = ValueError) ∧
    limits_kept plt_figure fig'.
Proof.
  refine (proj2 (proj2 (run_animation_empty_input [0; 1]
                          [Demo.series; Demo.empty_series] plt_figure)) _).
  apply Exists_cons_tl, Exists_cons_hd. reflexivity.
Defined.

Example run_animation_empty_series :
  (run_animation [0; 1] [Demo.series; Demo.empty_series] plt_figure).2
    = Raise IndexError ∧
  (run_animation [0; 1] [] (plt_figure (num:=Q))).2 = Raise ValueError.
Proof. vm_compute. done. Qed.

(** Without empty or null series the animation is set up: one line with the
    first state, the limits over all states, one legend key. *)
Example run_animation_example :
  run_animation [0; 1; 2] [Demo.series] plt_figure =
  ({| fig_lines := [ {| xdata := [1]%Q; ydata := [3]%Q; line_kwargs := Demo.no_kwargs |} ];
      fig_xlim := Some (1, 9)%Q; fig_ylim := Some (3, 7)%Q;
      fig_legend := Some ["track"] |},
   Ok {| frames := [0; 1; 2];
         fargs := [default [] (plotting_data Demo.series)];
         interval := 50 |}).
Proof. vm_compute. reflexivity. Qed.


Example plotting_script :
  labels_list (run_calls
    [call_ground_truths (SetOf [Demo.track; Demo.track]) Demo.mapping Demo.no_kwargs;
     call_measurements Demo.measurements Demo.mapping None Demo.overrides;
     call_tracks (Single Demo.track) Demo.mapping true false Demo.no_kwargs]
    Plotter_init).1
  = ["Ground Truth"; "Measurements"; "Clutter"; "Track"; "Uncertainty"].
Proof. vm_compute. reflexivity. Qed.

(** * Further properties of the module *)

(** ** Drawing the paths: when the line loop returns *)

Section PathLines.
Context {num : Type} `{!Numpy num}.
Implicit Types (p s : Plotter num) (kw : Kwargs num).

#[export] Instance draws_only_preorder : PreOrder (draws_only (num:=num)).
Proof.
  split.
  - intros p. exists []. split; [by rewrite extend_plot_nil | constructor].
  - intros p1 p2 p3 (cs1 & -> & H1) (cs2 & -> & H2).
    exists (cs1 ++ cs2). rewrite extend_plot_extend. split; [done|].
    by apply Forall_app.
Qed.

Lemma draws_only_call (c : AxCall num) :
  is_legend c = false → preserves draws_only (ax_call c).
Proof.
  intros Hc p. exists [c]. split; [|by constructor].
  unfold extend_plot. simpl. by rewrite app_nil_r.
Qed.

Lemma plot_path_draws_only mapping kw path :
  preserves draws_only (plot_path mapping kw path).
Proof. unfold plot_path. repeat preserves_step. by apply draws_only_call. Qed.

Lemma plot_ellipses_draws_only mapping kw track :
  preserves draws_only (plot_ellipses mapping kw track).
Proof. unfold plot_ellipses. repeat preserves_step. by apply draws_only_call. Qed.

Lemma plot_particles_draws_only (st : State num) :
  preserves draws_only (plot_particles st).
Proof. unfold plot_particles. repeat preserves_step. by apply draws_only_call. Qed.

Lemma draws_only_legend p p' :
  draws_only p p' →
  handles_list p' = handles_list p ∧ labels_list p' = labels_list p ∧
  warnings p' = warnings p ∧ Forall (λ c, is_legend c = false) (new_calls p p').
Proof.
  intros (cs & -> & Hcs). rewrite new_calls_extend. simpl.
  by rewrite app_nil_r.
Qed.

Lemma comprehension_index_total {A} (g : A → list num) k l :
  Forall (λ x, is_Some (g x !! k)) l →
  ∃ ys, comprehension (λ x, index (g x) k) l = Ok ys.
Proof.
  intros Hall. apply comprehension_total.
  eapply Forall_impl; [exact Hall|]. intros x [y Hy].
  exists y. unfold index. by rewrite Hy.
Qed.

Lemma line_of_mapped mapping kw path c : line_of mapping kw path c → path_mapped mapping path.
Proof.
  intros (xs & ys & _ & Hx & Hy). unfold path_mapped.
  apply Forall_forall. intros st Hst.
  apply list_elem_of_lookup in Hst as [i Hi].
  destruct (Forall2_lookup_l _ _ _ _ _ Hx Hi) as (x & _ & Hx').
  destruct (Forall2_lookup_l _ _ _ _ _ Hy Hi) as (y & _ & Hy').
  eauto.
Qed.

(** A path is drawn exactly when all its states have the mapped
    components; otherwise the comprehension raises IndexError and the
    path is not drawn. *)
Lemma plot_path_run mapping kw path s :
  (path_mapped mapping path ∧
   ∃ c, line_of mapping kw path c ∧
        plot_path mapping kw path s = (extend_plot s [c] [], Ok tt)) ∨
  (¬ path_mapped mapping path ∧ plot_path mapping kw path s = (s, Raise IndexError)).
Proof.
  destruct (plot_path mapping kw path s) as [s' [[]|e]] eqn:Hrun.
  - left. apply plot_path_ok in Hrun as (xs & ys & -> & Hx & Hy).
    apply comprehension_index_ok in Hx, Hy.
    assert (line_of mapping kw path (ax_plot xs ys kw)) as Hline by by exists xs, ys.
    split; [by eapply line_of_mapped | eauto].
  - right. unfold plot_path, bind, lift in Hrun.
    destruct (comprehension _ (states path)) as [xs|e1] eqn:Hx.
    + destruct (comprehension (λ st, index (state_vector st) mapping.2) (states path))
        as [ys|e2] eqn:Hy; [by unfold ax_call, modify in Hrun|].
      injection Hrun as <- <-.
      pose proof (comprehension_index_raise _ _ _ _ Hy) as ->.
      split; [|done]. intros Hm.
      destruct (comprehension_index_total state_vector mapping.2 (states path))
        as [ys Hys]; [|congruence].
      eapply Forall_impl; [exact Hm|]. by intros st [_ ?].
    + injection Hrun as <- <-.
      pose proof (comprehension_index_raise _ _ _ _ Hx) as ->.
      split; [|done]. intros Hm.
      destruct (comprehension_index_total state_vector mapping.1 (states path))
        as [xs Hxs]; [|congruence].
      eapply Forall_impl; [exact Hm|]. by intros st [? _].
Qed.

Lemma paths_loop_run mapping kw paths : ∀ s,
  (Forall (path_mapped mapping) paths ∧
   ∃ s', for_each (plot_path mapping kw) paths s = (s', Ok tt)) ∨
  (¬ Forall (path_mapped mapping) paths ∧
   ∃ s', for_each (plot_path mapping kw) paths s = (s', Raise IndexError)).
Proof.
  induction paths as [|path paths IH]; intros s; simpl.
  - left. split; [constructor | by eexists].
  - destruct (plot_path_run mapping kw path s) as [[Hm (c & _ & Hrun)] | [Hm Hrun]].
    + erewrite bind_step by exact Hrun.
      destruct (IH (extend_plot s [c] [])) as [[Hall [s' Hs']] | [Hall [s' Hs']]].
      * left. split; [by constructor | eauto].
      * right. split; [|eauto]. by intros [_ ?]%Forall_cons.
    + right. split; [by intros [? _]%Forall_cons|].
      exists s. by apply bind_raise.
Qed.

(** X1.  A [plot_ground_truths] call that returns has made exactly one
    [plot] call per path, in iteration order, through the mapped
    components of the states of the path in their order and with the
    dashed default style updated by the keyword arguments, followed by the
    legend call.  It has appended the label "Ground Truth" and a black
    handle whose line style is the caller's [linestyle], or "--" when the
    caller gave none.  It has issued no warning. *)
Theorem ground_truth_lines truths mapping kwargs p p' :
  plot_ground_truths truths mapping kwargs p = (p', Ok tt) →
  let style := dict_update truths_defaults kwargs in
  let linestyle := default (VStr "--") (kwargs !! "linestyle") in
  Forall2 (line_of mapping style) (as_set truths)
    (take (length (as_set truths)) (new_calls p p')) ∧
  drop (length (as_set truths)) (new_calls p p') =
    [ax_legend (handles_list p') (labels_list p') false] ∧
  style !! "linestyle" = Some linestyle ∧
  handles_list p' = handles_list p ++
    [Line2D {[ "linestyle" := linestyle; "color" := VStr "black" ]}] ∧
  labels_list p' = labels_list p ++ ["Ground Truth"] ∧
  warnings p' = warnings p.
Proof.
  intros Hrun style linestyle.
  assert (style !! "linestyle" = Some linestyle) as Hstyle.
  { subst style linestyle. unfold dict_update.
    destruct (kwargs !! "linestyle") as [v|] eqn:Hk; simpl.
    - by apply lookup_union_Some_l.
    - rewrite lookup_union_r by done. done. }
  unfold plot_ground_truths in Hrun. fold style in Hrun. run_inv.
  match goal with H : for_each _ _ _ = _ |- _ =>
    apply paths_loop_ok in H as (lines & -> & Hlines) end.
  pose proof (Forall2_length _ _ _ Hlines) as Hlen.
  unfold new_calls. simpl. rewrite !app_nil_r, <- !app_assoc, drop_app_length.
  rewrite Hlen, take_app_length, drop_app_length.
  unfold getitem. rewrite Hstyle. simpl.
  by split_and!.
Qed.

End PathLines.

(** The first path of the example can be drawn, the short one cannot: the
    call raises after drawing the first. *)
Lemma ground_truth_lines_witness :
  labels_list (plot_ground_truths (SetOf [Demo.track; Demo.track]) Demo.mapping
                 Demo.overrides Plotter_init).1
  = labels_list (Plotter_init (num:=Q)) ++ ["Ground Truth"].
Proof.
  assert (plot_ground_truths (SetOf [Demo.track; Demo.track]) Demo.mapping
            Demo.overrides Plotter_init =
          ((plot_ground_truths (SetOf [Demo.track; Demo.track]) Demo.mapping
              Demo.overrides Plotter_init).1, Ok tt)) as Hrun
    by (vm_compute; reflexivity).
  exact (proj1 (proj2 (proj2 (proj2 (proj2 (ground_truth_lines _ _ _ _ _ Hrun)))))).
Defined.


(** ** The two legend lists stay aligned *)

Section Alignment.
Context {num : Type} `{!Numpy num}.
Implicit Types (p s : Plotter num).

Local Abbreviation aligned := (legend_aligned (num:=num)).
Local Abbreviation kept := (legend_kept (num:=num)).

#[export] Instance legend_aligned_preorder : PreOrder (legend_aligned (num:=num)).
Proof.
  split.
  - intros p. reflexivity.
  - intros p1 p2 p3 H1 H2. unfold legend_aligned in *. lia.
Qed.

Lemma legend_kept_aligned p p' : legend_kept p p' → legend_aligned p p'.
Proof. intros [H1 H2]. unfold legend_aligned. by rewrite H1, H2. Qed.

Lemma preserves_kept_aligned {A} (m : M (Plotter num) A) :
  preserves kept m → preserves aligned m.
Proof. intros H p. apply legend_kept_aligned, H. Qed.

(** The two appends of an entry come together: no statement that can
    raise stands between them. *)
Lemma append_entry_aligned (h : Handle num) (l : string) :
  preserves aligned (handles_append h ;; labels_append l).
Proof. intros p. unfold legend_aligned. simpl. rewrite !length_app. simpl. lia. Qed.

Lemma append_entry_then_aligned {A} (h : Handle num) (l : string)
    (k : M (Plotter num) A) :
  preserves aligned k →
  preserves aligned (handles_append h ;; labels_append l ;; k).
Proof.
  intros Hk p. unfold bind at 1 2. simpl.
  etrans; [|apply Hk]. unfold legend_aligned. simpl. rewrite !length_app. simpl. lia.
Qed.

Ltac aligned_step :=
  first
    [ apply append_entry_then_aligned
    | apply append_entry_aligned
    | preserves_step
    | apply preserves_kept_aligned;
      first [ apply plot_path_kept | apply measurement_body_kept
            | apply plot_ellipses_kept | apply plot_particles_kept
            | apply render_legend_kept | apply warn_kept | apply ax_call_kept ] ].

Lemma plot_ground_truths_aligned truths mapping kwargs :
  preserves aligned (plot_ground_truths truths mapping kwargs).
Proof. unfold plot_ground_truths. repeat aligned_step. Qed.

Lemma plot_measurements_aligned ms mapping model kwargs :
  preserves aligned (plot_measurements ms mapping model kwargs).
Proof. unfold plot_measurements. repeat aligned_step. Qed.

Lemma plot_tracks_aligned tracks mapping u pt kwargs :
  preserves aligned (plot_tracks tracks mapping u pt kwargs).
Proof. unfold plot_tracks. repeat aligned_step. Qed.

(** X3.  The handle list and the label list of a plotter stay aligned:
    if they have the same length before a script of [plot_ground_truths],
    [plot_measurements] and [plot_tracks] calls, they have the same length
    after it, also when a call of the script raises.  (Each handle is
    appended together with its label.) *)
Theorem legend_lists_aligned (calls : list (PlotCall num)) p :
  length (handles_list p) = length (labels_list p) →
  length (handles_list (run_calls calls p).1) =
  length (labels_list (run_calls calls p).1).
Proof.
  intros Hp.
  assert (preserves aligned (run_calls calls)) as Hrun.
  { unfold run_calls. apply preserves_for_each; [tc_solve|].
    intros [| |]; simpl;
      [ apply plot_ground_truths_aligned | apply plot_measurements_aligned
      | apply plot_tracks_aligned ]. }
  specialize (Hrun p). unfold legend_aligned in Hrun. lia.
Qed.
End Alignment.

(** A script whose last call raises (the particle track has no covariance)
    after it has appended its "Track" entry. *)
Lemma legend_lists_aligned_witness :
  length (handles_list
            (run_calls [call_ground_truths (Single Demo.track) Demo.mapping Demo.no_kwargs;
                        call_tracks (Single Demo.particle_track) Demo.mapping true false
                          Demo.no_kwargs] Plotter_init).1) =
  length (labels_list
            (run_calls [call_ground_truths (Single Demo.track) Demo.mapping Demo.no_kwargs;
                        call_tracks (Single Demo.particle_track) Demo.mapping true false
                          Demo.no_kwargs] Plotter_init).1).
Proof. apply (legend_lists_aligned _ Plotter_init). reflexivity. Defined.

(** ** plot_tracks: what a failed call leaves behind *)

Section TracksFailure.
Context {num : Type} `{!Numpy num}.
Implicit Types (p s : Plotter num).

(** X4.  When [plot_tracks] raises, it has rendered no legend and issued
    no warning, and one of two things happened.  Either a state lacks a
    mapped component: the exception is the IndexError of the line loop and
    the legend lists are untouched.  Or all tracks were drawn and the
    exception comes from the ellipses or the particle clouds: then the
    "Track" entry has already been appended and stays in the legend lists
    although the call failed. *)
Theorem plot_tracks_failure tracks mapping uncertainty particle kwargs p p' e :
  plot_tracks tracks mapping uncertainty particle kwargs p = (p', Raise e) →
  Forall (λ c, is_legend c = false) (new_calls p p') ∧
  warnings p' = warnings p ∧
  ((¬ Forall (path_mapped mapping) (as_set tracks) ∧ e = IndexError ∧
    handles_list p' = handles_list p ∧ labels_list p' = labels_list p) ∨
   (Forall (path_mapped mapping) (as_set tracks) ∧
    (uncertainty = true ∨ particle = true) ∧
    labels_list p' = labels_list p ++ ["Track"] ∧
    ∃ h, handles_list p' = handles_list p ++ [h])).
Proof.
  unfold plot_tracks. set (kw := dict_update tracks_defaults kwargs).
  pose proof (preserves_for_each draws_only (plot_path mapping kw) (as_set tracks)
                (plot_path_draws_only mapping kw) p) as Hdraw.
  destruct (paths_loop_run mapping kw (as_set tracks) p)
    as [[Hall [s1 Hs1]] | [Hall [s1 Hs1]]]; rewrite Hs1 in Hdraw; simpl in Hdraw.
  - erewrite bind_step by exact Hs1.
    destruct Hdraw as (lines & -> & Hlines).
    unfold bind at 1 2. simpl.
    match goal with |- context [if uncertainty then ?a else _] =>
      set (s2 := {| ax := ax p ++ lines; handles_list := handles_list p ++ [_];
                    labels_list := labels_list p ++ ["Track"];
                    warnings := warnings p ++ [] |}) end.
    assert (∀ s3 : Plotter num, draws_only s2 s3 →
              Forall (λ c, is_legend c = false) (new_calls p s3) ∧
              warnings s3 = warnings p ∧
              labels_list s3 = labels_list p ++ ["Track"] ∧
              ∃ h, handles_list s3 = handles_list p ++ [h]) as Hafter.
    { intros s3 (arts & -> & Harts). unfold new_calls. simpl.
      rewrite !app_nil_r, <- app_assoc, drop_app_length.
      split_and!; [by apply Forall_app | done | done | eauto]. }
    destruct uncertainty; [|destruct particle].
    + pose proof (preserves_for_each draws_only (plot_ellipses mapping kw) (as_set tracks)
                    (plot_ellipses_draws_only mapping kw) s2) as Hells.
      unfold bind at 1.
      destruct (for_each (plot_ellipses mapping kw) (as_set tracks) s2)
        as [s3 [[]|e3]]; simpl in Hells; [done|].
      intros [= <- <-]. destruct (Hafter _ Hells) as (? & ? & ? & ?).
      split_and!; [done | done |]. right. split_and!; auto.
    + pose proof (preserves_for_each draws_only
                    (λ track, for_each plot_particles (states track)) (as_set tracks)
                    (λ track, preserves_for_each draws_only plot_particles (states track)
                                plot_particles_draws_only) s2) as Hclouds.
      unfold bind at 1.
      destruct (for_each _ (as_set tracks) s2) as [s3 [[]|e3]]; simpl in Hclouds; [done|].
      intros [= <- <-]. destruct (Hafter _ Hclouds) as (? & ? & ? & ?).
      split_and!; [done | done |]. right. split_and!; auto.
    + done.
  - erewrite bind_raise by exact Hs1. intros [= <- <-].
    apply draws_only_legend in Hdraw as (? & ? & ? & ?).
    split_and!; [done | done |]. left. by split_and!.
Qed.
End TracksFailure.

(** Uncertainty ellipses asked for a track whose state has no covariance:
    the call raises AttributeError and leaves the "Track" entry. *)
Lemma plot_tracks_failure_witness :
  labels_list (plot_tracks (Single Demo.particle_track) Demo.mapping true false
                 Demo.no_kwargs Plotter_init).1 = ["Track"] ∧
  (plot_tracks (Single Demo.particle_track) Demo.mapping true false
     Demo.no_kwargs Plotter_init).2 = Raise AttributeError.
Proof.
  assert (plot_tracks (Single Demo.particle_track) Demo.mapping true false
            Demo.no_kwargs Plotter_init =
          ((plot_tracks (Single Demo.particle_track) Demo.mapping true false
              Demo.no_kwargs Plotter_init).1, Raise AttributeError)) as Hrun
    by (vm_compute; reflexivity).
  destruct (plot_tracks_failure _ _ _ _ _ _ _ _ Hrun) as (_ & _ & [Hline | Hart]).
  - destruct Hline as (_ & Himpossible & _). discriminate Himpossible.
  - destruct Hart as (_ & _ & Hlabels & _). split; [exact Hlabels|].
    vm_compute. reflexivity.
Defined.

(** ** plot_measurements: accounting, mixed lists, the fallback model *)

Section MeasurementsMore.
Context {num : Type} `{!Numpy num}.
Implicit Types (p s : Plotter num) (ms : list (MeasItem num)).

Lemma length_filter_partition {A} (P : A → Prop) `{!∀ x, Decision (P x)} (l : list A) :
  (length (filter P l) + length (filter (λ x, ¬ P x) l) = length l)%nat.
Proof.
  induction l as [|x l IH]; [done|]. rewrite !filter_cons.
  destruct (decide (P x)).
  - rewrite decide_False by (by intros ?). simpl. lia.
  - rewrite decide_True by done. simpl. lia.
Qed.

(** X5.  A [plot_measurements] call that returns has dealt with every
    measurement of the (flattened) input exactly once: a measurement is
    either scattered, one [scatter] call, or skipped with one warning.
    The numbers of new scatter calls and of new warnings add up to the
    number of measurements, and the only other call on the axes is the
    final legend. *)
Theorem measurements_plotted_or_warned ms mapping fb kwargs p p' :
  plot_measurements ms mapping fb kwargs p = (p', Ok tt) →
  ∃ sts points msgs,
    measurements_set ms = (sts, None) ∧
    new_calls p p' = points ++ [ax_legend (handles_list p') (labels_list p') false] ∧
    Forall (λ c, ∃ x y kw, c = ax_scatter x y kw) points ∧
    warnings p' = warnings p ++ msgs ∧
    length points = length (filter (λ st, is_Some (drawn fb st)) sts) ∧
    length msgs = length (filter (λ st, ¬ is_Some (drawn fb st)) sts) ∧
    (length points + length msgs = length sts)%nat.
Proof.
  intros Hrun.
  apply plot_measurements_ok in Hrun
    as (sts & calls & msgs & h & Hset & Hall & Hlen & _ & _ & Hax & Hw).
  apply points_of_drawn in Hall.
  pose proof (Forall2_length _ _ _ Hall) as Hpoints.
  pose proof (length_filter_partition (λ st, is_Some (drawn fb st)) sts) as Hpart.
  exists sts, calls, msgs. split_and!; try done.
  - unfold new_calls. by rewrite Hax, drop_app_length.
  - clear -Hall. induction Hall as [|st c ? ? (v & x & y & _ & _ & _ & ->)];
      constructor; eauto.
  - lia.
Qed.

Lemma chain_from_iterable_stops ms :
  Exists (λ i, is_set i = false) ms → (chain_from_iterable ms).2 = Some TypeError.
Proof.
  induction 1 as [[d|l] ms Hi | [d|l] ms _ IH]; simpl; try done.
  destruct (chain_from_iterable ms). simpl in *. done.
Qed.

(** X6.  A list that mixes sets of detections with bare detections is not
    flattened: [plot_measurements] raises on it, whatever the other
    arguments, and appends nothing to the legend.  When the detections of
    the sets before the first bare detection are processed without
    exception, those are drawn and the exception is the TypeError of
    iterating over a detection. *)
Theorem mixed_measurements_raise ms mapping fb kwargs p :
  existsb is_set ms = true →
  Exists (λ i, is_set i = false) ms →
  (∃ p' e, plot_measurements ms mapping fb kwargs p = (p', Raise e) ∧
           handles_list p' = handles_list p ∧ labels_list p' = labels_list p) ∧
  (kwargs !! "linestyle" = None →
   ∀ s c, for_fold (measurement_body mapping fb (dict_update measurement_defaults kwargs))
            None (chain_from_iterable ms).1 p = (s, Ok c) →
          plot_measurements ms mapping fb kwargs p = (s, Raise TypeError)).
Proof.
  intros Hset Hbare.
  pose proof (chain_from_iterable_stops ms Hbare) as Hstop.
  unfold plot_measurements, measurements_set. rewrite Hset.
  destruct (chain_from_iterable ms) as [sts stop]. simpl in Hstop. subst stop.
  set (kw := dict_update measurement_defaults kwargs).
  pose proof (preserves_for_fold legend_kept (measurement_body mapping fb kw)
                sts None (measurement_body_kept _ _ _) p) as Hkept.
  split.
  - unfold bind at 1. case_decide; [by eexists _, _|].
    cbn [ret]. unfold bind at 1.
    destruct (for_fold _ None sts p) as [s1 [c|e1]]; simpl in Hkept.
    + exists s1, TypeError. by destruct Hkept.
    + exists s1, e1. by destruct Hkept.
  - intros Hno s c Hloop. simpl in Hloop.
    unfold bind at 1. rewrite decide_False; cbn [ret].
    + unfold bind at 1. by rewrite Hloop.
    + intros [v Hv]. unfold kw, dict_update in Hv.
      apply lookup_union_Some_raw in Hv as [Hv | [_ Hv]]; [congruence|].
      by vm_compute in Hv.
Qed.

Lemma measurement_body_own_model mapping fb1 fb2 kw c (st : State num) s :
  has_own_model st →
  measurement_body mapping fb1 kw c st s = measurement_body mapping fb2 kw c st s.
Proof.
  intros [m Hm]. unfold measurement_body, attached_model. by rewrite Hm.
Qed.

Lemma measurements_loop_own_model mapping fb1 fb2 kw sts : ∀ c s,
  Forall has_own_model sts →
  for_fold (measurement_body mapping fb1 kw) c sts s =
  for_fold (measurement_body mapping fb2 kw) c sts s.
Proof.
  induction sts as [|st sts IH]; intros c s Hall; [done|].
  apply Forall_cons in Hall as [Hst Hall]. simpl. unfold bind.
  rewrite (measurement_body_own_model mapping fb1 fb2 kw c st s Hst).
  destruct (measurement_body mapping fb2 kw c st s) as [s1 [c1|e]]; [|done].
  by apply IH.
Qed.

Lemma measurements_set_dets (P : State num → Prop) ms :
  Forall P (dets_of ms) → Forall P (measurements_set ms).1.
Proof.
  unfold measurements_set. destruct (existsb is_set ms); [|done].
  induction ms as [|[d|l] ms IH]; simpl; intros Hall.
  - constructor.
  - constructor.
  - apply Forall_app in Hall as [Hl Hms].
    destruct (chain_from_iterable ms) as [rest e]. simpl in *.
    apply Forall_app. split; [done | by apply IH].
Qed.

(** X7.  The [measurement_model] argument of [plot_measurements] is used
    for the detections that carry no model only: when every detection of
    the input carries its own model, the call does the same whatever
    model is passed (or none). *)
Theorem fallback_model_unused ms mapping fb1 fb2 kwargs p :
  Forall has_own_model (dets_of ms) →
  plot_measurements ms mapping fb1 kwargs p = plot_measurements ms mapping fb2 kwargs p.
Proof.
  intros Hall. apply measurements_set_dets in Hall.
  unfold plot_measurements.
  destruct (measurements_set ms) as [sts stop]. simpl in Hall.
  unfold bind at 1 8. case_decide; [done|]. cbn [ret].
  unfold bind at 1 7.
  by rewrite (measurements_loop_own_model mapping fb1 fb2 _ sts None p Hall).
Qed.
End MeasurementsMore.

Lemma measurements_plotted_or_warned_witness :
  ∃ (sts : list (State Q)) (points : list (AxCall Q)) (msgs : list string),
    measurements_set Demo.measurements = (sts, None) ∧
    length points = 2%nat ∧ length msgs = 2%nat ∧
    warnings (plot_measurements Demo.measurements Demo.mapping None Demo.overrides
                Plotter_init).1 = [] ++ msgs ∧
    (length points + length msgs = length sts)%nat.
Proof.
  assert (plot_measurements Demo.measurements Demo.mapping None Demo.overrides
            Plotter_init =
          ((plot_measurements Demo.measurements Demo.mapping None Demo.overrides
              Plotter_init).1, Ok tt)) as Hrun
    by (vm_compute; reflexivity).
  destruct (measurements_plotted_or_warned _ _ _ _ _ _ Hrun)
    as (sts & points & msgs & Hset & _ & _ & Hw & Hp & Hm & Hsum).
  exists sts, points, msgs.
  injection Hset as <-.
  split_and!; [reflexivity | exact Hp | exact Hm | exact Hw | exact Hsum].
Defined.

Lemma mixed_measurements_raise_witness :
  plot_measurements Demo.mixed_measurements Demo.mapping None Demo.no_kwargs Plotter_init =
  ((for_fold (measurement_body Demo.mapping None
                (dict_update measurement_defaults Demo.no_kwargs))
      None (chain_from_iterable Demo.mixed_measurements).1 Plotter_init).1,
   Raise TypeError).
Proof.
  refine (proj2 (mixed_measurements_raise Demo.mixed_measurements Demo.mapping None
                   Demo.no_kwargs Plotter_init _ _) _ _ None _).
  - reflexivity.
  - apply Exists_cons_tl, Exists_cons_hd. reflexivity.
  - reflexivity.
  - vm_compute. reflexivity.
Defined.

Lemma fallback_model_unused_witness :
  plot_measurements Demo.modelled_measurements Demo.mapping None Demo.no_kwargs
    Plotter_init =
  plot_measurements Demo.modelled_measurements Demo.mapping (Some Demo.bearing_model)
    Demo.no_kwargs Plotter_init.
Proof.
  apply fallback_model_unused. unfold dets_of, Demo.modelled_measurements. simpl.
  repeat (apply List.Forall_cons; [eexists; reflexivity|]). apply List.Forall_nil.
Defined.

(** ** get_plotting_keywords *)

Section PlottingKeywords.
Context {V : Type}.
Implicit Types (kwargs : gmap string V) (properties : gset string).

Lemma get_plotting_keywords_lookup properties kwargs key :
  (get_plotting_keywords properties kwargs).1 !! key =
    (if decide (key ∈ properties) then kwargs !! key else None) ∧
  (get_plotting_keywords properties kwargs).2 !! key =
    (if decide (key ∈ properties) then None else kwargs !! key).
Proof.
  unfold get_plotting_keywords.
  apply (map_fold_weak_ind
           (λ r m, r.1 !! key = (if decide (key ∈ properties) then m !! key else None) ∧
                   r.2 !! key = (if decide (key ∈ properties) then None else m !! key))).
  - simpl. rewrite !lookup_empty. by destruct (decide _).
  - intros i x m [cls plt] Hi [H1 H2]. simpl in *. unfold split_keyword. simpl.
    destruct (decide (key = i)) as [->|Hne].
    + destruct (decide (i ∈ properties)) as [Hin|Hout]; simpl;
        rewrite !lookup_insert_eq; done.
    + destruct (decide (i ∈ properties)) as [Hin|Hout]; simpl;
        rewrite !lookup_insert_ne by done; done.
Qed.

(** X8.  [get_plotting_keywords] partitions the keyword arguments: the
    class keywords are exactly the arguments named after a property of
    the class, the plotting keywords are all the others, each with the
    value the caller gave; no argument is lost, duplicated or changed. *)
Theorem get_plotting_keywords_partition properties kwargs :
  let class_keywords := (get_plotting_keywords properties kwargs).1 in
  let plotting_keywords := (get_plotting_keywords properties kwargs).2 in
  class_keywords = filter (λ kv, kv.1 ∈ properties) kwargs ∧
  plotting_keywords = filter (λ kv, kv.1 ∉ properties) kwargs ∧
  dom class_keywords = dom kwargs ∩ properties ∧
  dom plotting_keywords = dom kwargs ∖ properties ∧
  class_keywords ##ₘ plotting_keywords ∧
  class_keywords ∪ plotting_keywords = kwargs.
Proof.
  intros class_keywords plotting_keywords.
  assert (class_keywords = filter (λ kv, kv.1 ∈ properties) kwargs) as Hc.
  { apply map_eq. intros key. subst class_keywords.
    rewrite (proj1 (get_plotting_keywords_lookup properties kwargs key)).
    apply option_eq. intros v. rewrite map_lookup_filter_Some. simpl.
    destruct (decide (key ∈ properties)); intuition congruence. }
  assert (plotting_keywords = filter (λ kv, kv.1 ∉ properties) kwargs) as Hp.
  { apply map_eq. intros key. subst plotting_keywords.
    rewrite (proj2 (get_plotting_keywords_lookup properties kwargs key)).
    apply option_eq. intros v. rewrite map_lookup_filter_Some. simpl.
    destruct (decide (key ∈ properties)); intuition congruence. }
  split_and!; [done | done | | | |].
  - rewrite Hc. apply set_eq. intros key.
    rewrite elem_of_intersection, !elem_of_dom. unfold is_Some.
    setoid_rewrite map_lookup_filter_Some. simpl. firstorder.
  - rewrite Hp. apply set_eq. intros key.
    rewrite elem_of_difference, !elem_of_dom. unfold is_Some.
    setoid_rewrite map_lookup_filter_Some. simpl. firstorder.
  - rewrite Hc, Hp.
    apply (map_disjoint_filter_complement (λ kv, kv.1 ∈ properties)).
  - rewrite Hc, Hp.
    apply (map_filter_union_complement (λ kv, kv.1 ∈ properties)).
Qed.
End PlottingKeywords.

Example get_plotting_keywords_example :
  get_plotting_keywords TimeBasedPlotter_properties
    ({[ "legend_key" := VStr "truth"; "color" := VStr "r"; "marker" := VStr "x" ]}
       : Kwargs Q)
  = ({[ "legend_key" := VStr "truth" ]}, Demo.overrides).
Proof. vm_compute. reflexivity. Qed.

(** ** prepare_data again *)

Section PrepareDataMore.
Context {num : Type}.
Implicit Types (data_source output : list (State num)).

(** X9.  What [prepare_data] returns is a fixed point of [prepare_data]:
    a series that was accepted (not null) is accepted unchanged when it is
    prepared again, for instance when a second [TimeBasedPlotter] is built
    from the stored data of a first.  The returned series has as many
    states as the input, with the same timestamps in the same order. *)
Theorem prepare_data_idempotent data_source output :
  prepare_data data_source = Ok (Some output) →
  prepare_data output = Ok (Some output) ∧
  timestamp <$> output = timestamp <$> data_source ∧
  length output = length data_source.
Proof.
  intros Hrun.
  assert (prepare_data output = Ok (Some output) ∧
          timestamp <$> output = timestamp <$> data_source) as [Hfix Hts].
  { unfold prepare_data in Hrun.
    destruct (forallb (λ s, isinstance_State (cls s)) data_source) eqn:Hst; [|done].
    destruct (forallb (λ s, isinstance_Detection (cls s)) data_source) eqn:Hdet.
    - destruct (comprehension invert_detection data_source) as [out|e] eqn:Hinv;
        [|by destruct e].
      injection Hrun as ->.
      destruct (prepare_data_invertible data_source output) as (_ & Hts & Hcls);
        [|done|].
      { apply Forall_forall. intros s Hs. rewrite forallb_forall in Hdet.
        apply Hdet. by apply list_elem_of_In. }
      split; [|done].
      destruct output as [|s out]; [done|].
      apply prepare_data_passthrough.
      + eapply Forall_impl; [exact Hcls|]. by intros s' ->.
      + apply Exists_cons_hd. apply Forall_cons in Hcls as [-> _]. done.
    - injection Hrun as <-. split; [|done].
      unfold prepare_data. by rewrite Hst, Hdet. }
  split_and!; [done | done |].
  by rewrite <- (length_fmap timestamp output), Hts, length_fmap.
Qed.
End PrepareDataMore.

Lemma prepare_data_idempotent_witness :
  let d := Demo.detection ClsDetection (Some Demo.reversible_model) [6; 7]%Q 3 in
  prepare_data [State_init [6; 0; 7; 0]%Q 3] = Ok (Some [State_init [6; 0; 7; 0]%Q 3]) ∧
  prepare_data [d] = Ok (Some [State_init [6; 0; 7; 0]%Q 3]).
Proof.
  intros d.
  assert (prepare_data [d] = Ok (Some [State_init [6; 0; 7; 0]%Q 3])) as Hrun
    by (vm_compute; reflexivity).
  split; [exact (proj1 (prepare_data_idempotent _ _ Hrun)) | exact Hrun].
Defined.

(** ** ellipse_legend *)

Section EllipseLegendFacts.
Context {num : Type} `{!Numpy num} {Artist : Type}.
Implicit Types (handles : list Artist) (labels label_list : list string)
               (color_list : list (PyVal num)) (kwargs : Kwargs num).

Lemma legend_glyphs_ok (ellipse_kwargs : Kwargs num) color_list :
  ellipse_kwargs !! "color" = None →
  comprehension (legend_glyph ellipse_kwargs) color_list =
  Ok ((λ c, {| glyph_color := c; glyph_kwargs := ellipse_kwargs |}) <$> color_list).
Proof.
  intros Hno. induction color_list as [|c l IH]; [done|].
  simpl. unfold legend_glyph at 1.
  rewrite decide_False by (rewrite Hno; by intros [? ?]).
  unfold fmap in IH. by rewrite IH.
Qed.

Lemma ellipse_kwargs_color kwargs :
  dict_update ellipse_defaults kwargs !! "color" = kwargs !! "color".
Proof.
  unfold dict_update. destruct (kwargs !! "color") as [v|] eqn:Hk.
  - by apply lookup_union_Some_l.
  - rewrite lookup_union_r by done. by vm_compute.
Qed.

(** X10.  [ellipse_legend] keeps the entries the axes already have, in
    their order, and appends one ellipse glyph per colour, in the order of
    [color_list], and the labels of [label_list].  All glyphs share the
    keyword arguments, with [alpha = 0.2] unless the caller overrides it.
    The two lists are not checked against each other: the numbers of
    handles and of labels grow by the lengths of [color_list] and of
    [label_list], whatever these are.  A [color] keyword argument
    collides with the colour of the glyph: the call raises TypeError as
    soon as there is a glyph to make. *)
Theorem ellipse_legend_appends handles labels label_list color_list kwargs :
  let ellipse_kwargs := dict_update ellipse_defaults kwargs in
  ellipse_kwargs !! "alpha" = Some (default (VNum (lit (2 # 10))) (kwargs !! "alpha")) ∧
  (is_Some (kwargs !! "color") → color_list ≠ [] →
   ellipse_legend handles labels label_list color_list kwargs = Raise TypeError) ∧
  (kwargs !! "color" = None ∨ color_list = [] →
   ellipse_legend handles labels label_list color_list kwargs =
   Ok ((inl <$> handles) ++
       (inr <$> ((λ c, {| glyph_color := c; glyph_kwargs := ellipse_kwargs |})
                   <$> color_list)),
       labels ++ label_list)) ∧
  (∀ hs ls,
     ellipse_legend handles labels label_list color_list kwargs = Ok (hs, ls) →
     take (length handles) hs = inl <$> handles ∧
     take (length labels) ls = labels ∧
     length hs = (length handles + length color_list)%nat ∧
     length ls = (length labels + length label_list)%nat).
Proof.
  intros ellipse_kwargs.
  assert (kwargs !! "color" = None ∨ color_list = [] →
          ellipse_legend handles labels label_list color_list kwargs =
          Ok ((inl <$> handles) ++
              (inr <$> ((λ c, {| glyph_color := c; glyph_kwargs := ellipse_kwargs |})
                          <$> color_list)),
              labels ++ label_list)) as Hok.
  { intros [Hno | ->]; unfold ellipse_legend; fold ellipse_kwargs.
    - rewrite legend_glyphs_ok; [done|].
      subst ellipse_kwargs. by rewrite ellipse_kwargs_color.
    - done. }
  assert (is_Some (kwargs !! "color") → color_list ≠ [] →
          ellipse_legend handles labels label_list color_list kwargs = Raise TypeError)
    as Hraise.
  { intros Hc Hne. unfold ellipse_legend. fold ellipse_kwargs.
    destruct color_list as [|c l]; [done|]. simpl. unfold legend_glyph at 1.
    rewrite decide_True; [done|].
    subst ellipse_kwargs. by rewrite ellipse_kwargs_color. }
  split_and!; [| done | done |].
  - subst ellipse_kwargs. unfold dict_update.
    destruct (kwargs !! "alpha") as [v|] eqn:Hk; simpl.
    + by apply lookup_union_Some_l.
    + rewrite lookup_union_r by done. by vm_compute.
  - intros hs ls Hrun.
    destruct (kwargs !! "color") as [v|] eqn:Hcolor.
    + destruct color_list as [|c l].
      * rewrite Hok in Hrun by (by right). injection Hrun as <- <-.
        simpl. rewrite !app_nil_r, !length_app, !take_app_length, !length_fmap.
        rewrite <- (length_fmap (inl (B:=EllipseGlyph num)) handles) at 1.
        rewrite firstn_all. simpl. split_and!; [done | done | lia | done].
      * rewrite Hraise in Hrun by (by eauto). done.
    + rewrite Hok in Hrun by (by left). injection Hrun as <- <-.
      rewrite !length_app, !length_fmap, take_app_length.
      rewrite <- (length_fmap (inl (B:=EllipseGlyph num)) handles) at 1.
      rewrite take_app_length. done.
Qed.
End EllipseLegendFacts.

(** One colour and three labels: one glyph and three labels are added. *)
Lemma ellipse_legend_appends_witness :
  ellipse_legend [Demo.line0] ["track"] ["a"; "b"; "c"] [VStr "r"] Demo.no_kwargs
  = Ok ([inl Demo.line0;
         inr {| glyph_color := VStr "r";
                glyph_kwargs := dict_update ellipse_defaults Demo.no_kwargs |}],
        ["track"; "a"; "b"; "c"]).
Proof.
  exact (proj1 (proj2 (proj2
           (ellipse_legend_appends [Demo.line0] ["track"] ["a"; "b"; "c"]
              [VStr "r"] Demo.no_kwargs)))
           (or_introl eq_refl)).
Defined.

(** ** run_animation on well-formed input *)

Section AnimationRuns.
Context {num : Type} `{!Numpy num}.
Implicit Types (data : list (TimeBasedPlotter num)) (fig : Figure num)
               (o : TimeBasedPlotter num).

(** The figure after [plt.plot] has added [lines]. *)
Local Abbreviation with_lines fig lines :=
  {| fig_lines := fig_lines fig ++ lines; fig_xlim := fig_xlim fig;
     fig_ylim := fig_ylim fig; fig_legend := fig_legend fig |}.

Lemma with_lines_nil fig : with_lines fig [] = fig.
Proof. destruct fig. simpl. by rewrite app_nil_r. Qed.

Lemma animatable_rows o st rest :
  plotting_data o = Some (st :: rest) → animatable o →
  (2 < length (state_vector st))%nat ∧
  np_array (map state_vector (st :: rest)) = Ok (map state_vector (st :: rest)).
Proof.
  intros Ho (st' & rest' & Ho' & Hlen & Hrect).
  rewrite Ho in Ho'. injection Ho' as <- <-. split; [done|].
  simpl. rewrite (proj2 (forallb_forall _ _)); [done|].
  intros r Hr. apply in_map_iff in Hr as (s & <- & Hs).
  apply Nat.eqb_eq. rewrite Forall_forall in Hrect.
  apply Hrect. by apply list_elem_of_In.
Qed.

Lemma create_line_inv acc o fig fig1 acc1 :
  create_line acc o fig = (fig1, Ok acc1) →
  match plotting_data o with
  | None => fig1 = fig ∧ acc1 = acc
  | Some ds =>
      animatable o ∧
      ∃ line, initial_line o line ∧ fig1 = with_lines fig [line] ∧
              acc1 = (acc.1 ++ [ds], acc.2 ++ [legend_key o])
  end.
Proof.
  unfold create_line. destruct (plotting_data o) as [ds|] eqn:Ho.
  - intros Hrun. run_inv. unfold plt_plot in *. run_inv.
    match goal with H : np_array _ = Ok _ |- _ =>
      pose proof (np_array_ok _ _ H) as ->; rename H into Harr end.
    destruct ds as [|st rest]; [done|].
    simpl in Harr. destruct (forallb _ _) eqn:Hrect; [|done].
    repeat match goal with H : first_of_column _ _ = Ok _ |- _ =>
      unfold first_of_column in H; simpl in H end.
    destruct (index (state_vector st) 0) as [x|] eqn:Hx; [|done].
    destruct (index (state_vector st) 2) as [y|] eqn:Hy; [|done].
    simplify_eq. apply index_ok in Hx, Hy.
    split.
    + exists st, rest. split_and!; [done | by apply lookup_lt_Some in Hy |].
      apply Forall_forall. intros s Hs. rewrite forallb_forall in Hrect.
      apply Nat.eqb_eq, Hrect, in_map, list_elem_of_In, Hs.
    + eexists. split; [|done]. by exists st, rest, x, y.
  - intros Hrun. by run_inv.
Qed.

Lemma create_line_total acc o fig :
  animatable o → ∃ fig1 acc1, create_line acc o fig = (fig1, Ok acc1).
Proof.
  intros Ho. pose proof Ho as (st & rest & Hds & Hlen & Hrect).
  destruct (animatable_rows _ _ _ Hds Ho) as [_ Harr].
  unfold create_line. rewrite Hds.
  erewrite bind_step by (unfold lift; by rewrite Harr).
  destruct (lookup_lt_is_Some_2 (state_vector st) 0 ltac:(lia)) as [x Hx].
  destruct (lookup_lt_is_Some_2 (state_vector st) 2 ltac:(lia)) as [y Hy].
  unfold first_of_column, lift, bind, plt_plot, modify, ret, index. simpl.
  rewrite Hx, Hy. simpl. eauto.
Qed.

(** The first loop, when it goes through and no series is null. *)
Lemma create_lines_inv data : ∀ acc fig fig1 acc1,
  for_fold create_line acc data fig = (fig1, Ok acc1) →
  Forall (λ o, is_Some (plotting_data o)) data →
  Forall animatable data ∧
  acc1 = (acc.1 ++ omap plotting_data data, acc.2 ++ (legend_key <$> data)) ∧
  ∃ lines, fig1 = with_lines fig lines ∧ Forall2 initial_line data lines.
Proof.
  induction data as [|o data IH]; intros acc fig fig1 acc1 Hrun Hsome;
    cbn [for_fold] in Hrun; run_inv.
  - split_and!; [done | by destruct acc1; simpl; rewrite !app_nil_r |].
    exists []. by rewrite with_lines_nil.
  - apply Forall_cons in Hsome as [[ds Ho] Hsome].
    match goal with H : create_line _ _ _ = _ |- _ =>
      apply create_line_inv in H; rewrite Ho in H;
      destruct H as (Hanim & line & Hline & -> & ->) end.
    apply IH in Hrun as (Hall & -> & lines & -> & Hlines); [|done].
    split_and!.
    + by constructor.
    + simpl. rewrite Ho. simpl. by rewrite <- !app_assoc.
    + exists (line :: lines). split; [|by constructor].
      simpl. by rewrite <- app_assoc.
Qed.

Lemma create_lines_total data : ∀ acc fig,
  Forall animatable data →
  ∃ fig1 acc1, for_fold create_line acc data fig = (fig1, Ok acc1).
Proof.
  induction data as [|o data IH]; intros acc fig Hall; [by eexists _, _|].
  apply Forall_cons in Hall as [Ho Hall].
  destruct (create_line_total acc o fig Ho) as (fig1 & acc1 & Hline).
  cbn [for_fold]. erewrite bind_step by exact Hline. by apply IH.
Qed.

(** The generator of the axis limits. *)
Lemma all_components_inv k data xs :
  all_components k data = Ok xs →
  Forall (λ o, is_Some (plotting_data o)) data ∧
  Forall2 (λ st x, state_vector st !! k = Some x) (all_states data) xs.
Proof.
  revert xs. induction data as [|o data IH]; intros xs; simpl.
  - intros [= <-]. split; constructor.
  - destruct (plotting_data o) as [ds|] eqn:Ho; [|done].
    destruct (comprehension _ ds) as [ys|] eqn:Hys; [|done]. simpl.
    destruct (all_components k data) as [rest|]; [|done]. simpl.
    intros [= <-]. destruct (IH rest eq_refl) as [Hsome Hrest].
    split; [constructor; eauto|].
    unfold all_states. simpl. rewrite Ho. simpl.
    apply Forall2_app; [|done]. by apply comprehension_index_ok in Hys.
Qed.

Lemma all_components_total k data :
  (k ≤ 2)%nat → Forall animatable data →
  ∃ xs, all_components k data = Ok xs ∧ (data ≠ [] → xs ≠ []).
Proof.
  intros Hk. induction 1 as [|o data Ho _ (rest & IH & _)]; simpl; [by eexists|].
  destruct Ho as (st & ds & -> & Hlen & Hrect).
  destruct (comprehension_index_total state_vector k (st :: ds)) as [ys Hys].
  { constructor.
    - apply lookup_lt_is_Some_2. lia.
    - eapply Forall_impl; [exact Hrect|]. intros s Hs. simpl in Hs.
      apply lookup_lt_is_Some_2. lia. }
  rewrite Hys, IH. simpl. eexists. split; [done|]. intros _.
  apply comprehension_ok, Forall2_length in Hys. destruct ys; done.
Qed.

Lemma py_min_inv (l : list num) m : py_min l = Ok m → m ∈ l.
Proof.
  destruct l as [|x l]; [done|]. simpl. intros [= <-].
  revert x. induction l as [|y l IH]; intros x; simpl; [by left|].
  specialize (IH (if num_ltb y x then y else x)).
  destruct (num_ltb y x); [by right|].
  apply elem_of_cons in IH as [-> | IH]; [by left | by do 2 right].
Qed.

Lemma py_max_inv (l : list num) m : py_max l = Ok m → m ∈ l.
Proof.
  destruct l as [|x l]; [done|]. simpl. intros [= <-].
  revert x. induction l as [|y l IH]; intros x; simpl; [by left|].
  specialize (IH (if num_ltb x y then y else x)).
  destruct (num_ltb x y); [by right|].
  apply elem_of_cons in IH as [-> | IH]; [by left | by do 2 right].
Qed.

Lemma axis_limits_inv data fig fig1 :
  axis_limits data fig = (fig1, Ok tt) →
  ∃ xs ys x_lo x_hi y_lo y_hi,
    all_components 0 data = Ok xs ∧ all_components 2 data = Ok ys ∧
    py_min xs = Ok x_lo ∧ py_max xs = Ok x_hi ∧
    py_min ys = Ok y_lo ∧ py_max ys = Ok y_hi ∧
    fig1 = {| fig_lines := fig_lines fig; fig_xlim := Some (x_lo, x_hi);
              fig_ylim := Some (y_lo, y_hi); fig_legend := fig_legend fig |}.
Proof.
  unfold axis_limits. intros Hrun. run_inv.
  unfold plt_xlim, plt_ylim in *. run_inv.
  repeat match goal with
  | H : min_component _ _ = Ok _ |- _ => unfold min_component in H
  | H : max_component _ _ = Ok _ |- _ => unfold max_component in H
  end.
  destruct (all_components 0 data) as [xs|]; [|done].
  destruct (all_components 2 data) as [ys|]; [|done].
  simpl in *. by eexists xs, ys, _, _, _, _.
Qed.

Lemma axis_limits_total data fig :
  data ≠ [] → Forall animatable data → ∃ fig1, axis_limits data fig = (fig1, Ok tt).
Proof.
  intros Hne Hall.
  destruct (all_components_total 0 data ltac:(lia) Hall) as (xs & Hxs & Hx).
  destruct (all_components_total 2 data ltac:(lia) Hall) as (ys & Hys & Hy).
  specialize (Hx Hne). specialize (Hy Hne).
  unfold axis_limits, min_component, max_component, lift, bind, plt_xlim, plt_ylim,
    modify.
  rewrite Hxs, Hys. destruct xs, ys; try done. simpl. eauto.
Qed.

(** X11.  [run_animation] returns exactly when there is at least one
    series and every series can be drawn: it has stored data (not null)
    with at least one state, and its state vectors all have one length,
    of three components or more.  On any other input it raises. *)
Theorem run_animation_returns_iff times data fig :
  (∃ fig' line_ani, run_animation times data fig = (fig', Ok line_ani)) ↔
  data ≠ [] ∧ Forall animatable data.
Proof.
  split.
  - intros (fig' & line_ani & Hrun). unfold run_animation in Hrun.
    run_inv. destruct x as [pd keys]. run_inv.
    match goal with H : axis_limits _ _ = _ |- _ =>
      apply axis_limits_inv in H as (xs & ys & ? & ? & ? & ? & Hxs & _ & Hmin & _) end.
    apply all_components_inv in Hxs as [Hsome Hxs].
    split.
    + intros ->. simpl in Hxs. apply Forall2_nil_inv_l in Hxs as ->. done.
    + match goal with H : for_fold _ _ _ _ = _ |- _ =>
        by apply create_lines_inv in H as [? _] end.
  - intros [Hne Hall]. unfold run_animation.
    destruct (create_lines_total data ([], []) fig Hall) as (fig1 & [pd keys] & Hloop).
    destruct (axis_limits_total data fig1 Hne Hall) as [fig2 Hlim].
    erewrite bind_step by exact Hloop. cbn beta iota.
    erewrite bind_step by exact Hlim.
    unfold plt_legend, modify, bind, ret. simpl. eauto.
Qed.

(** X12.  What a call of [run_animation] that returns has done.  The
    animation has the frames it was given, an interval of 50 ms, and as
    data the stored data of every series, in the order of the input.  The
    figure has one new line per series, in that order, showing the first
    state of the series only (components 0 and 2) with the plotting
    keywords of the series, and a legend of the legend keys, in that
    order. *)
Theorem run_animation_result times data fig fig' line_ani :
  run_animation times data fig = (fig', Ok line_ani) →
  frames line_ani = times ∧ interval line_ani = 50 ∧
  Some <$> fargs line_ani = plotting_data <$> data ∧
  fig_legend fig' = Some (legend_key <$> data) ∧
  ∃ lines, fig_lines fig' = fig_lines fig ++ lines ∧
           Forall2 initial_line data lines.
Proof.
  intros Hrun. unfold run_animation in Hrun.
  run_inv. destruct x as [pd keys]. run_inv.
  match goal with H : axis_limits _ _ = _ |- _ =>
    apply axis_limits_inv in H as (xs & ys & ? & ? & ? & ? & Hxs & _ & _ & _ & _ & _ & ->)
  end.
  apply all_components_inv in Hxs as [Hsome _].
  match goal with H : for_fold _ _ _ _ = _ |- _ =>
    apply create_lines_inv in H as (_ & [= -> ->] & lines & -> & Hlines); [|done] end.
  unfold plt_legend in *. run_inv. simpl.
  split_and!; [done | done | | done | by exists lines].
  clear -Hsome. induction Hsome as [|o data [ds Ho] _ IH]; [done|].
  simpl. rewrite Ho. simpl. f_equal. exact IH.
Qed.
End AnimationRuns.

(** ** run_animation with a null series *)

Section NullSeries.
Context {num : Type} `{!Numpy num}.
Implicit Types (data : list (TimeBasedPlotter num)) (fig : Figure num).

(** The first loop goes through exactly when every series that is not
    null can be drawn. *)
Lemma create_lines_through data : ∀ acc fig,
  (∃ fig1 acc1, for_fold create_line acc data fig = (fig1, Ok acc1)) ↔
  Forall (λ o, plotting_data o = None ∨ animatable o) data.
Proof.
  induction data as [|o data IH]; intros acc fig; cbn [for_fold].
  - split; [constructor | by eexists _, _].
  - split.
    + intros (fig1 & acc1 & Hrun). run_inv.
      match goal with H : create_line _ _ _ = _ |- _ =>
        apply create_line_inv in H; rename H into Hline end.
      constructor.
      * destruct (plotting_data o); [right; tauto | by left].
      * apply (IH x x0). eauto.
    + intros [Ho Hall]%Forall_cons.
      assert (∃ fig1 acc1, create_line acc o fig = (fig1, Ok acc1))
        as (fig1 & acc1 & Hline).
      { destruct Ho as [Ho | Ho]; [|by apply create_line_total].
        unfold create_line. rewrite Ho. by eexists _, _. }
      erewrite bind_step by exact Hline. by apply IH.
Qed.

Lemma create_lines_raise data : ∀ acc fig fig1 e,
  for_fold create_line acc data fig = (fig1, Raise e) →
  e = IndexError ∨ e = ValueError.
Proof.
  induction data as [|o data IH]; intros acc fig fig1 e; cbn [for_fold]; [done|].
  unfold bind at 1.
  destruct (create_line acc o fig) as [fig0 [acc0|e0]] eqn:Hline.
  - apply IH.
  - intros [= <- <-]. by eapply create_line_raises.
Qed.

(** C10.  When a series of the collection has null stored data,
    [run_animation] raises.  The first loop skips the null series: it
    creates lines for the other series only, and it goes through exactly
    when each of them can be drawn.  The computation of the axis limits
    does not skip the null series: once the first loop has gone through,
    the generator over the stored data of every series fails on the null
    one with TypeError, and that is the exception of [run_animation],
    raised before any limit is set.  When the first loop raises, for a
    series that cannot be drawn, that exception (IndexError or
    ValueError) is the one of [run_animation], and the axis limits are
    not computed. *)
Theorem run_animation_null_series times data fig :
  Exists (λ o, plotting_data o = None) data →
  (∃ fig' e, run_animation times data fig = (fig', Raise e)) ∧
  (∀ fig1 acc,
     for_fold create_line ([], []) data fig = (fig1, Ok acc) →
     length (fig_lines fig1) =
       (length (fig_lines fig) + length (omap plotting_data data))%nat ∧
     (length (omap plotting_data data) < length data)%nat ∧
     min_component 0 data = Raise TypeError ∧
     axis_limits data fig1 = (fig1, Raise TypeError) ∧
     run_animation times data fig = (fig1, Raise TypeError)) ∧
  ((∃ fig1 acc, for_fold create_line ([], []) data fig = (fig1, Ok acc)) ↔
   Forall (λ o, plotting_data o = None ∨ animatable o) data) ∧
  (∀ fig1 e,
     for_fold create_line ([], []) data fig = (fig1, Raise e) →
     run_animation times data fig = (fig1, Raise e) ∧
     (e = IndexError ∨ e = ValueError) ∧
     limits_kept fig fig1).
Proof.
  intros Hex.
  assert (∀ fig1 acc,
     for_fold create_line ([], []) data fig = (fig1, Ok acc) →
     min_component 0 data = Raise TypeError ∧
     axis_limits data fig1 = (fig1, Raise TypeError) ∧
     run_animation times data fig = (fig1, Raise TypeError)) as Hlimits.
  { intros fig1 acc Hrun.
    assert (min_component 0 data = Raise TypeError) as Hmin.
    { unfold min_component. by erewrite all_components_null. }
    assert (axis_limits data fig1 = (fig1, Raise TypeError)) as Hax.
    { unfold axis_limits, bind, lift. by rewrite Hmin. }
    split_and!; [done | done |].
    unfold run_animation. erewrite bind_step by exact Hrun.
    destruct acc as [pd keys]. by apply bind_raise. }
  split_and!.
  - destruct (for_fold create_line ([], []) data fig) as [fig1 [acc|e]] eqn:Hrun.
    + exists fig1, TypeError. by eapply Hlimits.
    + exists fig1, e. unfold run_animation. by apply bind_raise.
  - intros fig1 acc Hrun. split_and!; [| |by eapply Hlimits..].
    + by apply create_lines_count in Hrun as [_ ?].
    + clear -Hex. induction Hex as [o data Ho | o data _ IH]; simpl.
      * rewrite Ho. pose proof (length_omap_le plotting_data data).
        unfold omap in *. lia.
      * destruct (plotting_data o); simpl; unfold omap in *; lia.
  - apply create_lines_through.
  - intros fig1 e Hrun. split_and!.
    + unfold run_animation. by apply bind_raise.
    + by eapply create_lines_raise.
    + pose proof (create_lines_limits ([], []) data fig) as Hkept.
      by rewrite Hrun in Hkept.
Qed.
End NullSeries.

(** The collection of the example series and a null series: the line of the
    example series is created, then the axis limits raise. *)
Lemma run_animation_null_series_witness :
  run_animation [0; 1] [Demo.series; Demo.null_series] plt_figure =
  ((for_fold create_line ([], []) [Demo.series; Demo.null_series] plt_figure).1,
   Raise TypeError).
Proof.
  assert (for_fold create_line ([], []) [Demo.series; Demo.null_series] plt_figure =
          ((for_fold create_line ([], []) [Demo.series; Demo.null_series] plt_figure).1,
           Ok ([default [] (plotting_data Demo.series)], ["track"]))) as Hrun
    by (vm_compute; reflexivity).
  refine (proj2 (proj2 (proj2 (proj2
    (proj1 (proj2
       (run_animation_null_series [0; 1] [Demo.series; Demo.null_series] plt_figure _))
       _ _ Hrun))))).
  apply Exists_cons_tl, Exists_cons_hd. reflexivity.
Defined.

(** C10, as stated, fails on a null series next to a series without
    states: the exception is the IndexError of the first loop, on the
    empty series, and the axis limits are not computed. *)
Lemma null_series_fails_in_line_creation :
  let data := [Demo.null_series; Demo.empty_series] in
  Exists (λ o, plotting_data o = None) data ∧
  for_fold create_line ([], []) data plt_figure = (plt_figure, Raise IndexError) ∧
  run_animation [0] data plt_figure = (plt_figure, Raise IndexError) ∧
  axis_limits data plt_figure = (plt_figure, Raise TypeError).
Proof.
  split_and!; [apply Exists_cons_hd; reflexivity | vm_compute; reflexivity ..].
Qed.

(** ** The axis limits of the animation *)

Section AxisLimits.
Context {num : Type} `{!Numpy num} `{!NumpyOrder num}.
Implicit Types (data : list (TimeBasedPlotter num)) (fig : Figure num).

Lemma py_min_least (l : list num) m :
  py_min l = Ok m → ∀ y, y ∈ l → num_ltb y m = false.
Proof.
  destruct l as [|x l]; [done|]. simpl. intros [= <-].
  assert (∀ best seen,
            (∀ y, y ∈ seen → num_ltb y best = false) →
            ∀ y, y ∈ seen ++ l →
                 num_ltb y (foldl (λ best y, if num_ltb y best then y else best) best l)
                 = false) as Hloop.
  { induction l as [|a l IH]; intros best seen Hseen y Hy; simpl.
    - rewrite app_nil_r in Hy. auto.
    - apply (IH _ (seen ++ [a])); [|by rewrite <- app_assoc].
      intros y' Hy'. apply elem_of_app in Hy' as [Hy'|Hy'].
      + destruct (num_ltb a best) eqn:Hab; [|auto].
        eapply num_ltb_negtrans; [by apply Hseen|]. by apply num_ltb_asym.
      + apply list_elem_of_singleton in Hy' as ->.
        destruct (num_ltb a best) eqn:Hab; [apply num_ltb_irrefl | done]. }
  intros y Hy. apply (Hloop x [x]); [|done].
  intros y' ->%list_elem_of_singleton. apply num_ltb_irrefl.
Qed.

Lemma py_max_greatest (l : list num) m :
  py_max l = Ok m → ∀ y, y ∈ l → num_ltb m y = false.
Proof.
  destruct l as [|x l]; [done|]. simpl. intros [= <-].
  assert (∀ best seen,
            (∀ y, y ∈ seen → num_ltb best y = false) →
            ∀ y, y ∈ seen ++ l →
                 num_ltb (foldl (λ best y, if num_ltb best y then y else best) best l) y
                 = false) as Hloop.
  { induction l as [|a l IH]; intros best seen Hseen y Hy; simpl.
    - rewrite app_nil_r in Hy. auto.
    - apply (IH _ (seen ++ [a])); [|by rewrite <- app_assoc].
      intros y' Hy'. apply elem_of_app in Hy' as [Hy'|Hy'].
      + destruct (num_ltb best a) eqn:Hab; [|auto].
        eapply num_ltb_negtrans; [|by apply Hseen]. by apply num_ltb_asym.
      + apply list_elem_of_singleton in Hy' as ->.
        destruct (num_ltb best a) eqn:Hab; [apply num_ltb_irrefl | done]. }
  intros y Hy. apply (Hloop x [x]); [|done].
  intros y' ->%list_elem_of_singleton. apply num_ltb_irrefl.
Qed.

Lemma component_range_of k (sts : list (State num)) xs lo hi :
  Forall2 (λ st x, state_vector st !! k = Some x) sts xs →
  py_min xs = Ok lo → py_max xs = Ok hi →
  component_range k sts lo hi.
Proof.
  intros Hxs Hmin Hmax.
  assert (∀ x, x ∈ xs → ∃ st, st ∈ sts ∧ state_vector st !! k = Some x) as Hfrom.
  { intros x [i Hi]%list_elem_of_lookup_1.
    destruct (Forall2_lookup_r _ _ _ _ _ Hxs Hi) as (st & Hst & Hx).
    exists st. split; [by eapply list_elem_of_lookup_2 | done]. }
  split_and!.
  - apply Hfrom. by apply py_min_inv.
  - apply Hfrom. by apply py_max_inv.
  - intros st x [i Hi]%list_elem_of_lookup_1 Hx.
    destruct (Forall2_lookup_l _ _ _ _ _ Hxs Hi) as (x' & Hx' & Hst).
    assert (x' = x) as -> by congruence.
    apply list_elem_of_lookup_2 in Hx'.
    split; [by eapply py_min_least | by eapply py_max_greatest].
Qed.

(** X13.  When [run_animation] returns, the limits it has passed to
    [plt.xlim] and [plt.ylim] are the least and the largest component 0,
    respectively component 2, over all states of all series: each limit
    is the component of some state, and no state of any series lies
    outside of them.  (For scalars whose [<] is a strict weak order, that
    is, without NaN.) *)
Theorem axis_limits_cover times data fig fig' line_ani :
  run_animation times data fig = (fig', Ok line_ani) →
  ∃ x_lo x_hi y_lo y_hi,
    fig_xlim fig' = Some (x_lo, x_hi) ∧ fig_ylim fig' = Some (y_lo, y_hi) ∧
    component_range 0 (all_states data) x_lo x_hi ∧
    component_range 2 (all_states data) y_lo y_hi.
Proof.
  intros Hrun. unfold run_animation in Hrun.
  run_inv. destruct x as [pd keys]. run_inv.
  match goal with H : axis_limits _ _ = _ |- _ =>
    apply axis_limits_inv in H
      as (xs & ys & x_lo & x_hi & y_lo & y_hi & Hxs & Hys & ? & ? & ? & ? & ->)
  end.
  apply all_components_inv in Hxs as [_ Hxs].
  apply all_components_inv in Hys as [_ Hys].
  unfold plt_legend in *. run_inv. simpl.
  exists x_lo, x_hi, y_lo, y_hi.
  split_and!; [done | done | by eapply component_range_of ..].
Qed.
End AxisLimits.

(** ** The frames of the animation *)

Section Frames.
Context {num : Type} `{!Numpy num}.
Implicit Types (lines : list (Line num)) (data_list : list (option (list (State num))))
               (sts : list (State num)).

Lemma np_size_zero (rows : list (Vector num)) :
  Forall (λ r, length r = 0%nat) rows → np_size rows = 0%nat.
Proof. induction 1 as [|r rows Hr _ IH]; simpl; [done | lia]. Qed.

Lemma np_size_regular st sts :
  Forall (λ s, length (state_vector s) = length (state_vector st)) sts →
  (0 < np_size (map state_vector (st :: sts)))%nat ↔
  (0 < length (state_vector st))%nat.
Proof.
  intros Hreg. simpl. split; [|lia]. intros Hpos.
  destruct (length (state_vector st)) eqn:Hlen; [|lia].
  rewrite np_size_zero in Hpos; [lia|].
  apply Forall_forall. intros r Hr.
  apply list_elem_of_In, in_map_iff in Hr as (s & <- & Hs).
  rewrite Forall_forall in Hreg. apply Hreg. by apply list_elem_of_In.
Qed.

Lemma np_array_regular st sts :
  np_array (map state_vector (st :: sts)) = Ok (map state_vector (st :: sts)) ↔
  Forall (λ s, length (state_vector s) = length (state_vector st)) sts.
Proof.
  simpl. destruct (forallb _ _) eqn:Hrect.
  - split; [intros _ | done]. apply Forall_forall. intros s Hs.
    rewrite forallb_forall in Hrect.
    apply Nat.eqb_eq, Hrect, in_map, list_elem_of_In, Hs.
  - split; [done|]. intros Hreg. exfalso.
    assert (forallb (λ r', length r' =? length (state_vector st))%nat
              (map state_vector sts) = true) as Htrue; [|congruence].
    apply forallb_forall. intros r Hr. apply in_map_iff in Hr as (s & <- & Hs).
    apply Nat.eqb_eq. rewrite Forall_forall in Hreg.
    apply Hreg. by apply list_elem_of_In.
Qed.

Lemma column_regular k st sts :
  Forall (λ s, length (state_vector s) = length (state_vector st)) sts →
  (k < length (state_vector st))%nat →
  ∃ xs, column k (map state_vector (st :: sts)) = Ok xs.
Proof.
  intros Hreg Hk.
  destruct (comprehension_index_total state_vector k (st :: sts)) as [xs Hxs].
  { constructor; [by apply lookup_lt_is_Some_2|].
    eapply Forall_impl; [exact Hreg|]. intros s Hs. simpl in Hs.
    apply lookup_lt_is_Some_2. lia. }
  exists xs. etrans; [|exact Hxs].
  exact (comprehension_fmap (λ r, index r k) state_vector (st :: sts)).
Qed.

Lemma update_line_ready t i entry lines lines1 :
  update_line t (i, entry) lines = (lines1, Ok tt) →
  frame_ready t entry (lines !! i).
Proof.
  unfold update_line, frame_ready. destruct entry as [data_source|]; [|done].
  intros Hrun. run_inv.
  match goal with H : np_array _ = Ok _ |- _ =>
    pose proof (np_array_ok _ _ H) as ->; rename H into Harr end.
  destruct (visible t data_source) as [|st rest]; [done|].
  pose proof (proj1 (np_array_regular st rest) Harr) as Hreg.
  split; [done|]. intros Hpos.
  apply (np_size_regular st rest Hreg), Nat.ltb_lt in Hpos.
  rewrite Hpos in Hrun. run_inv. unfold get_line in *. simplify_eq.
  split.
  - match goal with H : index _ i = Ok _ |- _ => apply index_ok in H end. eauto.
  - match goal with H : column 2 _ = Ok _ |- _ =>
      apply column_ok, Forall2_cons_inv_l in H as (y & ys & Hy & _ & _) end.
    by apply lookup_lt_Some in Hy.
Qed.

Lemma update_line_total t i entry lines :
  frame_ready t entry (lines !! i) →
  ∃ lines1, update_line t (i, entry) lines = (lines1, Ok tt).
Proof.
  unfold update_line, frame_ready. destruct entry as [data_source|]; [|by eexists].
  destruct (visible t data_source) as [|st rest]; [by eexists|].
  intros [Hreg Hpos].
  erewrite bind_step
    by (unfold lift; by rewrite (proj2 (np_array_regular st rest) Hreg)).
  destruct (Nat.ltb 0 (np_size _)) eqn:Hsize; [|by eexists].
  apply Nat.ltb_lt, (np_size_regular st rest Hreg) in Hsize.
  destruct (Hpos Hsize) as [[line Hline] Hlen].
  destruct (column_regular 0 st rest Hreg ltac:(lia)) as [xs Hxs].
  destruct (column_regular 2 st rest Hreg ltac:(lia)) as [ys Hys].
  erewrite bind_step by (unfold get_line, index; by rewrite Hline).
  erewrite bind_step by (unfold lift; by rewrite Hxs).
  erewrite bind_step by (unfold lift; by rewrite Hys).
  by eexists.
Qed.

Lemma frame_ready_some t entry (old old' : option (Line num)) :
  frame_ready t entry old → (is_Some old → is_Some old') → frame_ready t entry old'.
Proof.
  unfold frame_ready. destruct entry as [data_source|]; [|done].
  destruct (visible t data_source); [done|].
  intros [Hreg Hpos] Hsome. split; [done|]. intros Hlen.
  destruct (Hpos Hlen). auto.
Qed.

Lemma update_lines_ready t data_list : ∀ k lines lines',
  for_each (update_line t) (zip (seq k (length data_list)) data_list) lines
    = (lines', Ok tt) →
  ∀ j entry, data_list !! j = Some entry →
             frame_ready t entry (lines !! (k + j)%nat).
Proof.
  induction data_list as [|entry rest IH]; intros k lines lines' Hrun j e He;
    cbn [for_each zip_with seq length] in Hrun; [by rewrite lookup_nil in He|].
  run_inv.
  match goal with H : update_line _ _ _ = _ |- _ => rename H into Hstep end.
  destruct j as [|j]; simpl in He.
  - injection He as <-. rewrite Nat.add_0_r. by eapply update_line_ready.
  - specialize (IH _ _ _ Hrun j e He).
    apply update_line_ok in Hstep.
    rewrite (line_step_other _ _ _ _ _ (Datatypes.S k + j)%nat Hstep) in IH by lia.
    by replace (k + Datatypes.S j)%nat with (Datatypes.S k + j)%nat by lia.
Qed.

Lemma update_lines_total t data_list : ∀ k lines,
  (∀ j entry, data_list !! j = Some entry →
              frame_ready t entry (lines !! (k + j)%nat)) →
  ∃ lines', for_each (update_line t) (zip (seq k (length data_list)) data_list) lines
            = (lines', Ok tt).
Proof.
  induction data_list as [|entry rest IH]; intros k lines Hready;
    cbn [for_each zip_with seq length]; [by eexists|].
  destruct (update_line_total t k entry lines) as [lines1 Hstep].
  { specialize (Hready 0%nat entry eq_refl). by rewrite Nat.add_0_r in Hready. }
  erewrite bind_step by exact Hstep.
  apply IH. intros j e He.
  apply update_line_ok in Hstep.
  rewrite (line_step_other _ _ _ _ _ (Datatypes.S k + j)%nat Hstep) by lia.
  replace (Datatypes.S k + j)%nat with (k + Datatypes.S j)%nat by lia.
  by apply Hready.
Qed.

(** X14.  A frame of the animation goes through exactly when every
    series of [data_list] is ready for it: a null series always is; of any
    other series, the state vectors of the states up to the frame time
    must have one length, and where there is such a state (with a vector
    that is not empty) the list of lines must have a line at the position
    of the series and the vectors a component 2. *)
Theorem update_animation_returns_iff t data_list lines :
  (∃ lines' r, update_animation t data_list lines = (lines', Ok r)) ↔
  ∀ i entry, data_list !! i = Some entry → frame_ready t entry (lines !! i).
Proof.
  unfold update_animation, enumerate. split.
  - intros (lines' & r & Hrun). run_inv.
    intros i entry Hi. by eapply (update_lines_ready t data_list 0).
  - intros Hready.
    destruct (update_lines_total t data_list 0 lines Hready) as [lines' Hrun].
    erewrite bind_step by exact Hrun. by eexists _, _.
Qed.

Lemma np_size_visible_mono t t' sts :
  t ≤ t' →
  (np_size (state_vector <$> visible t sts) ≤
   np_size (state_vector <$> visible t' sts))%nat.
Proof.
  intros Hle. unfold visible. induction sts as [|s sts IH]; [done|].
  assert (∀ r (rows : list (Vector num)),
            np_size (r :: rows) = (length r + np_size rows)%nat) as Hcons by done.
  rewrite !filter_cons.
  destruct (decide (timestamp s ≤ t)), (decide (timestamp s ≤ t'));
    rewrite ?fmap_cons, ?Hcons; lia.
Qed.

(** X15.  The picture of a frame does not depend on the frames shown
    before it, as long as time does not go back: showing the frame at [t]
    and then the frame at [t'], with [t ≤ t'], leaves the lines as
    showing the frame at [t'] alone does.  In particular showing a frame
    twice is showing it once. *)
Theorem update_animation_later_frame t t' data_list lines lines1 lines2 r1 r2 :
  t ≤ t' →
  update_animation t data_list lines = (lines1, Ok r1) →
  update_animation t' data_list lines1 = (lines2, Ok r2) →
  update_animation t' data_list lines = (lines2, Ok lines2).
Proof.
  intros Hle H1 H2. unfold update_animation, enumerate in *. run_inv.
  rename Hstep0 into H1, Hstep into H2, r1 into lines1, r2 into lines2.
  pose proof (update_lines_ok _ _ _ _ _ H1) as (Hlen1 & Hout1 & Hin1).
  pose proof (update_lines_ok _ _ _ _ _ H2) as (Hlen2 & Hout2 & Hin2).
  pose proof (update_lines_ready _ _ _ _ _ H2) as Hready2.
  destruct (update_lines_total t' data_list 0 lines) as [lines3 H3].
  { intros j entry Hj. eapply frame_ready_some; [by apply Hready2|].
    rewrite !lookup_lt_is_Some. lia. }
  erewrite bind_step by exact H3. unfold gets, id.
  pose proof (update_lines_ok _ _ _ _ _ H3) as (Hlen3 & Hout3 & Hin3).
  assert (lines3 = lines2) as ->; [|done].
  apply list_eq. intros j. destruct (data_list !! j) as [entry|] eqn:Hj.
  - specialize (Hin1 j entry Hj). specialize (Hin2 j entry Hj).
    specialize (Hin3 j entry Hj). simpl in Hin1, Hin2, Hin3.
    unfold line_result in *. destruct entry as [data_source|]; [|congruence].
    pose proof (np_size_visible_mono t t' data_source Hle) as Hmono.
    simpl in Hin1, Hin2, Hin3.
    destruct (Nat.ltb 0 (np_size (state_vector <$> visible t' data_source)))
      eqn:Hsize'.
    + destruct Hin2 as (l1 & xs & ys & Hl1 & Hx & Hy & ->).
      destruct Hin3 as (l0 & xs0 & ys0 & Hl0 & Hx0 & Hy0 & ->).
      assert (line_kwargs l1 = line_kwargs l0) as ->.
      { destruct (Nat.ltb 0 (np_size (state_vector <$> visible t data_source))).
        - destruct Hin1 as (l & ? & ? & Hl & _ & _ & Hnew).
          rewrite Hl1 in Hnew. rewrite Hl0 in Hl. by simplify_eq.
        - congruence. }
      congruence.
    + apply Nat.ltb_ge in Hsize'.
      assert (Nat.ltb 0 (np_size (state_vector <$> visible t data_source)) = false)
        as Hsize by (apply Nat.ltb_ge; lia).
      rewrite Hsize in Hin1. congruence.
  - apply lookup_ge_None in Hj. rewrite Hout3, Hout2, Hout1 by lia. done.
Qed.
End Frames.

(** ** The animation that run_animation sets up *)

Section AnimationFrames.
Context {num : Type} `{!Numpy num}.
Implicit Types (data : list (TimeBasedPlotter num)) (fig : Figure num)
               (o : TimeBasedPlotter num).

Lemma run_animation_inv times data fig fig' line_ani :
  run_animation times data fig = (fig', Ok line_ani) →
  Forall animatable data ∧ fargs line_ani = omap plotting_data data ∧
  ∃ lines, fig_lines fig' = fig_lines fig ++ lines ∧ Forall2 initial_line data lines.
Proof.
  intros Hrun. unfold run_animation in Hrun.
  run_inv. destruct x as [pd keys]. run_inv.
  match goal with H : axis_limits _ _ = _ |- _ =>
    apply axis_limits_inv in H as (xs & ys & ? & ? & ? & ? & Hxs & _ & _ & _ & _ & _ & ->)
  end.
  apply all_components_inv in Hxs as [Hsome _].
  match goal with H : for_fold _ _ _ _ = _ |- _ =>
    apply create_lines_inv in H as (Hall & [= -> ->] & lines & -> & Hlines); [|done] end.
  unfold plt_legend in *. run_inv. simpl.
  split_and!; [done | done | by exists lines].
Qed.

Lemma stored_data_all data :
  Forall animatable data → Some <$> omap plotting_data data = plotting_data <$> data.
Proof.
  induction 1 as [|o data (st & rest & Ho & _) _ IH]; [done|].
  simpl. rewrite Ho. simpl. f_equal. exact IH.
Qed.

Lemma animatable_visible t o st rest :
  animatable o → plotting_data o = Some (st :: rest) →
  (2 < length (state_vector st))%nat ∧
  Forall (λ s, length (state_vector s) = length (state_vector st))
         (visible t (st :: rest)).
Proof.
  intros (st' & rest' & Ho' & Hlen & Hrect) Ho.
  rewrite Ho in Ho'. injection Ho' as <- <-. split; [done|].
  apply Forall_forall. intros s [_ Hs]%list_elem_of_filter.
  apply elem_of_cons in Hs as [-> | Hs]; [done|].
  rewrite Forall_forall in Hrect. by apply Hrect.
Qed.

Lemma animatable_ready t o line :
  animatable o → frame_ready t (plotting_data o) (Some line).
Proof.
  intros Ho. pose proof Ho as (st & rest & Hds & _).
  destruct (animatable_visible t o st rest Ho Hds) as [Hlen Hvis].
  rewrite Hds. unfold frame_ready.
  destruct (visible t (st :: rest)) as [|s more]; [done|].
  apply Forall_cons in Hvis as [Hs Hmore]. split.
  - eapply Forall_impl; [exact Hmore|]. intros s' Hs'. simpl in Hs'. congruence.
  - intros _. split; [eauto | lia].
Qed.

Lemma played_line_initial o line : initial_line o line → played_line [] o line.
Proof.
  intros (st & rest & x & y & Hds & Hx & Hy & ->). exists st, rest.
  unfold shown_states. simpl.
  split_and!; [done | by repeat constructor | by repeat constructor | done].
Qed.

Lemma shown_states_snoc earlier t (st : State num) rest :
  shown_states (earlier ++ [t]) st rest =
  match visible t (st :: rest) with
  | [] => shown_states earlier st rest
  | v => v
  end.
Proof. unfold shown_states. by rewrite foldl_app. Qed.

Lemma visible_none_earlier u t (sts : list (State num)) :
  u ≤ t → visible t sts = [] → visible u sts = [].
Proof.
  intros Hle. unfold visible. induction sts as [|s sts IH]; [done|].
  rewrite !filter_cons.
  destruct (decide (timestamp s ≤ t)); [done|].
  rewrite decide_False by lia. exact IH.
Qed.

Lemma shown_states_latest earlier t (st : State num) rest :
  Forall (λ u, u ≤ t) earlier →
  shown_states (earlier ++ [t]) st rest =
  match visible t (st :: rest) with [] => [st] | v => v end.
Proof.
  intros Hle. rewrite shown_states_snoc.
  destruct (visible t (st :: rest)) as [|s more] eqn:Hvis; [|done].
  unfold shown_states. generalize [st].
  induction Hle as [|u earlier Hu _ IH]; intros cur; cbn [foldl]; [done|].
  by rewrite (visible_none_earlier u t (st :: rest) Hu Hvis).
Qed.

(** One frame, on lines that show the frames [earlier]. *)
Lemma frame_step t data earlier (lines : list (Line num)) :
  Forall animatable data →
  Forall2 (played_line earlier) data lines →
  ∃ lines',
    update_animation t (plotting_data <$> data) lines = (lines', Ok lines') ∧
    Forall2 (played_line (earlier ++ [t])) data lines'.
Proof.
  intros Hall Hshown.
  assert (∀ i entry, (plotting_data <$> data) !! i = Some entry →
                     frame_ready t entry (lines !! (0 + i)%nat)) as Hready.
  { intros i entry Hi. rewrite list_lookup_fmap in Hi.
    destruct (data !! i) as [o|] eqn:Ho; [|done]. injection Hi as <-.
    destruct (Forall2_lookup_l _ _ _ _ _ Hshown Ho) as (line & Hline & _).
    change (0 + i)%nat with i. rewrite Hline. apply animatable_ready.
    by eapply Forall_lookup_1. }
  destruct (update_lines_total t _ 0 lines Hready) as [lines' Hrun'].
  exists lines'. unfold update_animation, enumerate.
  erewrite bind_step by exact Hrun'. split; [done|].
  pose proof (update_lines_ok _ _ _ _ _ Hrun') as (Hlen & _ & Hin).
  apply Forall2_same_length_lookup_2.
  { rewrite Hlen. by eapply Forall2_length. }
  intros i o line' Ho Hline'.
  destruct (Forall2_lookup_l _ _ _ _ _ Hshown Ho)
    as (line0 & Hline0 & (st & rest & Hds & Hx & Hy & Hkw)).
  specialize (Hin i (plotting_data o)).
  rewrite list_lookup_fmap, Ho in Hin. specialize (Hin eq_refl).
  change (0 + i)%nat with i in Hin. rewrite Hline0, Hline', Hds in Hin.
  unfold line_result in Hin.
  destruct (animatable_visible t o st rest) as [Hlen3 Hvis];
    [by eapply Forall_lookup_1 | done |].
  exists st, rest. split; [done|]. rewrite shown_states_snoc.
  destruct (visible t (st :: rest)) as [|s more].
  - simpl in Hin. injection Hin as ->. by split_and!.
  - apply Forall_cons in Hvis as [Hs _].
    destruct (Nat.ltb 0 (np_size (state_vector <$> s :: more))) eqn:Hsize.
    + destruct Hin as (line & xs & ys & [= <-] & Hxs & Hys & [= ->]). simpl.
      split_and!; [| | done].
      * apply column_ok in Hxs. by apply Forall2_fmap_l in Hxs.
      * apply column_ok in Hys. by apply Forall2_fmap_l in Hys.
    + apply Nat.ltb_ge in Hsize. simpl in Hsize. lia.
Qed.

(** The frames [shown], one after the other. *)
Lemma play_frames data :
  Forall animatable data →
  ∀ shown earlier (lines : list (Line num)),
    Forall2 (played_line earlier) data lines →
    ∃ lines',
      for_each (λ t, update_animation t (plotting_data <$> data) ;; ret tt) shown lines
        = (lines', Ok tt) ∧
      Forall2 (played_line (earlier ++ shown)) data lines'.
Proof.
  intros Hall. induction shown as [|t shown IH]; intros earlier lines Hlines.
  - exists lines. by rewrite app_nil_r.
  - destruct (frame_step t data earlier lines Hall Hlines) as (lines1 & Hrun1 & Hlines1).
    destruct (IH (earlier ++ [t]) lines1 Hlines1) as (lines2 & Hrun2 & Hlines2).
    exists lines2. cbn [for_each].
    erewrite bind_step by (erewrite bind_step by exact Hrun1; reflexivity).
    split; [exact Hrun2|]. by rewrite <- app_assoc in Hlines2.
Qed.

(** X16.  The animation that [run_animation] has set up plays without
    exception.  For any sequence [shown] of frame times, in particular
    for the frames of the animation and for every prefix of them, the
    calls of [update_animation] for these frames, one after the other on
    the lines and the data that [run_animation] hands to the animation,
    all return.  After them the line of each series shows the states of
    the series up to the time of the last frame that had such a state,
    and the first state of the series alone when no frame had one.  When
    the last frame is not earlier than the frames before it, that is: the
    states up to the time of the last frame, or the first state when there
    is none yet.  (A frame that goes back in time to before the first
    state leaves the later picture on the line.) *)
Theorem animation_frames_succeed times data fig fig' line_ani shown :
  run_animation times data fig = (fig', Ok line_ani) →
  ∃ lines',
    play {| frames := shown; fargs := fargs line_ani; interval := interval line_ani |}
         (drop (length (fig_lines fig)) (fig_lines fig')) = (lines', Ok tt) ∧
    Forall2 (played_line shown) data lines' ∧
    (∀ earlier t, shown = earlier ++ [t] → Forall (λ u, u ≤ t) earlier →
                  Forall2 (frame_line t) data lines').
Proof.
  intros Hrun.
  destruct (run_animation_inv _ _ _ _ _ Hrun)
    as (Hall & Hfargs & lines & Hlines & Hinit).
  rewrite Hlines, drop_app_length. unfold play. cbn [frames fargs].
  rewrite Hfargs, (stored_data_all data Hall).
  destruct (play_frames data Hall shown [] lines) as (lines' & Hplay & Hshown).
  { eapply Forall2_impl; [exact Hinit|]. apply played_line_initial. }
  exists lines'. split_and!; [exact Hplay | exact Hshown |].
  intros earlier t -> Hle. eapply Forall2_impl; [exact Hshown|].
  intros o line (st & rest & Ho & Hx & Hy & Hkw). exists st, rest.
  split; [done|]. cbn zeta.
  by rewrite <- (shown_states_latest earlier t st rest Hle).
Qed.
End AnimationFrames.

(** ** The example series, animated *)

Lemma run_animation_result_witness :
  fig_legend (run_animation [0; 1; 2] [Demo.series] plt_figure).1 = Some ["track"].
Proof.
  assert (run_animation [0; 1; 2] [Demo.series] plt_figure =
          ((run_animation [0; 1; 2] [Demo.series] plt_figure).1,
           Ok {| frames := [0; 1; 2];
                 fargs := [default [] (plotting_data Demo.series)];
                 interval := 50 |})) as Hrun by (vm_compute; reflexivity).
  exact (proj1 (proj2 (proj2 (proj2 (run_animation_result _ _ _ _ _ Hrun))))).
Defined.

Lemma axis_limits_cover_witness :
  ∃ x_lo x_hi y_lo y_hi,
    fig_xlim (run_animation [0; 1; 2] [Demo.series] plt_figure).1 = Some (x_lo, x_hi) ∧
    fig_ylim (run_animation [0; 1; 2] [Demo.series] plt_figure).1 = Some (y_lo, y_hi) ∧
    component_range 0 (all_states [Demo.series]) x_lo x_hi ∧
    component_range 2 (all_states [Demo.series]) y_lo y_hi.
Proof.
  assert (run_animation [0; 1; 2] [Demo.series] plt_figure =
          ((run_animation [0; 1; 2] [Demo.series] plt_figure).1,
           Ok {| frames := [0; 1; 2];
                 fargs := [default [] (plotting_data Demo.series)];
                 interval := 50 |})) as Hrun by (vm_compute; reflexivity).
  exact (axis_limits_cover _ _ _ _ _ Hrun).
Defined.

(** The frame at time 1, after the frame at time 0 and on its own. *)
Lemma update_animation_later_frame_witness :
  let data_list := [plotting_data Demo.series] in
  let lines1 := (update_animation 0 data_list [Demo.line0]).1 in
  let lines2 := (update_animation 1 data_list lines1).1 in
  update_animation 1 data_list [Demo.line0] = (lines2, Ok lines2).
Proof.
  intros data_list lines1 lines2.
  assert (update_animation 0 data_list [Demo.line0] = (lines1, Ok lines1)) as H1
    by (vm_compute; reflexivity).
  assert (update_animation 1 data_list lines1 = (lines2, Ok lines2)) as H2
    by (vm_compute; reflexivity).
  exact (update_animation_later_frame 0 1 data_list [Demo.line0] lines1 lines2
           lines1 lines2 ltac:(lia) H1 H2).
Defined.

(** Going back in time is different: after the frame at time 1, the frame
    at time -1 leaves the two states of the later frame on the line. *)
Example update_animation_earlier_frame :
  let data_list := [plotting_data Demo.series] in
  (update_animation (-1) data_list (update_animation 1 data_list [Demo.line0]).1).1
    = [ {| xdata := [1; 5]%Q; ydata := [3; 7]%Q; line_kwargs := Demo.no_kwargs |} ] ∧
  (update_animation (-1) data_list [Demo.line0]).1 = [Demo.line0].
Proof. split; vm_compute; reflexivity. Qed.

(** The three frames of the example animation, and the picture after the
    last of them. *)
Lemma animation_frames_succeed_witness :
  ∃ lines',
    play {| frames := [0; 1; 2];
            fargs := [default [] (plotting_data Demo.series)];
            interval := 50 |}
         (drop 0 (fig_lines (run_animation [0; 1; 2] [Demo.series] plt_figure).1))
    = (lines', Ok tt) ∧
    Forall2 (played_line [0; 1; 2]) [Demo.series] lines' ∧
    (∀ earlier t, [0; 1; 2] = earlier ++ [t] → Forall (λ u, u ≤ t) earlier →
                  Forall2 (frame_line t) [Demo.series] lines').
Proof.
  assert (run_animation [0; 1; 2] [Demo.series] plt_figure =
          ((run_animation [0; 1; 2] [Demo.series] plt_figure).1,
           Ok {| frames := [0; 1; 2];
                 fargs := [default [] (plotting_data Demo.series)];
                 interval := 50 |})) as Hrun by (vm_compute; reflexivity).
  exact (animation_frames_succeed _ _ _ _ _ [0; 1; 2] Hrun).
Defined.

(** Played to its end, the example animation shows the three states. *)
Example play_example :
  play {| frames := [0; 1; 2]; fargs := [default [] (plotting_data Demo.series)];
          interval := 50 |} [Demo.line0]
  = ([ {| xdata := [1; 5; 9]%Q; ydata := [3; 7; 7]%Q; line_kwargs := Demo.no_kwargs |} ],
     Ok tt).
Proof. vm_compute. reflexivity. Qed.
